(** * Tuple database: the client and transaction layer

    A shallow embedding of [database/sync/TupleDatabaseClient.ts],
    [database/sync/transactionalQuery.ts] and
    [database/async/AsyncTupleDatabaseClient.ts], with the helpers they
    import modelled next to them, and the properties of the transactional
    client layer proved over that embedding. *)

From Stdlib Require Import List ZArith Lia Bool String Ascii Arith Sorted.
From Stdlib Require Import Permutation.
From Equations Require Import Equations.
Import ListNotations.

Set Implicit Arguments.
Local Open Scope string_scope.
Local Open Scope list_scope.
Local Open Scope nat_scope.

(** ** Values and tuples ([storage/types]) *)

(** [Value] as the repository's types file declares it.  An [Id] is a
    string; a number is kept as an integer (the comparator only needs its
    order); an object is the list of its entries in key order, entries
    whose value is undefined left out. *)
#[warnings="-register-all"]
Inductive Value : Type :=
| VNull
| VObject (entries : list (string * Value))
| VArray (items : list Value)
| VNumber (n : Z)
| VString (s : string)
| VBoolean (b : bool)
| VMin
| VMax.

Definition Tuple : Type := list Value.

(** ** The comparator ([helpers/compare], [helpers/compareTuple]) *)

Section Lexicographic.
Variable A : Type.
Variable cmp : A -> A -> comparison.

(** Element-wise comparison; a proper prefix is smaller. *)
Fixpoint lexCompare (xs ys : list A) : comparison :=
  match xs, ys with
  | [], [] => Eq
  | [], _ :: _ => Lt
  | _ :: _, [] => Gt
  | x :: xs', y :: ys' =>
      match cmp x y with
      | Eq => lexCompare xs' ys'
      | c => c
      end
  end.
End Lexicographic.

Definition compareEntry (cmp : Value -> Value -> comparison)
    (e1 e2 : string * Value) : comparison :=
  match String.compare (fst e1) (fst e2) with
  | Eq => cmp (snd e1) (snd e2)
  | c => c
  end.

(** Modelled from the spec: the type order of section 4.C1, with MIN below
    and MAX above every other value. *)
Definition typeRank (v : Value) : nat :=
  match v with
  | VMin => 0
  | VNull => 1
  | VObject _ => 2
  | VArray _ => 3
  | VNumber _ => 4
  | VString _ => 5
  | VBoolean _ => 6
  | VMax => 7
  end.

(** Modelled from the spec: the element comparator of section 4.C1
    ([helpers/compare] is not among the source files). *)
Fixpoint compareValue (a b : Value) {struct a} : comparison :=
  match a, b with
  | VNumber x, VNumber y => Z.compare x y
  | VString x, VString y => String.compare x y
  | VBoolean x, VBoolean y => Bool.compare x y
  | VArray xs, VArray ys => lexCompare compareValue xs ys
  | VObject xs, VObject ys => lexCompare (compareEntry compareValue) xs ys
  | _, _ => Nat.compare (typeRank a) (typeRank b)
  end.

(** Modelled from the spec: the tuple comparator of section 4.C1
    ([helpers/compareTuple] is not among the source files). *)
Definition compareTuple (a b : Tuple) : comparison :=
  lexCompare compareValue a b.

(** Induction over values that reaches into arrays and objects. *)
Section ValueInduction.
Variable P : Value -> Prop.
Hypothesis Hnull : P VNull.
Hypothesis Hobject :
  forall entries, Forall (fun e => P (snd e)) entries -> P (VObject entries).
Hypothesis Harray : forall items, Forall P items -> P (VArray items).
Hypothesis Hnumber : forall n, P (VNumber n).
Hypothesis Hstring : forall s, P (VString s).
Hypothesis Hboolean : forall b, P (VBoolean b).
Hypothesis Hmin : P VMin.
Hypothesis Hmax : P VMax.

Fixpoint Value_nested_ind (v : Value) : P v :=
  match v with
  | VNull => Hnull
  | VObject entries =>
      Hobject
        ((fix go (l : list (string * Value)) : Forall (fun e => P (snd e)) l :=
            match l with
            | [] => Forall_nil _
            | e :: l' => Forall_cons e (Value_nested_ind (snd e)) (go l')
            end) entries)
  | VArray items =>
      Harray
        ((fix go (l : list Value) : Forall P l :=
            match l with
            | [] => Forall_nil _
            | x :: l' => Forall_cons x (Value_nested_ind x) (go l')
            end) items)
  | VNumber n => Hnumber n
  | VString s => Hstring s
  | VBoolean b => Hboolean b
  | VMin => Hmin
  | VMax => Hmax
  end.
End ValueInduction.

(** ** Pairs, write batches and scan arguments ([storage/types], [database/types]) *)

(** The value of a pair is [any]: the layer stores it and hands it back
    and never looks into it, so nothing constrains it.  It can be
    [undefined], which is also what [get] returns for a tuple that is
    absent; every other value is carried as a [Value]. *)
Inductive Any : Type :=
| undefined
| defined (v : Value).

Record KeyValuePair : Type := mkPair { key : Tuple; value : Any }.

(** A write batch.  The code reads an absent field as [[]]
    ([remove || []]), so both fields are lists here. *)
Module Writes.
Record t : Type := mk {
  set : list KeyValuePair;
  remove : list Tuple
}.
End Writes.

Definition TxId : Type := string.

(** The scan arguments of the client API, with the fields the
    repository's types file gives them.  [reverse], which the spec leaves
    to the implementation, is not one of them. *)
Module ScanArgs.
Record t : Type := mk {
  prefix : option Tuple;
  gt : option Tuple;
  gte : option Tuple;
  lt : option Tuple;
  lte : option Tuple;
  limit : option nat
}.
(** [args = {}] *)
Definition empty : t := mk None None None None None None.
End ScanArgs.

(** The scan arguments an engine or a sorted array is scanned with: the
    prefix is expanded upstream. *)
Module ScanStorageArgs.
Record t : Type := mk {
  gt : option Tuple;
  gte : option Tuple;
  lt : option Tuple;
  lte : option Tuple;
  limit : option nat
}.
End ScanStorageArgs.

(** ** Errors and the result of a call *)

(** [ReadWriteConflictError] is the one error class the code tests with
    [instanceof]; every other error it raises is a plain [Error] with a
    message. *)
Inductive JsError : Type :=
| ReadWriteConflictError (message : string)
| Error (message : string).

Definition isConflict (error : JsError) : bool :=
  match error with
  | ReadWriteConflictError _ => true
  | Error _ => false
  end.

Inductive Result (A : Type) : Type :=
| Ok (a : A)
| Throws (error : JsError).
Arguments Ok {A} a.
Arguments Throws {A} error.

(** A method call: it reads and updates the state [S] it runs in and
    either returns or throws; the state changes made before a throw stay. *)
Definition M (S A : Type) : Type := S -> Result A * S.

Definition ret {S A : Type} (a : A) : M S A := fun s => (Ok a, s).
Definition throw {S A : Type} (error : JsError) : M S A :=
  fun s => (Throws error, s).
Definition bind {S A B : Type} (m : M S A) (k : A -> M S B) : M S B :=
  fun s =>
    match m s with
    | (Ok a, s') => k a s'
    | (Throws error, s') => (Throws error, s')
    end.
(** [try { m } catch (error) { handler }] *)
Definition tryCatch {S A : Type} (m : M S A) (handler : JsError -> M S A)
    : M S A :=
  fun s =>
    match m s with
    | (Ok a, s') => (Ok a, s')
    | (Throws error, s') => handler error s'
    end.
Definition gets {S A : Type} (f : S -> A) : M S A := fun s => (Ok (f s), s).
Definition modify {S : Type} (f : S -> S) : M S unit := fun s => (Ok tt, f s).

Declare Scope method_scope.
Delimit Scope method_scope with method.
Notation "x <- m ;; k" := (bind m (fun x => k))
  (at level 61, m at next level, right associativity) : method_scope.
Notation "m ;; k" := (bind m (fun _ => k))
  (at level 61, right associativity) : method_scope.
Local Open Scope method_scope.

(** [for (const x of items) body(x)] *)
Fixpoint forEach {S A : Type} (items : list A) (body : A -> M S unit)
    : M S unit :=
  match items with
  | [] => ret tt
  | x :: rest => body x ;; forEach rest body
  end.

(** ** Sorted arrays ([helpers/binarySearch], [helpers/sortedList]) *)

Inductive BinarySearchResult : Type :=
| found (i : nat)
| closest (i : nat).

Definition shift (r : BinarySearchResult) : BinarySearchResult :=
  match r with
  | found i => found (S i)
  | closest i => closest (S i)
  end.

Section SortedList.
Variable A K : Type.
(** [cmp item k]: the order of a stored item against the searched key. *)
Variable cmp : A -> K -> comparison.

(** Modelled from the spec: the search of section 4.C2
    ([helpers/binarySearch] is not among the source files).  On a sorted
    array the result is the index of the match ([found]) or the insertion
    position that keeps the order ([closest]); the model reads it off from
    the left, which is what bisection returns on a sorted array. *)
Fixpoint binarySearch (data : list A) (k : K) : BinarySearchResult :=
  match data with
  | [] => closest 0
  | x :: rest =>
      match cmp x k with
      | Lt => shift (binarySearch rest k)
      | Eq => found 0
      | Gt => closest 0
      end
  end.

(** [list.splice(start, deleteCount, ...items)] *)
Definition splice (data : list A) (start deleteCount : nat) (items : list A)
    : list A :=
  firstn start data ++ items ++ skipn (start + deleteCount) data.

(** Modelled from the spec: "one binary search followed by a
    constant-time splice". *)
Definition sortedSet (data : list A) (k : K) (item : A) : list A :=
  match binarySearch data k with
  | found i => splice data i 1 [item]
  | closest i => splice data i 0 [item]
  end.

(** Modelled from the spec: removal, a search and a splice of the match. *)
Definition sortedRemove (data : list A) (k : K) : list A :=
  match binarySearch data k with
  | found i => splice data i 1 []
  | closest _ => data
  end.

(** Modelled from the spec: membership, a search that finds. *)
Definition sortedExists (data : list A) (k : K) : bool :=
  match binarySearch data k with
  | found _ => true
  | closest _ => false
  end.

(** Modelled from the spec: lookup, the item at the index found. *)
Definition sortedGet (data : list A) (k : K) : option A :=
  match binarySearch data k with
  | found i => nth_error data i
  | closest _ => None
  end.

(** Modelled from the spec: [[start, end)] by a search on each bound
    (an exclusive bound that is found steps over the match), the slice,
    then the limit. *)
Definition scanStart (data : list A) (gt gte : option K) : nat :=
  match gte, gt with
  | Some b, _ =>
      match binarySearch data b with found i => i | closest i => i end
  | None, Some b =>
      match binarySearch data b with found i => S i | closest i => i end
  | None, None => 0
  end.

(** Modelled from the spec: the end of the slice (an inclusive bound
    that is found steps over the match). *)
Definition scanEnd (data : list A) (lt lte : option K) : nat :=
  match lte, lt with
  | Some b, _ =>
      match binarySearch data b with found i => S i | closest i => i end
  | None, Some b =>
      match binarySearch data b with found i => i | closest i => i end
  | None, None => List.length data
  end.

(** Modelled from the spec: the [limit] as a cap on the result count. *)
Definition applyLimit (limit : option nat) (data : list A) : list A :=
  match limit with
  | Some n => firstn n data
  | None => data
  end.

(** Modelled from the spec: [scan(sorted, args)] of section 4.C2. *)
Definition sortedScan (data : list A) (gt gte lt lte : option K)
    (limit : option nat) : list A :=
  let start := scanStart data gt gte in
  let end_ := scanEnd data lt lte in
  applyLimit limit (firstn (end_ - start) (skipn start data)).
End SortedList.

(** ** [helpers/sortedTupleArray] (imported as [t]) *)

(** Modelled from the spec: the sorted primitives of section 4.C2 over
    tuples ([helpers/sortedTupleArray] is not among the source files). *)
Module sortedTupleArray.
Definition set (data : list Tuple) (tuple : Tuple) : list Tuple :=
  sortedSet compareTuple data tuple tuple.
Definition remove (data : list Tuple) (tuple : Tuple) : list Tuple :=
  sortedRemove compareTuple data tuple.
Definition exists_ (data : list Tuple) (tuple : Tuple) : bool :=
  sortedExists compareTuple data tuple.
Definition scan (data : list Tuple) (args : ScanStorageArgs.t)
    : list Tuple :=
  sortedScan compareTuple data
    (ScanStorageArgs.gt args) (ScanStorageArgs.gte args)
    (ScanStorageArgs.lt args) (ScanStorageArgs.lte args)
    (ScanStorageArgs.limit args).
End sortedTupleArray.
Module t := sortedTupleArray.

(** ** [helpers/sortedTupleValuePairs] (imported as [tv]) *)

(** Modelled from the spec: the sorted primitives of section 4.C2 over
    pairs, ordered by key ([helpers/sortedTupleValuePairs] is not among the
    source files). *)
Module sortedTupleValuePairs.
Definition compareTupleValuePair (pair : KeyValuePair) (tuple : Tuple)
    : comparison :=
  compareTuple (key pair) tuple.
Definition set (data : list KeyValuePair) (tuple : Tuple) (v : Any)
    : list KeyValuePair :=
  sortedSet compareTupleValuePair data tuple (mkPair tuple v).
Definition remove (data : list KeyValuePair) (tuple : Tuple)
    : list KeyValuePair :=
  sortedRemove compareTupleValuePair data tuple.
Definition exists_ (data : list KeyValuePair) (tuple : Tuple) : bool :=
  sortedExists compareTupleValuePair data tuple.
(** A tuple that is absent reads [undefined]. *)
Definition get (data : list KeyValuePair) (tuple : Tuple) : Any :=
  match sortedGet compareTupleValuePair data tuple with
  | Some pair0 => value pair0
  | None => undefined
  end.
Definition scan (data : list KeyValuePair) (args : ScanStorageArgs.t)
    : list KeyValuePair :=
  sortedScan compareTupleValuePair data
    (ScanStorageArgs.gt args) (ScanStorageArgs.gte args)
    (ScanStorageArgs.lt args) (ScanStorageArgs.lte args)
    (ScanStorageArgs.limit args).
End sortedTupleValuePairs.
Module tv := sortedTupleValuePairs.

(** ** [helpers/subspaceHelpers] *)

(** Modelled from the spec: [prependPrefix(P, t) = P ++ t]
    ([helpers/subspaceHelpers] is not among the source files). *)
Definition prependPrefixToTuple (prefix tuple : Tuple) : Tuple :=
  prefix ++ tuple.

(** Modelled from the spec: [removePrefix(P, t) = t[len(P):]]. *)
Definition removePrefixFromTuple (prefix tuple : Tuple) : Tuple :=
  skipn (List.length prefix) tuple.

(** Modelled from the spec: the mapping of [removePrefix] over pairs. *)
Definition removePrefixFromTupleValuePairs (prefix : Tuple)
    (pairs : list KeyValuePair) : list KeyValuePair :=
  map (fun pair => mkPair (removePrefixFromTuple prefix (key pair)) (value pair))
    pairs.

(** Modelled from the spec: the mapping of [prependPrefix] over a batch. *)
Definition prependPrefixToWrites (prefix : Tuple) (writes : Writes.t)
    : Writes.t :=
  Writes.mk
    (map (fun pair => mkPair (prependPrefixToTuple prefix (key pair)) (value pair))
       (Writes.set writes))
    (map (prependPrefixToTuple prefix) (Writes.remove writes)).

(** Modelled from the spec: the subspace prefix is prepended to the prefix
    and to each bound; a side with no bound of its own is closed by the
    prefix, [gte = P ++ prefix ++ [MIN]] and [lte = P ++ prefix ++ [MAX]];
    the limit passes through.  An absent [prefix] is the empty tuple, so
    that a scan through a subspace stays inside it. *)
Definition normalizeSubspaceScanArgs (subspacePrefix : Tuple)
    (args : ScanArgs.t) : ScanStorageArgs.t :=
  let prepend := option_map (prependPrefixToTuple subspacePrefix) in
  let prefix :=
    prependPrefixToTuple subspacePrefix
      (match ScanArgs.prefix args with Some p => p | None => [] end) in
  let gt := prepend (ScanArgs.gt args) in
  let gte := prepend (ScanArgs.gte args) in
  let lt := prepend (ScanArgs.lt args) in
  let lte := prepend (ScanArgs.lte args) in
  ScanStorageArgs.mk
    gt
    (match gte, gt with
     | None, None => Some (prefix ++ [VMin])
     | _, _ => gte
     end)
    lt
    (match lte, lt with
     | None, None => Some (prefix ++ [VMax])
     | _, _ => lte
     end)
    (ScanArgs.limit args).

(** ** The engine interface ([database/sync/types], [TupleDatabaseApi]) *)

(** The client is written against this interface; [DB] is the state of the
    engine object the client holds a reference to.  [subscribe] and [close]
    take no part in the properties below and are left out. *)
Class TupleDatabaseApi (DB : Type) : Type := {
  db_scan : ScanStorageArgs.t -> option TxId -> M DB (list KeyValuePair);
  db_commit : Writes.t -> option TxId -> M DB unit;
  db_cancel : TxId -> M DB unit
}.

(** ** The transaction interface ([database/sync/types], [TupleTransactionApi]) *)

(** What [TupleTransactionSubspace] calls on the transaction it wraps; [S]
    is the state those calls run in.  The setters return [this], which
    carries no information here. *)
Class TupleTransactionApi (S : Type) : Type := {
  tx_scan : ScanArgs.t -> M S (list KeyValuePair);
  tx_get : Tuple -> M S Any;
  tx_exists : Tuple -> M S bool;
  tx_set : Tuple -> Any -> M S unit;
  tx_remove : Tuple -> M S unit;
  tx_commit : M S unit;
  tx_cancel : M S unit
}.

(** Normalised scan arguments handed on as the scan arguments of the
    wrapped transaction: the same object, with no [prefix]. *)
Definition asScanArgs (args : ScanStorageArgs.t) : ScanArgs.t :=
  ScanArgs.mk None
    (ScanStorageArgs.gt args) (ScanStorageArgs.gte args)
    (ScanStorageArgs.lt args) (ScanStorageArgs.lte args)
    (ScanStorageArgs.limit args).

(** [{ gte: tuple, lte: tuple }] *)
Definition pointScanArgs (tuple : Tuple) : ScanArgs.t :=
  ScanArgs.mk None None (Some tuple) None (Some tuple) None.
Definition pointStorageArgs (tuple : Tuple) : ScanStorageArgs.t :=
  ScanStorageArgs.mk None (Some tuple) None (Some tuple) None.

(** * The synchronous family ([database/sync/TupleDatabaseClient.ts]) *)

(** ** [class TupleTransactionSubspace] *)

Module TupleTransactionSubspace.
(** The field [tx] is a reference to the wrapped transaction, whose state
    is the state [S] the methods run in. *)
Record t : Type := mk { subspacePrefix : Tuple }.

Section Methods.
Context {S : Type} {tx : TupleTransactionApi S}.
Variable this : t.

Definition scan (args : ScanArgs.t) : M S (list KeyValuePair) :=
  let storageScanArgs :=
    normalizeSubspaceScanArgs (subspacePrefix this) args in
  pairs <- tx_scan (asScanArgs storageScanArgs) ;;
  let result :=
    removePrefixFromTupleValuePairs (subspacePrefix this) pairs in
  ret result.

Definition get (tuple : Tuple) : M S Any :=
  let fullTuple := prependPrefixToTuple (subspacePrefix this) tuple in
  tx_get fullTuple.

Definition exists_ (tuple : Tuple) : M S bool :=
  let fullTuple := prependPrefixToTuple (subspacePrefix this) tuple in
  tx_exists fullTuple.

Definition set (tuple : Tuple) (v : Any) : M S unit :=
  let fullTuple := prependPrefixToTuple (subspacePrefix this) tuple in
  tx_set fullTuple v.

Definition remove (tuple : Tuple) : M S unit :=
  let fullTuple := prependPrefixToTuple (subspacePrefix this) tuple in
  tx_remove fullTuple.

Definition write (writes : Writes.t) : M S unit :=
  forEach (Writes.remove writes) (fun tuple => remove tuple) ;;
  forEach (Writes.set writes) (fun pair => set (key pair) (value pair)).

Definition commit : M S unit := tx_commit.

Definition cancel : M S unit := tx_cancel.

Definition subspace (prefix : Tuple) : t :=
  mk (subspacePrefix this ++ prefix).
End Methods.
End TupleTransactionSubspace.

(** ** [class TupleTransaction] *)

Module TupleTransaction.
(** The field [db] is a reference to the engine; the methods run in the
    state of the transaction object paired with the state of that
    engine. *)
Record t : Type := mk {
  subspacePrefix : Tuple;
  id : TxId;
  committed : bool;
  canceled : bool;
  writes : Writes.t
}.

(** [new TupleTransaction(db, subspacePrefix, id)] *)
Definition new (subspacePrefix : Tuple) (id : TxId) : t :=
  mk subspacePrefix id false false (Writes.mk [] []).

Section Methods.
Context {DB : Type} {api : TupleDatabaseApi DB}.

Definition State : Type := (t * DB)%type.

Definition this : M State t := gets fst.

(** A call on [this.db]. *)
Definition db {A : Type} (call : M DB A) : M State A :=
  fun s =>
    match call (snd s) with
    | (r, d) => (r, (fst s, d))
    end.

Definition update (f : t -> t) : M State unit :=
  modify (fun s => (f (fst s), snd s)).

Definition checkActive : M State unit :=
  tx <- this ;;
  if committed tx then throw (Error "Transaction already committed")
  else if canceled tx then throw (Error "Transaction already canceled")
  else ret tt.

Definition scan (args : ScanArgs.t) : M State (list KeyValuePair) :=
  checkActive ;;
  tx <- this ;;
  let storageScanArgs :=
    normalizeSubspaceScanArgs (subspacePrefix tx) args in
  pairs <- db (db_scan storageScanArgs (Some (id tx))) ;;
  let result := removePrefixFromTupleValuePairs (subspacePrefix tx) pairs in
  tx <- this ;;
  let sets := tv.scan (Writes.set (writes tx)) storageScanArgs in
  let result :=
    fold_left
      (fun result pair =>
         let tuple := removePrefixFromTuple (subspacePrefix tx) (key pair) in
         tv.set result tuple (value pair))
      sets result in
  let removes := t.scan (Writes.remove (writes tx)) storageScanArgs in
  let result :=
    fold_left
      (fun result fullTuple =>
         let tuple := removePrefixFromTuple (subspacePrefix tx) fullTuple in
         tv.remove result tuple)
      removes result in
  ret result.

Definition get (tuple : Tuple) : M State Any :=
  checkActive ;;
  tx <- this ;;
  let fullTuple := prependPrefixToTuple (subspacePrefix tx) tuple in
  if tv.exists_ (Writes.set (writes tx)) fullTuple then
    ret (tv.get (Writes.set (writes tx)) fullTuple)
  else if t.exists_ (Writes.remove (writes tx)) fullTuple then
    ret undefined
  else
    items <- db (db_scan (pointStorageArgs fullTuple) (Some (id tx))) ;;
    if List.length items =? 0 then ret undefined
    else if 1 <? List.length items then
      throw (Error "Get expects only one value.")
    else
      match items with
      | pair0 :: _ => ret (value pair0)
      | [] => ret undefined
      end.

Definition exists_ (tuple : Tuple) : M State bool :=
  checkActive ;;
  tx <- this ;;
  let fullTuple := prependPrefixToTuple (subspacePrefix tx) tuple in
  if tv.exists_ (Writes.set (writes tx)) fullTuple then ret true
  else if t.exists_ (Writes.remove (writes tx)) fullTuple then ret false
  else
    items <- db (db_scan (pointStorageArgs fullTuple) (Some (id tx))) ;;
    if List.length items =? 0 then ret false
    else ret (1 <=? List.length items).

Definition set (tuple : Tuple) (v : Any) : M State unit :=
  checkActive ;;
  tx <- this ;;
  let fullTuple := prependPrefixToTuple (subspacePrefix tx) tuple in
  update (fun tx =>
    mk (subspacePrefix tx) (id tx) (committed tx) (canceled tx)
       (Writes.mk (Writes.set (writes tx))
                  (t.remove (Writes.remove (writes tx)) fullTuple))) ;;
  update (fun tx =>
    mk (subspacePrefix tx) (id tx) (committed tx) (canceled tx)
       (Writes.mk (tv.set (Writes.set (writes tx)) fullTuple v)
                  (Writes.remove (writes tx)))).

Definition remove (tuple : Tuple) : M State unit :=
  checkActive ;;
  tx <- this ;;
  let fullTuple := prependPrefixToTuple (subspacePrefix tx) tuple in
  update (fun tx =>
    mk (subspacePrefix tx) (id tx) (committed tx) (canceled tx)
       (Writes.mk (tv.remove (Writes.set (writes tx)) fullTuple)
                  (Writes.remove (writes tx)))) ;;
  update (fun tx =>
    mk (subspacePrefix tx) (id tx) (committed tx) (canceled tx)
       (Writes.mk (Writes.set (writes tx))
                  (t.set (Writes.remove (writes tx)) fullTuple))).

Definition write (w : Writes.t) : M State unit :=
  checkActive ;;
  forEach (Writes.remove w) (fun tuple => remove tuple) ;;
  forEach (Writes.set w) (fun pair => set (key pair) (value pair)).

Definition commit : M State unit :=
  checkActive ;;
  update (fun tx =>
    mk (subspacePrefix tx) (id tx) true (canceled tx) (writes tx)) ;;
  tx <- this ;;
  db (db_commit (writes tx) (Some (id tx))).

Definition cancel : M State unit :=
  checkActive ;;
  update (fun tx =>
    mk (subspacePrefix tx) (id tx) (committed tx) true (writes tx)) ;;
  tx <- this ;;
  db (db_cancel (id tx)).

Definition subspace (prefix : Tuple) : M State TupleTransactionSubspace.t :=
  checkActive ;;
  ret (TupleTransactionSubspace.mk prefix).

(** [TupleTransaction implements TupleTransactionApi] *)
#[global] Instance api_of_transaction : TupleTransactionApi State := {
  tx_scan := scan;
  tx_get := get;
  tx_exists := exists_;
  tx_set := set;
  tx_remove := remove;
  tx_commit := commit;
  tx_cancel := cancel
}.
End Methods.
End TupleTransaction.

(** ** [class TupleDatabaseClient] *)

Module TupleDatabaseClient.
(** The field [db] is a reference to the engine, in whose state the
    methods run. *)
Record t : Type := mk { subspacePrefix : Tuple }.

Section Methods.
Context {DB : Type} {api : TupleDatabaseApi DB}.
Variable this : t.

Definition scan (args : ScanArgs.t) (txId : option TxId)
    : M DB (list KeyValuePair) :=
  let storageScanArgs :=
    normalizeSubspaceScanArgs (subspacePrefix this) args in
  pairs <- db_scan storageScanArgs txId ;;
  let result :=
    removePrefixFromTupleValuePairs (subspacePrefix this) pairs in
  ret result.

Definition commit (writes : Writes.t) (txId : option TxId) : M DB unit :=
  let prefixedWrites := prependPrefixToWrites (subspacePrefix this) writes in
  db_commit prefixedWrites txId.

Definition cancel (txId : TxId) : M DB unit := db_cancel txId.

Definition get (tuple : Tuple) (txId : option TxId)
    : M DB Any :=
  items <- scan (pointScanArgs tuple) txId ;;
  if List.length items =? 0 then ret undefined
  else if 1 <? List.length items then
    throw (Error "Get expects only one value.")
  else
    match items with
    | pair0 :: _ => ret (value pair0)
    | [] => ret undefined
    end.

Definition exists_ (tuple : Tuple) (txId : option TxId) : M DB bool :=
  items <- scan (pointScanArgs tuple) txId ;;
  if List.length items =? 0 then ret false
  else ret (1 <=? List.length items).

Definition subspace (prefix : Tuple) : t :=
  let subspacePrefix := subspacePrefix this ++ prefix in
  mk subspacePrefix.

(** [txId || randomId()]: an absent or empty [txId] is falsy;
    [randomId] is the identifier the call to [randomId()] draws. *)
Definition transact (txId : option TxId) (randomId : TxId)
    : TupleTransaction.t :=
  let id :=
    match txId with
    | Some s => if String.eqb s EmptyString then randomId else s
    | None => randomId
    end in
  TupleTransaction.new (subspacePrefix this) id.
End Methods.
End TupleDatabaseClient.

(** * The retry wrapper ([database/sync/transactionalQuery.ts]) *)

(** ** User functions *)

(** The object a user function calls its transaction methods on: a
    [TupleTransaction] or a [TupleTransactionSubspace] view of it. *)
Inductive TxObject : Type :=
| Root
| View (view : TupleTransactionSubspace.t).

Inductive TxCall : Type :=
| CallScan (args : ScanArgs.t)
| CallGet (tuple : Tuple)
| CallExists (tuple : Tuple)
| CallSet (tuple : Tuple) (v : Any)
| CallRemove (tuple : Tuple)
| CallWrite (writes : Writes.t)
| CallCommit
| CallCancel
| CallSubspace (prefix : Tuple).

Inductive TxReturn : Type :=
| RetPairs (pairs : list KeyValuePair)
| RetValue (v : Any)
| RetBool (b : bool)
| RetVoid
| RetTx (object : TxObject).

(** A user function [fn(tx, ...args)]: it returns or throws, leaving its
    own state (what its closure captures) as [u], or it calls a method of
    the transaction API and goes on with what the call returned or threw. *)
Inductive UserFn (U O : Type) : Type :=
| Return (u : U) (result : O)
| Throw (u : U) (error : JsError)
| Call (object : TxObject) (call : TxCall)
    (k : Result TxReturn -> UserFn U O).
Arguments Return {U O} u result.
Arguments Throw {U O} u error.
Arguments Call {U O} object call k.

Section UserFunctions.
Context {DB : Type} {api : TupleDatabaseApi DB}.

Definition returning {A : Type} (wrap : A -> TxReturn)
    (m : M (@TupleTransaction.State DB) A)
    : M (@TupleTransaction.State DB) TxReturn :=
  a <- m ;; ret (wrap a).

(** The method the call dispatches to. *)
Definition invoke (object : TxObject) (call : TxCall)
    : M (@TupleTransaction.State DB) TxReturn :=
  match object with
  | Root =>
      match call with
      | CallScan args => returning RetPairs (TupleTransaction.scan args)
      | CallGet tuple => returning RetValue (TupleTransaction.get tuple)
      | CallExists tuple => returning RetBool (TupleTransaction.exists_ tuple)
      | CallSet tuple v =>
          returning (fun _ => RetTx Root) (TupleTransaction.set tuple v)
      | CallRemove tuple =>
          returning (fun _ => RetTx Root) (TupleTransaction.remove tuple)
      | CallWrite writes =>
          returning (fun _ => RetTx Root) (TupleTransaction.write writes)
      | CallCommit => returning (fun _ => RetVoid) TupleTransaction.commit
      | CallCancel => returning (fun _ => RetVoid) TupleTransaction.cancel
      | CallSubspace prefix =>
          returning (fun view => RetTx (View view))
            (TupleTransaction.subspace prefix)
      end
  | View this =>
      match call with
      | CallScan args =>
          returning RetPairs (TupleTransactionSubspace.scan this args)
      | CallGet tuple =>
          returning RetValue (TupleTransactionSubspace.get this tuple)
      | CallExists tuple =>
          returning RetBool (TupleTransactionSubspace.exists_ this tuple)
      | CallSet tuple v =>
          returning (fun _ => RetTx (View this))
            (TupleTransactionSubspace.set this tuple v)
      | CallRemove tuple =>
          returning (fun _ => RetTx (View this))
            (TupleTransactionSubspace.remove this tuple)
      | CallWrite writes =>
          returning (fun _ => RetTx (View this))
            (TupleTransactionSubspace.write this writes)
      | CallCommit =>
          returning (fun _ => RetVoid) TupleTransactionSubspace.commit
      | CallCancel =>
          returning (fun _ => RetVoid) TupleTransactionSubspace.cancel
      | CallSubspace prefix =>
          ret (RetTx (View (TupleTransactionSubspace.subspace this prefix)))
      end
  end.

(** Running a user function against a transaction and its engine. *)
Fixpoint runUserFn {U O : Type} (f : UserFn U O)
    (s : @TupleTransaction.State DB)
    : (U * Result O) * @TupleTransaction.State DB :=
  match f with
  | Return u result => ((u, Ok result), s)
  | Throw u error => ((u, Throws error), s)
  | Call object call k =>
      match invoke object call s with
      | (r, s') => runUserFn (k r) s'
      end
  end.
End UserFunctions.

(** ** [function retry] *)

(** [while (true) { try { return fn() } catch (error) { ... } }]; every
    turn of the loop that goes round again has decremented a positive
    [retries]. *)
Equations retry {W O : Type} (retries : Z) (fn : M W O) (w : W)
    : Result O * W by wf (Z.to_nat retries) Nat.lt :=
  retry retries fn w with fn w := {
    | (Ok result, w') => (Ok result, w')
    | (Throws error, w') with Z_le_gt_dec retries 0 := {
        | left _ => (Throws error, w')
        | right _ with isConflict error := {
            | false => (Throws error, w')
            | true => retry (retries - 1) fn w'
          }
      }
  }.
Next Obligation. lia. Qed.

(** ** [function transactionalQuery] *)

(** [retries = 5] *)
Definition defaultRetries : Z := 5.

(** The argument [dbOrTx]: a client, or a transaction object together with
    the state of the transaction it is or wraps. *)
Inductive DbOrTx : Type :=
| IsDb (client : TupleDatabaseClient.t)
| IsTx (object : TxObject) (tx : TupleTransaction.t).

Section TransactionalQuery.
Context {DB : Type} {api : TupleDatabaseApi DB}.
Variables I U O : Type.
(** [randomId n] is the identifier the [n]-th call of [randomId()]
    draws. *)
Variable randomId : nat -> TxId.

(** What a call of the wrapped function runs in: the engine, the number
    of identifiers drawn so far, and the state of the user function. *)
Record World : Type := mkWorld { engine : DB; draws : nat; user : U }.

Definition AttemptState : Type := (@TupleTransaction.State DB * U)%type.

(** A transaction method called from the wrapper. *)
Definition onTx {A : Type} (m : M (@TupleTransaction.State DB) A)
    : M AttemptState A :=
  fun s =>
    match m (fst s) with
    | (r, s') => (r, (s', snd s))
    end.

(** [fn(tx, ...args)] *)
Definition callFn (fn : TxObject -> I -> U -> UserFn U O)
    (object : TxObject) (args : I) : M AttemptState O :=
  fun s =>
    match runUserFn (fn object args (snd s)) (fst s) with
    | ((u, r), s') => (r, (s', u))
    end.

(** The body of the closure handed to [retry], from the [try] on. *)
Definition attemptBody (fn : TxObject -> I -> U -> UserFn U O) (args : I)
    : M AttemptState O :=
  result <-
    tryCatch (callFn fn Root args)
      (fun error => onTx TupleTransaction.cancel ;; throw error) ;;
  onTx TupleTransaction.commit ;;
  ret result.

(** The closure handed to [retry], with the transaction it created as it
    leaves it. *)
Definition attemptWithTx (dbOrTx : TupleDatabaseClient.t)
    (fn : TxObject -> I -> U -> UserFn U O) (args : I) (w : World)
    : (Result O * TupleTransaction.t) * World :=
  let tx :=
    TupleDatabaseClient.transact dbOrTx None (randomId (draws w)) in
  match attemptBody fn args ((tx, engine w), user w) with
  | (r, ((tx', db'), u')) => ((r, tx'), mkWorld db' (S (draws w)) u')
  end.

Definition attempt (dbOrTx : TupleDatabaseClient.t)
    (fn : TxObject -> I -> U -> UserFn U O) (args : I) : M World O :=
  fun w =>
    match attemptWithTx dbOrTx fn args w with
    | ((r, _), w') => (r, w')
    end.

Definition transactionalQuery (retries : Z)
    (fn : TxObject -> I -> U -> UserFn U O) (dbOrTx : DbOrTx) (args : I)
    (w : World) : (Result O * DbOrTx) * World :=
  match dbOrTx with
  | IsTx object tx =>
      match callFn fn object args ((tx, engine w), user w) with
      | (r, ((tx', db'), u')) =>
          ((r, IsTx object tx'), mkWorld db' (draws w) u')
      end
  | IsDb client =>
      match retry retries (attempt client fn args) w with
      | (r, w') => ((r, IsDb client), w')
      end
  end.
End TransactionalQuery.

(** A user function instrumented to count its invocations: the counter
    sits next to the function's own state and goes up by one each time the
    function is entered. *)
Fixpoint withCount {U O : Type} (n : nat) (f : UserFn U O)
    : UserFn (U * nat) O :=
  match f with
  | Return u result => Return (u, n) result
  | Throw u error => Throw (u, n) error
  | Call object call k => Call object call (fun r => withCount n (k r))
  end.

Definition counting {I U O : Type} (fn : TxObject -> I -> U -> UserFn U O)
    : TxObject -> I -> U * nat -> UserFn (U * nat) O :=
  fun object args s => withCount (S (snd s)) (fn object args (fst s)).

(** * The engine ([database/sync/TupleDatabase], [database/ConcurrencyLog]) *)

(** Modelled from the spec: whether a tuple lies within scan bounds. *)
Definition isTupleWithinBounds (tuple : Tuple) (bounds : ScanStorageArgs.t)
    : bool :=
  let holds (bound : option Tuple) (ok : comparison -> bool) :=
    match bound with
    | Some b => ok (compareTuple tuple b)
    | None => true
    end in
  holds (ScanStorageArgs.gt bounds)
        (fun c => match c with Gt => true | _ => false end)
  && holds (ScanStorageArgs.gte bounds)
        (fun c => match c with Lt => false | _ => true end)
  && holds (ScanStorageArgs.lt bounds)
        (fun c => match c with Lt => true | _ => false end)
  && holds (ScanStorageArgs.lte bounds)
        (fun c => match c with Gt => false | _ => true end).

(** Modelled from the spec: the concurrency log of section 4.C6
    ([database/ConcurrencyLog] is not among the source files). *)
Module ConcurrencyLog.
Inductive entry : Type :=
| readEntry (txId : TxId) (bounds : ScanStorageArgs.t)
| writeEntry (txId : TxId) (tuple : Tuple).

Definition t : Type := list entry.

(** Modelled from the spec: [read(txId, bounds)] appends a read entry. *)
Definition read (txId : TxId) (bounds : ScanStorageArgs.t) (log : t) : t :=
  log ++ [readEntry txId bounds].

(** Modelled from the spec: [write(txId, tuple)] appends a write entry. *)
Definition write (txId : TxId) (tuple : Tuple) (log : t) : t :=
  log ++ [writeEntry txId tuple].

(** Modelled from the spec: the conflict test of [commit(txId)], a walk
    of the log in append order: [reads] holds the bounds
    [txId] has read so far; a later write of another transaction inside
    one of them is the conflict. *)
Fixpoint conflict (txId : TxId) (reads : list ScanStorageArgs.t) (log : t)
    : bool :=
  match log with
  | [] => false
  | readEntry id bounds :: rest =>
      if String.eqb id txId then conflict txId (bounds :: reads) rest
      else conflict txId reads rest
  | writeEntry id tuple :: rest =>
      if negb (String.eqb id txId)
         && existsb (isTupleWithinBounds tuple) reads
      then true
      else conflict txId reads rest
  end.

Definition isReadOf (txId : TxId) (e : entry) : bool :=
  match e with
  | readEntry id _ => String.eqb id txId
  | writeEntry _ _ => false
  end.

Definition isEntryOf (txId : TxId) (e : entry) : bool :=
  match e with
  | readEntry id _ => String.eqb id txId
  | writeEntry id _ => String.eqb id txId
  end.

(** Modelled from the spec: the cleanup of section 4.C6; write entries
    older than every read still in the log are of no use any more. *)
Fixpoint cleanup (log : t) : t :=
  match log with
  | writeEntry _ _ :: rest => cleanup rest
  | _ => log
  end.

(** Modelled from the spec: section 4.C6, [commit(txId)].  The entries
    the committing transaction gives up are its reads; its writes stay
    for the reads of the transactions still live, until [cleanup]. *)
Definition commit (txId : TxId) : M t unit :=
  fun log =>
    if conflict txId [] log then
      (Throws (ReadWriteConflictError txId), log)
    else
      (Ok tt, cleanup (filter (fun e => negb (isReadOf txId e)) log)).

(** Modelled from the spec: section 4.C6, [cancel(txId)]. *)
Definition cancel (txId : TxId) : M t unit :=
  fun log =>
    (Ok tt, cleanup (filter (fun e => negb (isEntryOf txId e)) log)).
End ConcurrencyLog.

(** Modelled from the spec: the engine of section 4.C7 over the storage
    contract of section 4.C4 ([database/sync/TupleDatabase] and the
    storages are not among the source files). *)
Module TupleDatabase.
(** An engine over an in-memory storage: the sorted pairs and the
    concurrency log.  No listener is registered, so the reactivity step
    of [commit] has nothing to do. *)
Record t : Type := mk {
  storage : list KeyValuePair;
  log : ConcurrencyLog.t
}.

(** Modelled from the spec: section 4.C7, [scan(args, txId?)]. *)
Definition scan (args : ScanStorageArgs.t) (txId : option TxId)
    : M t (list KeyValuePair) :=
  fun db =>
    let log' :=
      match txId with
      | Some id => ConcurrencyLog.read id args (log db)
      | None => log db
      end in
    (Ok (tv.scan (storage db) args), mk (storage db) log').

(** Modelled from the spec: section 4.C4, [commit(writes)] of the
    storage. *)
Definition storageCommit (writes : Writes.t) (data : list KeyValuePair)
    : list KeyValuePair :=
  let data := fold_left tv.remove (Writes.remove writes) data in
  fold_left (fun data pair => tv.set data (key pair) (value pair))
    (Writes.set writes) data.

(** Modelled from the spec: section 4.C7, [commit(writes, txId?)]. *)
Definition commit (writes : Writes.t) (txId : option TxId) : M t unit :=
  fun db =>
    match txId with
    | Some id =>
        let logged :=
          fold_left (fun l tuple => ConcurrencyLog.write id tuple l)
            (map key (Writes.set writes) ++ Writes.remove writes) (log db) in
        match ConcurrencyLog.commit id logged with
        | (Ok _, log') => (Ok tt, mk (storageCommit writes (storage db)) log')
        | (Throws error, log') => (Throws error, mk (storage db) log')
        end
    | None => (Ok tt, mk (storageCommit writes (storage db)) (log db))
    end.

(** Modelled from the spec: section 4.C7, [cancel(txId)]. *)
Definition cancel (txId : TxId) : M t unit :=
  fun db =>
    match ConcurrencyLog.cancel txId (log db) with
    | (r, log') => (r, mk (storage db) log')
    end.

#[global] Instance api : TupleDatabaseApi t := {
  db_scan := scan;
  db_commit := commit;
  db_cancel := cancel
}.

(** [new TupleDatabase(new InMemoryTupleStorage())] *)
Definition empty : t := mk [] [].
End TupleDatabase.

(** * The asynchronous family ([database/async/AsyncTupleDatabaseClient.ts]) *)

(** ** Promises *)

(** A promise over the state [S]: settled with a value or an error, or
    pending.  A pending promise is resumed later by the scheduler, in the
    state [s] of that later time: the state becomes [step s] and the
    promise goes on as [next s]. *)
Inductive Promise (S A : Type) : Type :=
| Settled (r : Result A)
| Pending (step : S -> S) (next : S -> Promise S A).
Arguments Settled {S A} r.
Arguments Pending {S A} step next.

(** An [async] method: the call runs up to its first [await] and returns a
    promise; an error thrown on the way rejects the promise. *)
Definition Async (S A : Type) : Type := S -> Promise S A * S.

(** The rest [k] of an [async] body, run when [p] has settled. *)
Fixpoint andThen {S A B : Type} (p : Promise S A) (k : A -> Async S B)
    : Promise S B :=
  match p with
  | Settled (Ok a) =>
      Pending (fun s => snd (k a s)) (fun s => fst (k a s))
  | Settled (Throws error) => Settled (Throws error)
  | Pending step next => Pending step (fun s => andThen (next s) k)
  end.

Definition asyncRet {S A : Type} (a : A) : Async S A :=
  fun s => (Settled (Ok a), s).
Definition asyncThrow {S A : Type} (error : JsError) : Async S A :=
  fun s => (Settled (Throws error), s).
(** A statement of an [async] body that does not suspend. *)
Definition now {S A : Type} (m : M S A) : Async S A :=
  fun s => match m s with (r, s') => (Settled r, s') end.
(** [await e]: [e] is evaluated, the body suspends, and goes on with what
    [e] settles to. *)
Definition await {S A : Type} (e : Async S A) : Async S A :=
  fun s => match e s with (p, s') => (Pending (fun s2 => s2) (fun _ => p), s') end.
Definition asyncBind {S A B : Type} (m : Async S A) (k : A -> Async S B)
    : Async S B :=
  fun s =>
    match m s with
    | (Settled (Ok a), s') => k a s'
    | (p, s') => (andThen p k, s')
    end.

Declare Scope async_scope.
Delimit Scope async_scope with async.
Notation "x <- m ;; k" := (asyncBind m (fun x => k))
  (at level 61, m at next level, right associativity) : async_scope.
Notation "m ;; k" := (asyncBind m (fun _ => k))
  (at level 61, right associativity) : async_scope.

(** The promise of a method of an object held by reference, seen from the
    state [T] that object is a part of. *)
Fixpoint zoom {S T A : Type} (get : T -> S) (put : S -> T -> T)
    (p : Promise S A) : Promise T A :=
  match p with
  | Settled r => Settled r
  | Pending step next =>
      Pending (fun s => put (step (get s)) s) (fun s => zoom get put (next (get s)))
  end.

(** The scheduler with nothing else to run: a pending promise is resumed
    at once, until it settles. *)
Fixpoint settle {S A : Type} (p : Promise S A) (s : S) : Result A * S :=
  match p with
  | Settled r => (r, s)
  | Pending step next => settle (next s) (step s)
  end.

(** Calling an [async] method and awaiting its promise. *)
Definition awaited {S A : Type} (m : Async S A) : M S A :=
  fun s => match m s with (p, s') => settle p s' end.

(** ** The engine interface ([database/async/asyncTypes], [AsyncTupleDatabaseApi]) *)

Class AsyncTupleDatabaseApi (DB : Type) : Type := {
  adb_scan : ScanStorageArgs.t -> option TxId -> Async DB (list KeyValuePair);
  adb_commit : Writes.t -> option TxId -> Async DB unit;
  adb_cancel : TxId -> Async DB unit
}.

(** [db: AsyncTupleDatabaseApi | TupleDatabaseApi]: a synchronous engine
    behind the asynchronous client; its methods return at once. *)
Definition asyncOfSync {DB : Type} (api : TupleDatabaseApi DB)
    : AsyncTupleDatabaseApi DB := {|
  adb_scan := fun args txId => now (db_scan args txId);
  adb_commit := fun writes txId => now (db_commit writes txId);
  adb_cancel := fun txId => now (db_cancel txId)
|}.

(** ** The transaction interface ([AsyncTupleTransactionApi]) *)

Class AsyncTupleTransactionApi (S : Type) : Type := {
  atx_scan : ScanArgs.t -> Async S (list KeyValuePair);
  atx_get : Tuple -> Async S Any;
  atx_exists : Tuple -> Async S bool;
  atx_set : Tuple -> Any -> M S unit;
  atx_remove : Tuple -> M S unit;
  atx_commit : Async S unit;
  atx_cancel : Async S unit
}.

(** ** [class AsyncTupleTransactionSubspace] *)

Module AsyncTupleTransactionSubspace.
Record t : Type := mk { subspacePrefix : Tuple }.

Section Methods.
Context {S : Type} {tx : AsyncTupleTransactionApi S}.
Variable this : t.

Definition scan (args : ScanArgs.t) : Async S (list KeyValuePair) :=
  (let storageScanArgs :=
     normalizeSubspaceScanArgs (subspacePrefix this) args in
   pairs <- await (atx_scan (asScanArgs storageScanArgs)) ;;
   let result :=
     removePrefixFromTupleValuePairs (subspacePrefix this) pairs in
   asyncRet result)%async.

Definition get (tuple : Tuple) : Async S Any :=
  let fullTuple := prependPrefixToTuple (subspacePrefix this) tuple in
  atx_get fullTuple.

Definition exists_ (tuple : Tuple) : Async S bool :=
  let fullTuple := prependPrefixToTuple (subspacePrefix this) tuple in
  atx_exists fullTuple.

Definition set (tuple : Tuple) (v : Any) : M S unit :=
  let fullTuple := prependPrefixToTuple (subspacePrefix this) tuple in
  atx_set fullTuple v.

Definition remove (tuple : Tuple) : M S unit :=
  let fullTuple := prependPrefixToTuple (subspacePrefix this) tuple in
  atx_remove fullTuple.

Definition write (writes : Writes.t) : M S unit :=
  forEach (Writes.remove writes) (fun tuple => remove tuple) ;;
  forEach (Writes.set writes) (fun pair => set (key pair) (value pair)).

Definition commit : Async S unit := atx_commit.

Definition cancel : Async S unit := atx_cancel.

Definition subspace (prefix : Tuple) : t :=
  mk (subspacePrefix this ++ prefix).
End Methods.
End AsyncTupleTransactionSubspace.

(** ** [class AsyncTupleTransaction] *)

Module AsyncTupleTransaction.
Record t : Type := mk {
  subspacePrefix : Tuple;
  id : TxId;
  committed : bool;
  canceled : bool;
  writes : Writes.t
}.

(** [new AsyncTupleTransaction(db, subspacePrefix, id)] *)
Definition new (subspacePrefix : Tuple) (id : TxId) : t :=
  mk subspacePrefix id false false (Writes.mk [] []).

Section Methods.
Context {DB : Type} {api : AsyncTupleDatabaseApi DB}.

Definition State : Type := (t * DB)%type.

Definition this : M State t := gets fst.

(** A call on [this.db]. *)
Definition db {A : Type} (call : Async DB A) : Async State A :=
  fun s =>
    match call (snd s) with
    | (p, d) => (zoom snd (fun d s => (fst s, d)) p, (fst s, d))
    end.

Definition update (f : t -> t) : M State unit :=
  modify (fun s => (f (fst s), snd s)).

Definition checkActive : M State unit :=
  tx <- this ;;
  if committed tx then throw (Error "Transaction already committed")
  else if canceled tx then throw (Error "Transaction already canceled")
  else ret tt.

Definition scan (args : ScanArgs.t) : Async State (list KeyValuePair) :=
  (now checkActive ;;
   tx <- now this ;;
   let storageScanArgs :=
     normalizeSubspaceScanArgs (subspacePrefix tx) args in
   pairs <- await (db (adb_scan storageScanArgs (Some (id tx)))) ;;
   let result :=
     removePrefixFromTupleValuePairs (subspacePrefix tx) pairs in
   tx <- now this ;;
   let sets := tv.scan (Writes.set (writes tx)) storageScanArgs in
   let result :=
     fold_left
       (fun result pair =>
          let tuple :=
            removePrefixFromTuple (subspacePrefix tx) (key pair) in
          tv.set result tuple (value pair))
       sets result in
   let removes := t.scan (Writes.remove (writes tx)) storageScanArgs in
   let result :=
     fold_left
       (fun result fullTuple =>
          let tuple := removePrefixFromTuple (subspacePrefix tx) fullTuple in
          tv.remove result tuple)
       removes result in
   asyncRet result)%async.

Definition get (tuple : Tuple) : Async State Any :=
  (now checkActive ;;
   tx <- now this ;;
   let fullTuple := prependPrefixToTuple (subspacePrefix tx) tuple in
   if tv.exists_ (Writes.set (writes tx)) fullTuple then
     asyncRet (tv.get (Writes.set (writes tx)) fullTuple)
   else if t.exists_ (Writes.remove (writes tx)) fullTuple then
     asyncRet undefined
   else
     items <-
       await (db (adb_scan (pointStorageArgs fullTuple) (Some (id tx)))) ;;
     if List.length items =? 0 then asyncRet undefined
     else if 1 <? List.length items then
       asyncThrow (Error "Get expects only one value.")
     else
       match items with
       | pair0 :: _ => asyncRet (value pair0)
       | [] => asyncRet undefined
       end)%async.

Definition exists_ (tuple : Tuple) : Async State bool :=
  (now checkActive ;;
   tx <- now this ;;
   let fullTuple := prependPrefixToTuple (subspacePrefix tx) tuple in
   if tv.exists_ (Writes.set (writes tx)) fullTuple then asyncRet true
   else if t.exists_ (Writes.remove (writes tx)) fullTuple then
     asyncRet false
   else
     items <-
       await (db (adb_scan (pointStorageArgs fullTuple) (Some (id tx)))) ;;
     if List.length items =? 0 then asyncRet false
     else asyncRet (1 <=? List.length items))%async.

Definition set (tuple : Tuple) (v : Any) : M State unit :=
  checkActive ;;
  tx <- this ;;
  let fullTuple := prependPrefixToTuple (subspacePrefix tx) tuple in
  update (fun tx =>
    mk (subspacePrefix tx) (id tx) (committed tx) (canceled tx)
       (Writes.mk (Writes.set (writes tx))
                  (t.remove (Writes.remove (writes tx)) fullTuple))) ;;
  update (fun tx =>
    mk (subspacePrefix tx) (id tx) (committed tx) (canceled tx)
       (Writes.mk (tv.set (Writes.set (writes tx)) fullTuple v)
                  (Writes.remove (writes tx)))).

Definition remove (tuple : Tuple) : M State unit :=
  checkActive ;;
  tx <- this ;;
  let fullTuple := prependPrefixToTuple (subspacePrefix tx) tuple in
  update (fun tx =>
    mk (subspacePrefix tx) (id tx) (committed tx) (canceled tx)
       (Writes.mk (tv.remove (Writes.set (writes tx)) fullTuple)
                  (Writes.remove (writes tx)))) ;;
  update (fun tx =>
    mk (subspacePrefix tx) (id tx) (committed tx) (canceled tx)
       (Writes.mk (Writes.set (writes tx))
                  (t.set (Writes.remove (writes tx)) fullTuple))).

Definition write (w : Writes.t) : M State unit :=
  checkActive ;;
  forEach (Writes.remove w) (fun tuple => remove tuple) ;;
  forEach (Writes.set w) (fun pair => set (key pair) (value pair)).

Definition commit : Async State unit :=
  (now checkActive ;;
   now (update (fun tx =>
     mk (subspacePrefix tx) (id tx) true (canceled tx) (writes tx))) ;;
   tx <- now this ;;
   db (adb_commit (writes tx) (Some (id tx))))%async.

Definition cancel : Async State unit :=
  (now checkActive ;;
   now (update (fun tx =>
     mk (subspacePrefix tx) (id tx) (committed tx) true (writes tx))) ;;
   tx <- now this ;;
   db (adb_cancel (id tx)))%async.

Definition subspace (prefix : Tuple)
    : M State AsyncTupleTransactionSubspace.t :=
  checkActive ;;
  ret (AsyncTupleTransactionSubspace.mk prefix).

(** [AsyncTupleTransaction implements AsyncTupleTransactionApi] *)
#[global] Instance api_of_transaction : AsyncTupleTransactionApi State := {
  atx_scan := scan;
  atx_get := get;
  atx_exists := exists_;
  atx_set := set;
  atx_remove := remove;
  atx_commit := commit;
  atx_cancel := cancel
}.
End Methods.
End AsyncTupleTransaction.

(** ** [class AsyncTupleDatabaseClient] *)

Module AsyncTupleDatabaseClient.
Record t : Type := mk { subspacePrefix : Tuple }.

Section Methods.
Context {DB : Type} {api : AsyncTupleDatabaseApi DB}.
Variable this : t.

Definition scan (args : ScanArgs.t) (txId : option TxId)
    : Async DB (list KeyValuePair) :=
  (let storageScanArgs :=
     normalizeSubspaceScanArgs (subspacePrefix this) args in
   pairs <- await (adb_scan storageScanArgs txId) ;;
   let result :=
     removePrefixFromTupleValuePairs (subspacePrefix this) pairs in
   asyncRet result)%async.

Definition commit (writes : Writes.t) (txId : option TxId)
    : Async DB unit :=
  (let prefixedWrites :=
     prependPrefixToWrites (subspacePrefix this) writes in
   await (adb_commit prefixedWrites txId) ;;
   asyncRet tt)%async.

Definition cancel (txId : TxId) : Async DB unit := adb_cancel txId.

Definition get (tuple : Tuple) (txId : option TxId)
    : Async DB Any :=
  (items <- await (scan (pointScanArgs tuple) txId) ;;
   if List.length items =? 0 then asyncRet undefined
   else if 1 <? List.length items then
     asyncThrow (Error "Get expects only one value.")
   else
     match items with
     | pair0 :: _ => asyncRet (value pair0)
     | [] => asyncRet undefined
     end)%async.

Definition exists_ (tuple : Tuple) (txId : option TxId) : Async DB bool :=
  (items <- await (scan (pointScanArgs tuple) txId) ;;
   if List.length items =? 0 then asyncRet false
   else asyncRet (1 <=? List.length items))%async.

Definition subspace (prefix : Tuple) : t :=
  let subspacePrefix := subspacePrefix this ++ prefix in
  mk subspacePrefix.

Definition transact (txId : option TxId) (randomId : TxId)
    : AsyncTupleTransaction.t :=
  let id :=
    match txId with
    | Some s => if String.eqb s EmptyString then randomId else s
    | None => randomId
    end in
  AsyncTupleTransaction.new (subspacePrefix this) id.
End Methods.
End AsyncTupleDatabaseClient.

(** * Invariants and vocabulary of the statements *)

(** A sorted array with no two items of the same key: every item is
    strictly below the ones after it, the items read through [keyOf]. *)
Definition sortedBy {A : Type} (keyOf : A -> Tuple) (data : list A) : Prop :=
  StronglySorted (fun x y => compareTuple (keyOf x) (keyOf y) = Lt) data.

(** The order of an item against a key, as the sorted helpers take it. *)
Definition byKey {A : Type} (keyOf : A -> Tuple) (item : A) (k : Tuple)
    : comparison :=
  compareTuple (keyOf item) k.

(** The buffers of a transaction: both sorted, and no tuple in both. *)
Definition disjointWrites (w : Writes.t) : Prop :=
  forall T, ~ (In T (map key (Writes.set w)) /\ In T (Writes.remove w)).

Definition WritesOk (w : Writes.t) : Prop :=
  sortedBy key (Writes.set w)
  /\ sortedBy (fun tuple => tuple) (Writes.remove w)
  /\ disjointWrites w.

(** Neither committed nor canceled. *)
Definition isActive (tx : TupleTransaction.t) : bool :=
  negb (TupleTransaction.committed tx) && negb (TupleTransaction.canceled tx).

(** The error [checkActive] throws on a transaction that is not active. *)
Definition closedError (tx : TupleTransaction.t) : JsError :=
  if TupleTransaction.committed tx then Error "Transaction already committed"
  else Error "Transaction already canceled".

(** A method keeps a property of the state it runs in, whether it returns
    or throws. *)
Definition preserves {S A : Type} (Inv : S -> Prop) (m : M S A) : Prop :=
  forall s, Inv s -> Inv (snd (m s)).

(** A sequence of calls on a transaction and its views, each run whatever
    the one before returned or threw. *)
Definition runCalls {DB : Type} {api : TupleDatabaseApi DB}
    (calls : list (TxObject * TxCall)) (s : @TupleTransaction.State DB)
    : @TupleTransaction.State DB :=
  fold_left (fun s c => snd (invoke (fst c) (snd c) s)) calls s.

(** [set] and [remove] calls as calls of the API. *)
Inductive WriteCall : Type :=
| SetCall (tuple : Tuple) (v : Any)
| RemoveCall (tuple : Tuple).

Definition asCall (c : WriteCall) : TxObject * TxCall :=
  match c with
  | SetCall tuple v => (Root, CallSet tuple v)
  | RemoveCall tuple => (Root, CallRemove tuple)
  end.

(** How often [transactionalQuery] over a client enters the user function:
    the function is run instrumented, its counter starting from 0. *)
Definition invocations {DB : Type} {api : TupleDatabaseApi DB}
    {I U O : Type} (randomId : nat -> TxId) (retries : Z)
    (fn : TxObject -> I -> U -> UserFn U O)
    (client : TupleDatabaseClient.t) (args : I) (w : @World DB U) : nat :=
  snd (user (snd (transactionalQuery randomId retries (counting fn)
                    (IsDb client) args
                    (mkWorld (engine w) (draws w) (user w, 0))))).

(** The engine, client and identifiers of the examples. *)
Definition exampleIds (n : nat) : TxId :=
  String (ascii_of_nat (48 + n)) EmptyString.

Definition exampleClient : TupleDatabaseClient.t := TupleDatabaseClient.mk [].

Definition exampleWorld : @World TupleDatabase.t unit :=
  mkWorld TupleDatabase.empty 0 tt.

(** [fn = () => { throw new ReadWriteConflictError() }] *)
Definition alwaysConflicts (tx : TxObject) (args : unit) (u : unit)
    : UserFn unit unit :=
  Throw u (ReadWriteConflictError "conflict").

(** [fn = () => { throw new Error("boom") }] *)
Definition throwsBoom (tx : TxObject) (args : unit) (u : unit)
    : UserFn unit unit :=
  Throw u (Error "boom").

(** [fn = (tx) => { tx.commit(); throw new Error("boom") }] *)
Definition commitsThenThrows (tx : TxObject) (args : unit) (u : unit)
    : UserFn unit unit :=
  Call tx CallCommit (fun _ => Throw u (Error "boom")).

(** [fn = (tx) => { tx.set(["a"], 1); throw new Error("boom") }] *)
Definition setsThenThrows (tx : TxObject) (args : unit) (u : unit)
    : UserFn unit unit :=
  Call tx (CallSet [VString "a"] (defined (VNumber 1)))
    (fun _ => Throw u (Error "boom")).

(** A committed transaction, and the engine of the conflict scenario of
    the spec: [tx1] has scanned the scores, then another transaction has
    committed a score. *)
Definition committedTx : TupleTransaction.t :=
  TupleTransaction.mk [] "tx0" true false (Writes.mk [] []).

Definition scoreBounds : ScanStorageArgs.t :=
  ScanStorageArgs.mk (Some [VString "score"]) None None
    (Some [VString "score"; VMax]) None.

Definition contendedEngine : TupleDatabase.t :=
  snd (TupleDatabase.commit
         (Writes.mk [mkPair [VString "score"; VString "chet"] (defined (VNumber 5))] [])
         (Some "tx2")
         (snd (TupleDatabase.scan scoreBounds (Some "tx1")
                 TupleDatabase.empty))).

Definition totalTx : TupleTransaction.t :=
  TupleTransaction.mk [] "tx1" false false
    (Writes.mk [mkPair [VString "total"] (defined (VNumber 3))] []).

(** The objects of the asynchronous family read as those of the
    synchronous one: the same fields. *)
Definition syncTransaction (tx : AsyncTupleTransaction.t)
    : TupleTransaction.t :=
  TupleTransaction.mk (AsyncTupleTransaction.subspacePrefix tx)
    (AsyncTupleTransaction.id tx) (AsyncTupleTransaction.committed tx)
    (AsyncTupleTransaction.canceled tx) (AsyncTupleTransaction.writes tx).

Definition syncState {DB : Type} (s : @AsyncTupleTransaction.State DB)
    : @TupleTransaction.State DB :=
  (syncTransaction (fst s), snd s).

Definition syncClient (client : AsyncTupleDatabaseClient.t)
    : TupleDatabaseClient.t :=
  TupleDatabaseClient.mk (AsyncTupleDatabaseClient.subspacePrefix client).

Definition syncView (view : AsyncTupleTransactionSubspace.t)
    : TupleTransactionSubspace.t :=
  TupleTransactionSubspace.mk (AsyncTupleTransactionSubspace.subspacePrefix view).

(** A method of an asynchronous transaction and one of a synchronous
    transaction do the same: from states that read the same, the same
    result (up to [wrap], for a returned object) and states that read the
    same again. *)
Definition sameCall {DB A B : Type} (wrap : A -> B)
    (a : M (@AsyncTupleTransaction.State DB) A)
    (b : M (@TupleTransaction.State DB) B) : Prop :=
  forall s,
    match a s with
    | (Ok x, s') => (Ok (wrap x), syncState s')
    | (Throws error, s') => (Throws error, syncState s')
    end = b (syncState s).

(** The asynchronous engine interface gives, once awaited, what the
    synchronous interface of the same engine gives. *)
Definition sameEngine {DB : Type} (async : AsyncTupleDatabaseApi DB)
    (sync : TupleDatabaseApi DB) : Prop :=
  (forall args txId d, awaited (adb_scan args txId) d = db_scan args txId d)
  /\ (forall writes txId d,
        awaited (adb_commit writes txId) d = db_commit writes txId d)
  /\ (forall txId d, awaited (adb_cancel txId) d = db_cancel txId d).

(** The asynchronous transaction that reads as [totalTx]. *)
Definition asyncTotalTx : AsyncTupleTransaction.t :=
  AsyncTupleTransaction.mk [] "tx1" false false
    (Writes.mk [mkPair [VString "total"] (defined (VNumber 3))] []).

(** An engine that holds one pair, a transaction that has buffered a set
    of another key, and a scan with [limit: 1]. *)
Definition oneRowEngine : TupleDatabase.t :=
  TupleDatabase.mk [mkPair [VString "a"] (defined (VNumber 1))] [].

Definition twoRowEngine : TupleDatabase.t :=
  TupleDatabase.mk
    [mkPair [VString "a"] (defined (VNumber 1)); mkPair [VString "b"] (defined (VNumber 2))] [].

Definition limitOne : ScanArgs.t :=
  ScanArgs.mk None None None None None (Some 1).

(** A property of the transaction object alone. *)
Definition onTransaction {DB : Type} (P : TupleTransaction.t -> Prop)
    (s : @TupleTransaction.State DB) : Prop :=
  P (fst s).

(** The point scan [get] falls back on when the tuple is in neither
    buffer. *)
Definition getFromEngine {DB : Type} {api : TupleDatabaseApi DB}
    (tx : TupleTransaction.t) (fullTuple : Tuple) (d : DB)
    : Result Any * @TupleTransaction.State DB :=
  match db_scan (pointStorageArgs fullTuple)
          (Some (TupleTransaction.id tx)) d with
  | (Ok [], d') => (Ok undefined, (tx, d'))
  | (Ok [pair0], d') => (Ok (value pair0), (tx, d'))
  | (Ok (_ :: _ :: _), d') =>
      (Throws (Error "Get expects only one value."), (tx, d'))
  | (Throws error, d') => (Throws error, (tx, d'))
  end.

(** The overlay of the buffered writes on the result of the engine. *)
Definition overlay (prefix : Tuple) (sets : list KeyValuePair)
    (removes : list Tuple) (result : list KeyValuePair) : list KeyValuePair :=
  fold_left
    (fun result fullTuple =>
       tv.remove result (removePrefixFromTuple prefix fullTuple))
    removes
    (fold_left
       (fun result pair =>
          tv.set result (removePrefixFromTuple prefix (key pair)) (value pair))
       sets result).

(** The user functions of the test "transaction conveniences"
    ([test/talk.test.ts]). *)
Definition scoreOf (pair0 : KeyValuePair) : Z :=
  match value pair0 with
  | defined (VNumber n) => n
  | _ => 0%Z
  end.

(** [updateTotal]: the sum of the scores, written to [["total"]]. *)
Definition updateTotal (tx : TxObject) (u : unit) : UserFn unit unit :=
  Call tx
    (CallScan (ScanArgs.mk (Some [VString "score"]) None None None None None))
    (fun r =>
       match r with
       | Ok (RetPairs result) =>
           let total := fold_left Z.add (map scoreOf result) 0%Z in
           Call tx (CallSet [VString "total"] (defined (VNumber total)))
             (fun _ => Return u tt)
       | Ok _ => Return u tt
       | Throws error => Throw u error
       end).

(** [setScore]: [tx.set(["score", person], score)], then [updateTotal(tx)]
    on the same transaction. *)
Definition setScore (tx : TxObject) (args : string * Z) (u : unit)
    : UserFn unit unit :=
  Call tx (CallSet [VString "score"; VString (fst args)] (defined (VNumber (snd args))))
    (fun r =>
       match r with
       | Ok _ => updateTotal tx u
       | Throws error => Throw u error
       end).

(** The engine after [example1] of that test: three sets, committed
    through a transaction of the asynchronous client. *)
Definition afterExample1 : TupleDatabase.t :=
  snd (snd
    (awaited
       (now (AsyncTupleTransaction.set [VString "score"; VString "chet"]
               (defined (VNumber 1))) ;;
        now (AsyncTupleTransaction.set [VString "score"; VString "meghan"]
               (defined (VNumber 2))) ;;
        now (AsyncTupleTransaction.set [VString "total"] (defined (VNumber 3))) ;;
        await (AsyncTupleTransaction.commit
                 (api := asyncOfSync TupleDatabase.api)))%async
       (AsyncTupleDatabaseClient.transact (AsyncTupleDatabaseClient.mk [])
          None "example1",
        TupleDatabase.empty))).

(** The names of the spec's scenarios, inserted one by one into an empty
    sorted array. *)
Definition scenarioNames : list Tuple :=
  fold_left t.set
    [[VString "jonathan"; VString "smith"]; [VString "chet"; VString "corcos"];
     [VString "jon"; VString "smith"]; [VString "joe"; VString "stevens"];
     [VString "zoe"; VString "brown"]]
    [].

(** ** Calls on an asynchronous transaction, and the promises they leave *)

(** The object an asynchronous method is called on: an
    [AsyncTupleTransaction] or an [AsyncTupleTransactionSubspace] view of
    it. *)
Inductive AsyncTxObject : Type :=
| AsyncRoot
| AsyncView (view : AsyncTupleTransactionSubspace.t).

(** A promise for what resuming it does to the state, its result
    forgotten. *)
Fixpoint forgetResult {S A : Type} (p : Promise S A) : Promise S unit :=
  match p with
  | Settled (Ok _) => Settled (Ok tt)
  | Settled (Throws error) => Settled (Throws error)
  | Pending step next => Pending step (fun s => forgetResult (next s))
  end.

Definition calling {S A : Type} (m : Async S A) : Async S unit :=
  fun s => match m s with (p, s') => (forgetResult p, s') end.

(** A call on an asynchronous transaction or on a view of it: the state
    when the call returns, and the promise it leaves.  A method that is
    not [async] has returned or thrown by then, and leaves a settled
    one. *)
Definition asyncInvoke {DB : Type} {api : AsyncTupleDatabaseApi DB}
    (object : AsyncTxObject) (call : TxCall)
    : Async (@AsyncTupleTransaction.State DB) unit :=
  match object with
  | AsyncRoot =>
      match call with
      | CallScan args => calling (AsyncTupleTransaction.scan args)
      | CallGet tuple => calling (AsyncTupleTransaction.get tuple)
      | CallExists tuple => calling (AsyncTupleTransaction.exists_ tuple)
      | CallSet tuple v => calling (now (AsyncTupleTransaction.set tuple v))
      | CallRemove tuple => calling (now (AsyncTupleTransaction.remove tuple))
      | CallWrite writes => calling (now (AsyncTupleTransaction.write writes))
      | CallCommit => calling AsyncTupleTransaction.commit
      | CallCancel => calling AsyncTupleTransaction.cancel
      | CallSubspace prefix =>
          calling (now (AsyncTupleTransaction.subspace prefix))
      end
  | AsyncView this =>
      match call with
      | CallScan args => calling (AsyncTupleTransactionSubspace.scan this args)
      | CallGet tuple => calling (AsyncTupleTransactionSubspace.get this tuple)
      | CallExists tuple =>
          calling (AsyncTupleTransactionSubspace.exists_ this tuple)
      | CallSet tuple v =>
          calling (now (AsyncTupleTransactionSubspace.set this tuple v))
      | CallRemove tuple =>
          calling (now (AsyncTupleTransactionSubspace.remove this tuple))
      | CallWrite writes =>
          calling (now (AsyncTupleTransactionSubspace.write this writes))
      | CallCommit => calling AsyncTupleTransactionSubspace.commit
      | CallCancel => calling AsyncTupleTransactionSubspace.cancel
      | CallSubspace prefix =>
          calling (asyncRet (AsyncTupleTransactionSubspace.subspace this prefix))
      end
  end.

(** What happens to an asynchronous transaction: the program calls a
    method, or the scheduler resumes one of the promises that are
    pending, in any order. *)
Inductive AsyncEvent : Type :=
| Calls (object : AsyncTxObject) (call : TxCall)
| Resumes (n : nat).

(** The transaction and the engine, and the promises the calls so far
    have left. *)
Record Running (DB : Type) : Type := mkRunning {
  current : AsyncTupleTransaction.t * DB;
  promises : list (Promise (AsyncTupleTransaction.t * DB) unit)
}.

Fixpoint replaceNth {A : Type} (n : nat) (x : A) (items : list A) : list A :=
  match items, n with
  | [], _ => []
  | _ :: rest, O => x :: rest
  | item :: rest, S n' => item :: replaceNth n' x rest
  end.

Definition asyncStep {DB : Type} {api : AsyncTupleDatabaseApi DB}
    (event : AsyncEvent) (r : Running DB) : Running DB :=
  match event with
  | Calls object call =>
      match asyncInvoke object call (current r) with
      | (p, s') => mkRunning s' (promises r ++ [p])
      end
  | Resumes n =>
      match nth_error (promises r) n with
      | Some (Pending step next) =>
          mkRunning (step (current r))
            (replaceNth n (next (current r)) (promises r))
      | _ => r
      end
  end.

Definition asyncRun {DB : Type} {api : AsyncTupleDatabaseApi DB}
    (events : list AsyncEvent) (r : Running DB) : Running DB :=
  fold_left (fun r event => asyncStep event r) events r.

(** A transaction that has just been made: no promise yet. *)
Definition started {DB : Type} (s : AsyncTupleTransaction.t * DB)
    : Running DB :=
  mkRunning s [].

Definition asAsyncCall (c : WriteCall) : AsyncEvent :=
  Calls AsyncRoot (snd (asCall c)).

(** A promise that leaves the transaction as it is whenever it is
    resumed, from whatever state. *)
Fixpoint quiet {DB A : Type} (p : Promise (AsyncTupleTransaction.t * DB) A)
    : Prop :=
  match p with
  | Settled _ => True
  | Pending step next =>
      (forall s, fst (step s) = fst s) /\ (forall s, quiet (next s))
  end.

(** An [async] method, as far as the buffered writes go: the call leaves
    them as they are, and so does the promise it returns. *)
Definition keepsWrites {DB A : Type}
    (m : Async (AsyncTupleTransaction.t * DB) A) : Prop :=
  forall s,
    AsyncTupleTransaction.writes (fst (snd (m s)))
    = AsyncTupleTransaction.writes (fst s)
    /\ quiet (fst (m s)).

(** The buffers of an asynchronous transaction are well formed. *)
Definition asyncWritesOk {DB : Type} (s : AsyncTupleTransaction.t * DB)
    : Prop :=
  WritesOk (AsyncTupleTransaction.writes (fst s)).

(** ** Clients as objects *)

(** The clients a program holds, each at the index it was made at:
    [new TupleDatabaseClient(db, subspacePrefix)] adds one and returns its
    index, and a method called on a client reads the fields of [this] from
    the store.  The program holds no index but those [construct] has
    returned, so that the last case of [field] is not met. *)
Module ClientStore.
Definition t : Type := list TupleDatabaseClient.t.

Definition construct (subspacePrefix : Tuple) : M t nat :=
  fun store =>
    (Ok (List.length store), store ++ [TupleDatabaseClient.mk subspacePrefix]).

Definition field (this : nat) : M t Tuple :=
  fun store =>
    match nth_error store this with
    | Some client => (Ok (TupleDatabaseClient.subspacePrefix client), store)
    | None => (Throws (Error "not an object of the store"), store)
    end.

(** [subspace(prefix)] *)
Definition subspace (this : nat) (prefix : Tuple) : M t nat :=
  thisPrefix <- field this ;;
  let subspacePrefix := thisPrefix ++ prefix in
  construct subspacePrefix.
End ClientStore.

(** * Vocabulary of the further properties *)

(** The state a transaction and its engine are in after the calls
    [before] on a new transaction and its views. *)
Definition stateAfter {DB : Type} {api : TupleDatabaseApi DB}
    (subspacePrefix : Tuple) (id : TxId) (db : DB)
    (before : list (TxObject * TxCall)) : @TupleTransaction.State DB :=
  runCalls before (TupleTransaction.new subspacePrefix id, db).

(** The buffers after [set] and after [remove] of a full tuple, and a
    transaction with other buffers. *)
Definition bufferSet (w : Writes.t) (T : Tuple) (v : Any) : Writes.t :=
  Writes.mk (tv.set (Writes.set w) T v) (t.remove (Writes.remove w) T).

Definition bufferRemove (w : Writes.t) (T : Tuple) : Writes.t :=
  Writes.mk (tv.remove (Writes.set w) T) (t.set (Writes.remove w) T).

Definition withWrites (tx : TupleTransaction.t) (w : Writes.t)
    : TupleTransaction.t :=
  TupleTransaction.mk (TupleTransaction.subspacePrefix tx)
    (TupleTransaction.id tx) (TupleTransaction.committed tx)
    (TupleTransaction.canceled tx) w.

(** What the buffers say of a full tuple: set to a value, removed, or
    nothing. *)
Definition buffered (w : Writes.t) (T : Tuple) : option Any :=
  if tv.exists_ (Writes.set w) T then Some (tv.get (Writes.set w) T)
  else if t.exists_ (Writes.remove w) T then Some undefined
  else None.

(** The buffers after the batch [batch] of [write], under the prefix
    [P]: the removes, then the sets. *)
Definition bufferWrite (P : Tuple) (w batch : Writes.t) : Writes.t :=
  fold_left
    (fun w pair => bufferSet w (prependPrefixToTuple P (key pair)) (value pair))
    (Writes.set batch)
    (fold_left (fun w tuple => bufferRemove w (prependPrefixToTuple P tuple))
       (Writes.remove batch) w).

(** ** An engine that records the calls it gets *)

(** A call of the engine interface. *)
Inductive EngineCall : Type :=
| EngineScan (args : ScanStorageArgs.t) (txId : option TxId)
| EngineCommit (writes : Writes.t) (txId : option TxId)
| EngineCancel (txId : TxId).

(** An engine together with the calls made to it, the latest first. *)
Definition Recorded (DB : Type) : Type := (list EngineCall * DB)%type.

Definition recordCall {DB A : Type} (call : EngineCall) (m : M DB A)
    : M (Recorded DB) A :=
  fun s =>
    match m (snd s) with
    | (r, d) => (r, (call :: fst s, d))
    end.

(** The engine [api] behind a recorder: every call is noted and handed
    on, and what the engine returns or throws is handed back. *)
Definition recording {DB : Type} (api : TupleDatabaseApi DB)
    : TupleDatabaseApi (Recorded DB) := {|
  db_scan := fun args txId =>
    recordCall (EngineScan args txId) (db_scan args txId);
  db_commit := fun writes txId =>
    recordCall (EngineCommit writes txId) (db_commit writes txId);
  db_cancel := fun txId => recordCall (EngineCancel txId) (db_cancel txId)
|}.

(** The transaction id a call carries, and whether the call ends a
    transaction. *)
Definition callTxId (call : EngineCall) : option TxId :=
  match call with
  | EngineScan _ txId => txId
  | EngineCommit _ txId => txId
  | EngineCancel txId => Some txId
  end.

Definition isClosing (call : EngineCall) : bool :=
  match call with
  | EngineScan _ _ => false
  | EngineCommit _ _ => true
  | EngineCancel _ => true
  end.

(** A state over the recorder, without the record. *)
Definition forget {DB : Type} (s : TupleTransaction.t * Recorded DB)
    : TupleTransaction.t * DB :=
  (fst s, snd (snd s)).

(** A method over the recorder does what it does over the engine
    itself. *)
Definition transparent {DB A : Type}
    (a : M (TupleTransaction.t * Recorded DB) A)
    (b : M (TupleTransaction.t * DB) A) : Prop :=
  forall s, (fst (a s), forget (snd (a s))) = b (forget s).

(** What holds of a transaction and the record of its engine: the calls
    carry the id, a closing call is there if and only if the transaction
    is over, and then only one, and a commit carries the buffers. *)
Definition recordOk {DB : Type} (id : TxId) (s : TupleTransaction.t * Recorded DB)
    : Prop :=
  let tx := fst s in
  let log := fst (snd s) in
  TupleTransaction.id tx = id
  /\ (forall call, In call log -> callTxId call = Some id)
  /\ (if isActive tx then filter isClosing log = []
      else List.length (filter isClosing log) = 1)
  /\ (forall w txId,
        In (EngineCommit w txId) log -> w = TupleTransaction.writes tx).


(** ** Values of the examples *)

(** A view of a transaction, a batch that removes and sets the same
    tuple, and a canceled asynchronous transaction. *)
Definition gameView : TupleTransactionSubspace.t :=
  TupleTransactionSubspace.mk [VString "game"].

Definition removeAndSet : Writes.t :=
  Writes.mk [mkPair [VString "a"] (defined (VNumber 1))] [[VString "a"]].

Definition asyncCanceledTx : AsyncTupleTransaction.t :=
  AsyncTupleTransaction.mk [] "tx0" false true (Writes.mk [] []).

(** The tuple a [set] or [remove] call writes, and what the call does to
    the buffers of a transaction of prefix [P]. *)
Definition writeTuple (c : WriteCall) : Tuple :=
  match c with
  | SetCall tuple _ => tuple
  | RemoveCall tuple => tuple
  end.

Definition applyWrite (P : Tuple) (w : Writes.t) (c : WriteCall) : Writes.t :=
  match c with
  | SetCall tuple v => bufferSet w (prependPrefixToTuple P tuple) v
  | RemoveCall tuple => bufferRemove w (prependPrefixToTuple P tuple)
  end.

(** * Properties *)

(** ** The comparator is a strict total order *)

Section LexicographicFacts.
Variable A : Type.
Variable cmp : A -> A -> comparison.

Lemma lexCompare_refl (xs : list A) :
  Forall (fun x => cmp x x = Eq) xs -> lexCompare cmp xs xs = Eq.
Proof.
  induction 1 as [|x xs Hx _ IH]; simpl; [reflexivity|].
  now rewrite Hx.
Qed.

Lemma lexCompare_eq (xs : list A) :
  Forall (fun x => forall y, cmp x y = Eq -> x = y) xs ->
  forall ys, lexCompare cmp xs ys = Eq -> xs = ys.
Proof.
  induction 1 as [|x xs Hx _ IH]; intros [|y ys]; simpl;
    try discriminate; [reflexivity|].
  destruct (cmp x y) eqn:E; try discriminate.
  intros H. apply Hx in E. apply IH in H. now subst.
Qed.

Lemma lexCompare_antisym (xs : list A) :
  Forall (fun x => forall y, cmp y x = CompOpp (cmp x y)) xs ->
  forall ys, lexCompare cmp ys xs = CompOpp (lexCompare cmp xs ys).
Proof.
  induction 1 as [|x xs Hx _ IH]; intros [|y ys]; simpl; try reflexivity.
  rewrite Hx. destruct (cmp x y); simpl; auto.
Qed.

Hypothesis cmp_eq : forall x y, cmp x y = Eq -> x = y.

Lemma lexCompare_trans (xs : list A) :
  Forall (fun x => forall y z, cmp x y = Lt -> cmp y z = Lt -> cmp x z = Lt)
    xs ->
  forall ys zs, lexCompare cmp xs ys = Lt -> lexCompare cmp ys zs = Lt ->
    lexCompare cmp xs zs = Lt.
Proof.
  induction 1 as [|x xs Hx _ IH]; intros [|y ys] [|z zs]; simpl;
    try discriminate; try reflexivity.
  destruct (cmp x y) eqn:Exy; try discriminate.
  - apply cmp_eq in Exy; subst y.
    destruct (cmp x z); try discriminate; eauto.
  - intros _. destruct (cmp y z) eqn:Eyz; try discriminate.
    + apply cmp_eq in Eyz; subst z. now rewrite Exy.
    + intros _. now rewrite (Hx _ _ Exy Eyz).
Qed.
End LexicographicFacts.

Lemma ascii_compare_refl (c : ascii) : Ascii.compare c c = Eq.
Proof. unfold Ascii.compare. apply N.compare_refl. Qed.

Lemma ascii_compare_trans (a b c : ascii) :
  Ascii.compare a b = Lt -> Ascii.compare b c = Lt -> Ascii.compare a c = Lt.
Proof.
  unfold Ascii.compare. rewrite !N.compare_lt_iff. apply N.lt_trans.
Qed.

Lemma string_compare_refl (s : string) : String.compare s s = Eq.
Proof.
  induction s as [|c s IH]; simpl; [reflexivity|].
  now rewrite ascii_compare_refl.
Qed.

Lemma string_compare_trans (a b c : string) :
  String.compare a b = Lt -> String.compare b c = Lt ->
  String.compare a c = Lt.
Proof.
  revert b c. induction a as [|x a IH]; intros [|y b] [|z c]; simpl;
    try discriminate; try reflexivity.
  destruct (Ascii.compare x y) eqn:Exy; try discriminate.
  - apply Ascii.compare_eq_iff in Exy; subst y.
    destruct (Ascii.compare x z); try discriminate; eauto.
  - intros _. destruct (Ascii.compare y z) eqn:Eyz; try discriminate.
    + apply Ascii.compare_eq_iff in Eyz; subst z. now rewrite Exy.
    + intros _. now rewrite (ascii_compare_trans _ _ _ Exy Eyz).
Qed.

Lemma compareValue_refl (v : Value) : compareValue v v = Eq.
Proof.
  induction v using Value_nested_ind; simpl; try reflexivity.
  - apply lexCompare_refl. eapply Forall_impl; [|eassumption].
    intros [k x] Hx. unfold compareEntry; simpl in *.
    now rewrite string_compare_refl.
  - now apply lexCompare_refl.
  - apply Z.compare_refl.
  - apply string_compare_refl.
  - now destruct b.
Qed.

Lemma compareValue_eq (a : Value) :
  forall b, compareValue a b = Eq -> a = b.
Proof.
  induction a using Value_nested_ind; intros [] Hc; simpl in Hc;
    try discriminate; try reflexivity.
  - f_equal. revert Hc. apply lexCompare_eq.
    eapply Forall_impl; [|eassumption].
    intros [k x] Hx [k' y]. unfold compareEntry; simpl in *.
    destruct (String.compare k k') eqn:E; try discriminate.
    intros Hv. apply String.compare_eq_iff in E. apply Hx in Hv. now subst.
  - f_equal. revert Hc. now apply lexCompare_eq.
  - f_equal. now apply Z.compare_eq.
  - f_equal. now apply String.compare_eq_iff.
  - f_equal. now destruct b, b0.
Qed.

Lemma compareValue_antisym (a : Value) :
  forall b, compareValue b a = CompOpp (compareValue a b).
Proof.
  induction a using Value_nested_ind; intros []; simpl; try reflexivity.
  - apply lexCompare_antisym. eapply Forall_impl; [|eassumption].
    intros [k x] Hx [k' y]. unfold compareEntry; simpl in *.
    rewrite (String.compare_antisym k' k).
    destruct (String.compare k k'); simpl; auto.
  - now apply lexCompare_antisym.
  - apply Z.compare_antisym.
  - apply String.compare_antisym.
  - now destruct b, b0.
Qed.

Lemma compareEntry_eq (e1 e2 : string * Value) :
  compareEntry compareValue e1 e2 = Eq -> e1 = e2.
Proof.
  destruct e1 as [k x], e2 as [k' y]. unfold compareEntry; simpl.
  destruct (String.compare k k') eqn:E; try discriminate.
  intros Hv. apply String.compare_eq_iff in E.
  apply compareValue_eq in Hv. now subst.
Qed.

Lemma compareValue_trans (a : Value) :
  forall b c, compareValue a b = Lt -> compareValue b c = Lt ->
    compareValue a c = Lt.
Proof.
  induction a using Value_nested_ind; intros [] []; simpl;
    try discriminate; try reflexivity.
  - apply (@lexCompare_trans _ _ compareEntry_eq).
    eapply Forall_impl; [|eassumption].
    intros [k x] Hx [k' y] [k'' z]. unfold compareEntry; simpl in *.
    destruct (String.compare k k') eqn:E1; try discriminate.
    + apply String.compare_eq_iff in E1; subst k'.
      destruct (String.compare k k''); try discriminate; eauto.
    + intros _. destruct (String.compare k' k'') eqn:E2; try discriminate.
      * apply String.compare_eq_iff in E2; subst k''. now rewrite E1.
      * intros _. now rewrite (string_compare_trans _ _ _ E1 E2).
  - now apply (@lexCompare_trans _ _ compareValue_eq).
  - rewrite !Z.compare_lt_iff. apply Z.lt_trans.
  - apply string_compare_trans.
  - now destruct b, b0, b1.
Qed.

Lemma compareTuple_refl (a : Tuple) : compareTuple a a = Eq.
Proof.
  apply lexCompare_refl, Forall_forall. intros; apply compareValue_refl.
Qed.

Lemma compareTuple_eq (a b : Tuple) : compareTuple a b = Eq -> a = b.
Proof.
  apply lexCompare_eq, Forall_forall. intros x _; apply compareValue_eq.
Qed.

Lemma compareTuple_antisym (a b : Tuple) :
  compareTuple b a = CompOpp (compareTuple a b).
Proof.
  apply lexCompare_antisym, Forall_forall.
  intros x _; apply compareValue_antisym.
Qed.

Lemma compareTuple_trans (a b c : Tuple) :
  compareTuple a b = Lt -> compareTuple b c = Lt -> compareTuple a c = Lt.
Proof.
  apply (@lexCompare_trans _ _ compareValue_eq), Forall_forall.
  intros x _; apply compareValue_trans.
Qed.

(** ** Sorted arrays *)

Section SortedFacts.
Variable A : Type.
Variable keyOf : A -> Tuple.

Local Abbreviation cmp := (byKey keyOf).

Lemma sortedSet_cons (x : A) (data : list A) (k : Tuple) (item : A) :
  sortedSet cmp (x :: data) k item =
  match cmp x k with
  | Lt => x :: sortedSet cmp data k item
  | Eq => item :: data
  | Gt => item :: x :: data
  end.
Proof.
  unfold sortedSet; simpl. destruct (cmp x k); try reflexivity.
  now destruct (binarySearch cmp data k).
Qed.

Lemma sortedRemove_cons (x : A) (data : list A) (k : Tuple) :
  sortedRemove cmp (x :: data) k =
  match cmp x k with
  | Lt => x :: sortedRemove cmp data k
  | Eq => data
  | Gt => x :: data
  end.
Proof.
  unfold sortedRemove; simpl. destruct (cmp x k); try reflexivity.
  now destruct (binarySearch cmp data k).
Qed.

Lemma sortedExists_cons (x : A) (data : list A) (k : Tuple) :
  sortedExists cmp (x :: data) k =
  match cmp x k with
  | Lt => sortedExists cmp data k
  | Eq => true
  | Gt => false
  end.
Proof.
  unfold sortedExists; simpl. destruct (cmp x k); try reflexivity.
  now destruct (binarySearch cmp data k).
Qed.

Lemma sortedGet_cons (x : A) (data : list A) (k : Tuple) :
  sortedGet cmp (x :: data) k =
  match cmp x k with
  | Lt => sortedGet cmp data k
  | Eq => Some x
  | Gt => None
  end.
Proof.
  unfold sortedGet; simpl. destruct (cmp x k); try reflexivity.
  now destruct (binarySearch cmp data k).
Qed.

Lemma sortedSet_In_item (data : list A) (k : Tuple) (item : A) :
  In item (sortedSet cmp data k item).
Proof.
  induction data as [|x data IH]; [now left|].
  rewrite sortedSet_cons. destruct (cmp x k); simpl; auto.
Qed.

Lemma sortedSet_In_inv (data : list A) (k : Tuple) (item y : A) :
  In y (sortedSet cmp data k item) -> y = item \/ In y data.
Proof.
  induction data as [|x data IH].
  - simpl. intuition.
  - rewrite sortedSet_cons. destruct (cmp x k); simpl; intuition.
Qed.

Lemma sortedSet_In_other (data : list A) (k : Tuple) (item y : A) :
  In y data -> keyOf y <> k -> In y (sortedSet cmp data k item).
Proof.
  induction data as [|x data IH]; [contradiction|].
  intros [->|Hy] Hk; rewrite sortedSet_cons.
  - destruct (cmp y k) eqn:E; simpl; auto.
    apply compareTuple_eq in E. contradiction.
  - destruct (cmp x k); simpl; auto.
Qed.

Lemma sortedRemove_In_inv (data : list A) (k : Tuple) (y : A) :
  In y (sortedRemove cmp data k) -> In y data.
Proof.
  induction data as [|x data IH]; [auto|].
  rewrite sortedRemove_cons. destruct (cmp x k); simpl; intuition.
Qed.

Lemma sortedRemove_In_other (data : list A) (k : Tuple) (y : A) :
  In y data -> keyOf y <> k -> In y (sortedRemove cmp data k).
Proof.
  induction data as [|x data IH]; [contradiction|].
  intros [->|Hy] Hk; rewrite sortedRemove_cons.
  - destruct (cmp y k) eqn:E; simpl; auto.
    apply compareTuple_eq in E. contradiction.
  - destruct (cmp x k) eqn:E; simpl; auto.
Qed.

(** Every item behind a head that is not below the key is above it. *)
Lemma sortedBy_above (x : A) (data : list A) (k : Tuple) (y : A) :
  sortedBy keyOf (x :: data) -> cmp x k <> Lt -> In y data -> cmp y k = Gt.
Proof.
  intros Hs Hx Hy. inversion Hs as [|? ? _ Hall]; subst.
  rewrite Forall_forall in Hall. specialize (Hall _ Hy).
  unfold byKey in *.
  destruct (compareTuple (keyOf y) k) eqn:E; try reflexivity; exfalso.
  - apply compareTuple_eq in E. subst k. now apply Hx.
  - apply Hx. eapply compareTuple_trans; eassumption.
Qed.

Lemma sortedRemove_absent (data : list A) (k : Tuple) (y : A) :
  sortedBy keyOf data -> In y (sortedRemove cmp data k) -> keyOf y <> k.
Proof.
  induction data as [|x data IH]; [contradiction|].
  intros Hs. rewrite sortedRemove_cons.
  assert (Htail : sortedBy keyOf data) by now inversion Hs.
  assert (Hself : forall z, keyOf z = k -> cmp z k = Eq)
    by (intros z <-; apply compareTuple_refl).
  destruct (cmp x k) eqn:E.
  - intros Hy Hk.
    assert (Hgt : cmp y k = Gt)
      by (eapply sortedBy_above; [exact Hs|congruence|assumption]).
    rewrite (Hself _ Hk) in Hgt. discriminate.
  - intros [->|Hy]; [|now apply IH].
    intros Hk. rewrite (Hself _ Hk) in E. discriminate.
  - intros [->|Hy] Hk.
    + rewrite (Hself _ Hk) in E. discriminate.
    + assert (Hgt : cmp y k = Gt)
        by (eapply sortedBy_above; [exact Hs|congruence|assumption]).
      rewrite (Hself _ Hk) in Hgt. discriminate.
Qed.

Lemma sortedBy_sortedRemove (data : list A) (k : Tuple) :
  sortedBy keyOf data -> sortedBy keyOf (sortedRemove cmp data k).
Proof.
  induction data as [|x data IH]; intros Hs; [exact Hs|].
  rewrite sortedRemove_cons.
  inversion Hs as [|? ? Htail Hall]; subst.
  destruct (cmp x k); auto.
  constructor; [now apply IH|].
  rewrite Forall_forall in *. intros y Hy.
  apply Hall. now apply sortedRemove_In_inv with (k := k).
Qed.

Lemma sortedBy_sortedSet (data : list A) (k : Tuple) (item : A) :
  keyOf item = k -> sortedBy keyOf data ->
  sortedBy keyOf (sortedSet cmp data k item).
Proof.
  intros <-. induction data as [|x data IH]; intros Hs.
  - repeat constructor.
  - rewrite sortedSet_cons.
    inversion Hs as [|? ? Htail Hall]; subst.
    destruct (cmp x (keyOf item)) eqn:E.
    + apply compareTuple_eq in E.
      constructor; [assumption|]. now rewrite <- E.
    + constructor; [now apply IH|].
      rewrite Forall_forall in *. intros y Hy.
      apply sortedSet_In_inv in Hy as [->|Hy]; auto.
    + assert (Hlt : compareTuple (keyOf item) (keyOf x) = Lt).
      { unfold byKey in E. rewrite compareTuple_antisym, E. reflexivity. }
      constructor; [assumption|]. constructor; [assumption|].
      rewrite Forall_forall in *. intros y Hy.
      eapply compareTuple_trans; eauto.
Qed.

Lemma sortedExists_In (data : list A) (y : A) :
  sortedBy keyOf data -> In y data -> sortedExists cmp data (keyOf y) = true.
Proof.
  induction data as [|x data IH]; [contradiction|].
  intros Hs Hy. rewrite sortedExists_cons.
  destruct (cmp x (keyOf y)) eqn:E; try reflexivity.
  - destruct Hy as [->|Hy].
    + unfold byKey in E. now rewrite compareTuple_refl in E.
    + apply IH; [now inversion Hs|assumption].
  - destruct Hy as [->|Hy].
    + unfold byKey in E. now rewrite compareTuple_refl in E.
    + assert (Hgt : cmp y (keyOf y) = Gt)
        by (eapply sortedBy_above; [exact Hs|congruence|assumption]).
      unfold byKey in Hgt. now rewrite compareTuple_refl in Hgt.
Qed.

Lemma sortedExists_inv (data : list A) (k : Tuple) :
  sortedExists cmp data k = true -> exists y, In y data /\ keyOf y = k.
Proof.
  induction data as [|x data IH]; [discriminate|].
  rewrite sortedExists_cons. destruct (cmp x k) eqn:E; try discriminate.
  - intros _. exists x. split; [now left|]. now apply compareTuple_eq.
  - intros H. destruct (IH H) as (y & Hy & Hk). exists y. split; [now right|auto].
Qed.

Lemma sortedGet_In (data : list A) (y : A) :
  sortedBy keyOf data -> In y data -> sortedGet cmp data (keyOf y) = Some y.
Proof.
  induction data as [|x data IH]; [contradiction|].
  intros Hs Hy. rewrite sortedGet_cons.
  destruct (cmp x (keyOf y)) eqn:E.
  - destruct Hy as [->|Hy]; [reflexivity|].
    assert (Hgt : cmp y (keyOf y) = Gt)
      by (eapply sortedBy_above; [exact Hs|congruence|assumption]).
    unfold byKey in Hgt. now rewrite compareTuple_refl in Hgt.
  - destruct Hy as [->|Hy].
    + unfold byKey in E. now rewrite compareTuple_refl in E.
    + apply IH; [now inversion Hs|assumption].
  - destruct Hy as [->|Hy].
    + unfold byKey in E. now rewrite compareTuple_refl in E.
    + assert (Hgt : cmp y (keyOf y) = Gt)
        by (eapply sortedBy_above; [exact Hs|congruence|assumption]).
      unfold byKey in Hgt. now rewrite compareTuple_refl in Hgt.
Qed.
End SortedFacts.

(** The helpers of the two arrays, as instances of the above. *)
Lemma tv_set_byKey (data : list KeyValuePair) (T : Tuple) (v : Any) :
  tv.set data T v = sortedSet (byKey key) data T (mkPair T v).
Proof. reflexivity. Qed.

Lemma tv_remove_byKey (data : list KeyValuePair) (T : Tuple) :
  tv.remove data T = sortedRemove (byKey key) data T.
Proof. reflexivity. Qed.

Lemma tv_exists_byKey (data : list KeyValuePair) (T : Tuple) :
  tv.exists_ data T = sortedExists (byKey key) data T.
Proof. reflexivity. Qed.

Lemma tv_get_byKey (data : list KeyValuePair) (T : Tuple) :
  tv.get data T
  = match sortedGet (byKey key) data T with
    | Some pair0 => value pair0
    | None => undefined
    end.
Proof. reflexivity. Qed.

Lemma t_set_byKey (data : list Tuple) (T : Tuple) :
  t.set data T = sortedSet (byKey (fun tuple => tuple)) data T T.
Proof. reflexivity. Qed.

Lemma t_remove_byKey (data : list Tuple) (T : Tuple) :
  t.remove data T = sortedRemove (byKey (fun tuple => tuple)) data T.
Proof. reflexivity. Qed.

Lemma t_exists_byKey (data : list Tuple) (T : Tuple) :
  t.exists_ data T = sortedExists (byKey (fun tuple => tuple)) data T.
Proof. reflexivity. Qed.

(** ** The helpers on the scenarios of the spec *)

Example binarySearch_boundaries :
  let search := binarySearch Z.compare [0; 1; 2; 3; 4; 5]%Z in
  search (-1)%Z = closest 0 /\ search 10%Z = closest 6
  /\ search 5%Z = found 5 /\ search 2%Z = found 2.
Proof. repeat split. Qed.

Example tuples_sort_element_wise :
  scenarioNames
  = [[VString "chet"; VString "corcos"]; [VString "joe"; VString "stevens"];
     [VString "jon"; VString "smith"]; [VString "jonathan"; VString "smith"];
     [VString "zoe"; VString "brown"]].
Proof. reflexivity. Qed.

Example range_scan_j_to_k :
  t.scan scenarioNames
    (ScanStorageArgs.mk None (Some [VString "j"]) (Some [VString "k"]) None None)
  = [[VString "joe"; VString "stevens"]; [VString "jon"; VString "smith"];
     [VString "jonathan"; VString "smith"]].
Proof. reflexivity. Qed.

(** The conflict scenario: [tx1] has scanned the scores, [tx2] has
    committed a score since, and the commit of [tx1] is refused. *)
Example concurrency_conflict :
  fst (TupleDatabase.commit
         (Writes.mk [mkPair [VString "total"] (defined (VNumber 3))] []) (Some "tx1")
         contendedEngine)
  = Throws (ReadWriteConflictError "tx1").
Proof. reflexivity. Qed.

(** ** Methods and what they keep *)

Section Preservation.
Variables S : Type.
Variable Inv : S -> Prop.

Lemma preserves_ret (A : Type) (a : A) : preserves Inv (ret a).
Proof. intros s Hs; exact Hs. Qed.

Lemma preserves_throw (A : Type) (e : JsError) :
  preserves Inv (throw e : M S A).
Proof. intros s Hs; exact Hs. Qed.

Lemma preserves_gets (A : Type) (f : S -> A) : preserves Inv (gets f).
Proof. intros s Hs; exact Hs. Qed.

Lemma preserves_bind (A B : Type) (m : M S A) (k : A -> M S B) :
  preserves Inv m -> (forall a, preserves Inv (k a)) ->
  preserves Inv (bind m k).
Proof.
  intros Hm Hk s Hs. unfold bind. specialize (Hm s Hs).
  destruct (m s) as [[a|e] s']; simpl in *; [now apply Hk|assumption].
Qed.

Lemma preserves_forEach (A : Type) (items : list A) (body : A -> M S unit) :
  (forall x, preserves Inv (body x)) -> preserves Inv (forEach items body).
Proof.
  intros Hb. induction items as [|x items IH]; simpl.
  - apply preserves_ret.
  - apply preserves_bind; auto.
Qed.

Lemma preserves_if (A : Type) (b : bool) (m1 m2 : M S A) :
  preserves Inv m1 -> preserves Inv m2 ->
  preserves Inv (if b then m1 else m2).
Proof. now destruct b. Qed.
End Preservation.

Create HintDb preserves.
#[local] Hint Resolve preserves_ret preserves_throw preserves_gets
  preserves_bind preserves_forEach preserves_if : preserves.

Section TransactionFacts.
Context {DB : Type} {api : TupleDatabaseApi DB}.

Lemma preserves_db (P : TupleTransaction.t -> Prop) (A : Type)
    (call : M DB A) :
  preserves (onTransaction P) (TupleTransaction.db call).
Proof.
  intros [tx d] Hs. unfold TupleTransaction.db; simpl.
  now destruct (call d).
Qed.

Lemma preserves_update (P : TupleTransaction.t -> Prop)
    (f : TupleTransaction.t -> TupleTransaction.t) :
  (forall tx, P tx -> P (f tx)) ->
  preserves (onTransaction P) (TupleTransaction.update (DB := DB) f).
Proof. intros Hf [tx d] Hs. now apply Hf. Qed.

Lemma preserves_checkActive (P : TupleTransaction.t -> Prop) :
  preserves (onTransaction P) (TupleTransaction.checkActive (DB := DB)).
Proof.
  unfold TupleTransaction.checkActive, TupleTransaction.this.
  apply preserves_bind; [apply preserves_gets|].
  intros tx. repeat apply preserves_if;
    auto using preserves_throw, preserves_ret.
Qed.

#[local] Hint Resolve preserves_db preserves_update preserves_checkActive
  : preserves.

(** *** The buffers stay well formed *)

Abbreviation writesOk :=
  (onTransaction (fun tx => WritesOk (TupleTransaction.writes tx))).

Lemma WritesOk_set (w : Writes.t) (T : Tuple) (v : Any) :
  WritesOk w ->
  WritesOk (Writes.mk (tv.set (Writes.set w) T v)
                      (t.remove (Writes.remove w) T)).
Proof.
  intros (Hset & Hrem & Hdis). rewrite tv_set_byKey, t_remove_byKey.
  repeat split; simpl.
  - now apply sortedBy_sortedSet.
  - now apply sortedBy_sortedRemove.
  - intros X [Hin Hout]. apply in_map_iff in Hin as (p & <- & Hp).
    apply sortedSet_In_inv in Hp as [->|Hp]; simpl in *.
    + now apply (sortedRemove_absent _ Hrem) in Hout.
    + apply (Hdis (key p)). split; [now apply in_map|].
      now apply sortedRemove_In_inv in Hout.
Qed.

Lemma WritesOk_remove (w : Writes.t) (T : Tuple) :
  WritesOk w ->
  WritesOk (Writes.mk (tv.remove (Writes.set w) T)
                      (t.set (Writes.remove w) T)).
Proof.
  intros (Hset & Hrem & Hdis). rewrite tv_remove_byKey, t_set_byKey.
  repeat split; simpl.
  - now apply sortedBy_sortedRemove.
  - now apply sortedBy_sortedSet.
  - intros X [Hin Hout]. apply in_map_iff in Hin as (p & <- & Hp).
    apply sortedSet_In_inv in Hout as [Heq|Hout].
    + now apply (sortedRemove_absent _ Hset) in Hp.
    + apply (Hdis (key p)). split; [|assumption].
      apply in_map. now apply sortedRemove_In_inv in Hp.
Qed.

Lemma WritesOk_new (P : Tuple) (id : TxId) :
  WritesOk (TupleTransaction.writes (TupleTransaction.new P id)).
Proof.
  repeat split; simpl; try constructor. intros T [[] _].
Qed.

(** One step of the proof that a method keeps a property: the method is a
    chain of binds over the primitives. *)
Ltac preserve_step :=
  first
    [ apply preserves_ret | apply preserves_throw | apply preserves_gets
    | apply preserves_db | apply preserves_checkActive
    | apply preserves_bind; [|intro]
    | apply preserves_forEach; intro
    | apply preserves_if
    | match goal with
      | |- preserves _ (match ?l with [] => _ | _ :: _ => _ end) => destruct l
      end ].

(** What [set] and [remove] do, in one equation each. *)
Lemma set_unfold (tuple : Tuple) (v : Any) (tx : TupleTransaction.t)
    (d : DB) :
  TupleTransaction.set tuple v (tx, d) =
  if isActive tx then
    let fullTuple :=
      prependPrefixToTuple (TupleTransaction.subspacePrefix tx) tuple in
    (Ok tt,
     (TupleTransaction.mk (TupleTransaction.subspacePrefix tx)
        (TupleTransaction.id tx) (TupleTransaction.committed tx)
        (TupleTransaction.canceled tx)
        (Writes.mk
           (tv.set (Writes.set (TupleTransaction.writes tx)) fullTuple v)
           (t.remove (Writes.remove (TupleTransaction.writes tx)) fullTuple)),
      d))
  else (Throws (closedError tx), (tx, d)).
Proof.
  unfold isActive, closedError. destruct tx as [P i c x w].
  now destruct c, x.
Qed.

Lemma remove_unfold (tuple : Tuple) (tx : TupleTransaction.t) (d : DB) :
  TupleTransaction.remove tuple (tx, d) =
  if isActive tx then
    let fullTuple :=
      prependPrefixToTuple (TupleTransaction.subspacePrefix tx) tuple in
    (Ok tt,
     (TupleTransaction.mk (TupleTransaction.subspacePrefix tx)
        (TupleTransaction.id tx) (TupleTransaction.committed tx)
        (TupleTransaction.canceled tx)
        (Writes.mk
           (tv.remove (Writes.set (TupleTransaction.writes tx)) fullTuple)
           (t.set (Writes.remove (TupleTransaction.writes tx)) fullTuple)),
      d))
  else (Throws (closedError tx), (tx, d)).
Proof.
  unfold isActive, closedError. destruct tx as [P i c x w].
  now destruct c, x.
Qed.

Lemma writesOk_set (tuple : Tuple) (v : Any) :
  preserves writesOk (TupleTransaction.set (DB := DB) tuple v).
Proof.
  intros [tx d] Hs. rewrite set_unfold.
  destruct (isActive tx); [|exact Hs]. now apply WritesOk_set.
Qed.

Lemma writesOk_remove (tuple : Tuple) :
  preserves writesOk (TupleTransaction.remove (DB := DB) tuple).
Proof.
  intros [tx d] Hs. rewrite remove_unfold.
  destruct (isActive tx); [|exact Hs]. now apply WritesOk_remove.
Qed.

Lemma writesOk_write (w : Writes.t) :
  preserves writesOk (TupleTransaction.write (DB := DB) w).
Proof.
  unfold TupleTransaction.write.
  apply preserves_bind; [apply preserves_checkActive|intros _].
  apply preserves_bind; [|intros _];
    apply preserves_forEach; intro;
    [apply writesOk_remove|apply writesOk_set].
Qed.

Lemma writesOk_scan (args : ScanArgs.t) :
  preserves writesOk (TupleTransaction.scan args).
Proof.
  unfold TupleTransaction.scan, TupleTransaction.this; cbv zeta.
  repeat preserve_step.
Qed.

Lemma writesOk_get (tuple : Tuple) :
  preserves writesOk (TupleTransaction.get tuple).
Proof.
  unfold TupleTransaction.get, TupleTransaction.this; cbv zeta.
  repeat preserve_step.
Qed.

Lemma writesOk_exists (tuple : Tuple) :
  preserves writesOk (TupleTransaction.exists_ tuple).
Proof.
  unfold TupleTransaction.exists_, TupleTransaction.this; cbv zeta.
  repeat preserve_step.
Qed.

Lemma writesOk_commit : preserves writesOk TupleTransaction.commit.
Proof.
  unfold TupleTransaction.commit, TupleTransaction.this.
  repeat preserve_step. apply preserves_update. auto.
Qed.

Lemma writesOk_cancel : preserves writesOk TupleTransaction.cancel.
Proof.
  unfold TupleTransaction.cancel, TupleTransaction.this.
  repeat preserve_step. apply preserves_update. auto.
Qed.

Lemma writesOk_subspace (prefix : Tuple) :
  preserves writesOk (TupleTransaction.subspace (DB := DB) prefix).
Proof. unfold TupleTransaction.subspace. repeat preserve_step. Qed.

Lemma writesOk_invoke (object : TxObject) (call : TxCall) :
  preserves writesOk (invoke object call).
Proof.
  destruct object as [|view], call; unfold invoke, returning;
    (first [ apply preserves_ret
           | apply preserves_bind; [|intro; apply preserves_ret] ]);
    unfold TupleTransactionSubspace.scan, TupleTransactionSubspace.get,
      TupleTransactionSubspace.exists_, TupleTransactionSubspace.set,
      TupleTransactionSubspace.remove, TupleTransactionSubspace.write,
      TupleTransactionSubspace.commit, TupleTransactionSubspace.cancel,
      TupleTransactionSubspace.set, TupleTransactionSubspace.remove;
    cbv zeta; simpl;
    repeat first
      [ apply writesOk_scan | apply writesOk_get | apply writesOk_exists
      | apply writesOk_set | apply writesOk_remove | apply writesOk_write
      | apply writesOk_commit | apply writesOk_cancel
      | apply writesOk_subspace | preserve_step ].
Qed.

Lemma writesOk_runCalls (calls : list (TxObject * TxCall))
    (s : @TupleTransaction.State DB) :
  writesOk s -> writesOk (runCalls calls s).
Proof.
  revert s. induction calls as [|c calls IH]; intros s Hs; simpl; auto.
  apply IH. now apply writesOk_invoke.
Qed.

(** *** Closed transactions *)

Lemma isActive_false_iff (tx : TupleTransaction.t) :
  isActive tx = false <->
  TupleTransaction.committed tx = true \/ TupleTransaction.canceled tx = true.
Proof.
  unfold isActive. destruct (TupleTransaction.committed tx),
    (TupleTransaction.canceled tx); simpl; intuition discriminate.
Qed.

Lemma checkActive_closed (tx : TupleTransaction.t) (d : DB) :
  isActive tx = false ->
  TupleTransaction.checkActive (tx, d) = (Throws (closedError tx), (tx, d)).
Proof.
  unfold isActive, closedError. destruct tx as [P i c x w]; simpl.
  destruct c, x; try discriminate; reflexivity.
Qed.

Lemma checkActive_active (tx : TupleTransaction.t) (d : DB) :
  isActive tx = true -> TupleTransaction.checkActive (tx, d) = (Ok tt, (tx, d)).
Proof.
  unfold isActive. destruct tx as [P i c x w]; simpl.
  destruct c, x; try discriminate; reflexivity.
Qed.

(** A method that starts with [this.checkActive()] throws on a closed
    transaction and leaves everything as it was. *)
Lemma guarded_closed (A : Type)
    (rest : unit -> M (@TupleTransaction.State DB) A)
    (tx : TupleTransaction.t) (d : DB) :
  isActive tx = false ->
  bind TupleTransaction.checkActive rest (tx, d)
  = (Throws (closedError tx), (tx, d)).
Proof. intros H. unfold bind. now rewrite checkActive_closed. Qed.

Lemma guarded_active (A : Type)
    (rest : unit -> M (@TupleTransaction.State DB) A)
    (tx : TupleTransaction.t) (d : DB) :
  isActive tx = true ->
  bind TupleTransaction.checkActive rest (tx, d) = rest tt (tx, d).
Proof. intros H. unfold bind. now rewrite checkActive_active. Qed.

(** C6. On a transaction that has been committed or canceled, every
    method of the transaction throws the error of [checkActive], and
    neither the transaction (its buffered writes included) nor the engine
    changes.  A second [commit] or [cancel] is the case of the last two
    lines. *)
Theorem closed_transaction_rejects_every_call (tx : TupleTransaction.t)
    (d : DB) :
  TupleTransaction.committed tx = true \/ TupleTransaction.canceled tx = true ->
  let rejected (A : Type) (m : M (@TupleTransaction.State DB) A) :=
    m (tx, d) = (Throws (closedError tx), (tx, d)) in
  (forall args, rejected _ (TupleTransaction.scan args))
  /\ (forall tuple, rejected _ (TupleTransaction.get tuple))
  /\ (forall tuple, rejected _ (TupleTransaction.exists_ tuple))
  /\ (forall tuple v, rejected _ (TupleTransaction.set tuple v))
  /\ (forall tuple, rejected _ (TupleTransaction.remove tuple))
  /\ (forall writes, rejected _ (TupleTransaction.write writes))
  /\ (forall prefix, rejected _ (TupleTransaction.subspace prefix))
  /\ rejected _ TupleTransaction.commit
  /\ rejected _ TupleTransaction.cancel.
Proof.
  intros H rejected. apply isActive_false_iff in H. unfold rejected.
  repeat split; intros; now apply guarded_closed.
Qed.

(** *** [commit] and [cancel] close the transaction first *)

Lemma commit_unfold (tx : TupleTransaction.t) (d : DB) :
  isActive tx = true ->
  TupleTransaction.commit (tx, d) =
  let tx' :=
    TupleTransaction.mk (TupleTransaction.subspacePrefix tx)
      (TupleTransaction.id tx) true (TupleTransaction.canceled tx)
      (TupleTransaction.writes tx) in
  match db_commit (TupleTransaction.writes tx)
          (Some (TupleTransaction.id tx)) d with
  | (r, d') => (r, (tx', d'))
  end.
Proof.
  intros H. unfold TupleTransaction.commit. rewrite guarded_active by exact H.
  unfold bind, TupleTransaction.update, TupleTransaction.this,
    TupleTransaction.db, modify, gets; simpl.
  now destruct (db_commit _ _ d) as [[|] d'].
Qed.

Lemma cancel_unfold (tx : TupleTransaction.t) (d : DB) :
  isActive tx = true ->
  TupleTransaction.cancel (tx, d) =
  let tx' :=
    TupleTransaction.mk (TupleTransaction.subspacePrefix tx)
      (TupleTransaction.id tx) (TupleTransaction.committed tx) true
      (TupleTransaction.writes tx) in
  match db_cancel (TupleTransaction.id tx) d with
  | (r, d') => (r, (tx', d'))
  end.
Proof.
  intros H. unfold TupleTransaction.cancel. rewrite guarded_active by exact H.
  unfold bind, TupleTransaction.update, TupleTransaction.this,
    TupleTransaction.db, modify, gets; simpl.
  now destruct (db_cancel _ d) as [[|] d'].
Qed.

(** After [cancel], returned or thrown, the transaction is not active. *)
Lemma cancel_leaves_closed (s : @TupleTransaction.State DB) :
  isActive (fst (snd (TupleTransaction.cancel s))) = false.
Proof.
  destruct s as [tx d]. destruct (isActive tx) eqn:H.
  - rewrite cancel_unfold by exact H. destruct (db_cancel _ d) as [r d']; simpl.
    unfold isActive; simpl. apply andb_false_r.
  - unfold TupleTransaction.cancel. now rewrite guarded_closed.
Qed.

Lemma commit_leaves_closed (s : @TupleTransaction.State DB) :
  isActive (fst (snd (TupleTransaction.commit s))) = false.
Proof.
  destruct s as [tx d]. destruct (isActive tx) eqn:H.
  - rewrite commit_unfold by exact H. destruct (db_commit _ _ d) as [r d']; simpl.
    reflexivity.
  - unfold TupleTransaction.commit. now rewrite guarded_closed.
Qed.

(** *** [get] *)

Lemma get_unfold (tuple : Tuple) (tx : TupleTransaction.t) (d : DB) :
  isActive tx = true ->
  TupleTransaction.get tuple (tx, d) =
  let fullTuple :=
    prependPrefixToTuple (TupleTransaction.subspacePrefix tx) tuple in
  if tv.exists_ (Writes.set (TupleTransaction.writes tx)) fullTuple then
    (Ok (tv.get (Writes.set (TupleTransaction.writes tx)) fullTuple), (tx, d))
  else if t.exists_ (Writes.remove (TupleTransaction.writes tx)) fullTuple then
    (Ok undefined, (tx, d))
  else getFromEngine tx fullTuple d.
Proof.
  intros H. unfold TupleTransaction.get. rewrite guarded_active by exact H.
  unfold bind at 1. unfold TupleTransaction.this at 1, gets. cbv zeta.
  destruct (tv.exists_ _ _); [reflexivity|].
  destruct (t.exists_ _ _); [reflexivity|].
  unfold getFromEngine, bind, TupleTransaction.db; simpl.
  destruct (db_scan _ _ d) as [[[|p [|q items]]|e] d']; reflexivity.
Qed.

(** [get] on an active transaction whose buffers are well formed. *)
Lemma get_on_well_formed_buffers (tx : TupleTransaction.t) (d : DB)
    (tuple : Tuple) :
  isActive tx = true ->
  WritesOk (TupleTransaction.writes tx) ->
  let fullTuple :=
    prependPrefixToTuple (TupleTransaction.subspacePrefix tx) tuple in
  let w := TupleTransaction.writes tx in
  (forall v, In (mkPair fullTuple v) (Writes.set w) ->
     TupleTransaction.get tuple (tx, d) = (Ok v, (tx, d)))
  /\ (In fullTuple (Writes.remove w) ->
     TupleTransaction.get tuple (tx, d) = (Ok undefined, (tx, d)))
  /\ (~ In fullTuple (map key (Writes.set w)) ->
      ~ In fullTuple (Writes.remove w) ->
     TupleTransaction.get tuple (tx, d) =
     match db_scan (ScanStorageArgs.mk None (Some fullTuple) None
                      (Some fullTuple) None)
             (Some (TupleTransaction.id tx)) d with
     | (Ok [], d') => (Ok undefined, (tx, d'))
     | (Ok [pair0], d') => (Ok (value pair0), (tx, d'))
     | (Ok (_ :: _ :: _), d') =>
         (Throws (Error "Get expects only one value."), (tx, d'))
     | (Throws error, d') => (Throws error, (tx, d'))
     end).
Proof.
  intros Hactive (Hset & Hrem & Hdis) fullTuple w.
  rewrite get_unfold by exact Hactive. cbv zeta.
  change (prependPrefixToTuple (TupleTransaction.subspacePrefix tx) tuple)
    with fullTuple.
  change (TupleTransaction.writes tx) with w in Hset, Hrem, Hdis |- *.
  assert (Hnotset : ~ In fullTuple (map key (Writes.set w)) ->
                    tv.exists_ (Writes.set w) fullTuple = false).
  { intros Hn. rewrite tv_exists_byKey.
    destruct (sortedExists _ _ _) eqn:E; [|reflexivity].
    apply sortedExists_inv in E as (p & Hp & Hk). exfalso. apply Hn.
    rewrite <- Hk. now apply in_map. }
  repeat split.
  - intros v Hin.
    assert (E1 : tv.exists_ (Writes.set w) fullTuple = true)
      by exact (sortedExists_In (mkPair fullTuple v) Hset Hin).
    assert (E2 : tv.get (Writes.set w) fullTuple = v).
    { rewrite tv_get_byKey.
      assert (E : sortedGet (byKey key) (Writes.set w) fullTuple
                  = Some (mkPair fullTuple v))
        by exact (sortedGet_In (mkPair fullTuple v) Hset Hin).
      now rewrite E. }
    now rewrite E1, E2.
  - intros Hin. rewrite Hnotset.
    + assert (E1 : t.exists_ (Writes.remove w) fullTuple = true)
        by exact (sortedExists_In fullTuple Hrem Hin).
      now rewrite E1.
    + intros Hn. now apply (Hdis fullTuple).
  - intros Hn1 Hn2. rewrite (Hnotset Hn1).
    assert (Hnotrem : t.exists_ (Writes.remove w) fullTuple = false).
    { rewrite t_exists_byKey.
      destruct (sortedExists _ _ _) eqn:E; [|reflexivity].
      apply sortedExists_inv in E as (p & Hp & Hk). now subst p. }
    rewrite Hnotrem. reflexivity.
Qed.

(** C7. [get] on an active transaction, in any state its API can bring
    it to, [fullTuple] being the tuple under the transaction's subspace
    prefix: a buffered set answers with its value, a buffered remove with
    [undefined], both without a call to the engine; otherwise the engine is
    scanned at the single point [{gte: fullTuple, lte: fullTuple}] under
    the transaction's id, and the answer is [undefined] for no pair, the
    value of the pair for one, and the error "Get expects only one value."
    for more. *)
Theorem get_reads_buffers_then_engine (subspacePrefix : Tuple) (id : TxId)
    (db : DB) (before : list (TxObject * TxCall)) (tuple : Tuple) :
  let s := runCalls before (TupleTransaction.new subspacePrefix id, db) in
  let tx := fst s in
  let d := snd s in
  isActive tx = true ->
  let fullTuple :=
    prependPrefixToTuple (TupleTransaction.subspacePrefix tx) tuple in
  let w := TupleTransaction.writes tx in
  (forall v, In (mkPair fullTuple v) (Writes.set w) ->
     TupleTransaction.get tuple (tx, d) = (Ok v, (tx, d)))
  /\ (In fullTuple (Writes.remove w) ->
     TupleTransaction.get tuple (tx, d) = (Ok undefined, (tx, d)))
  /\ (~ In fullTuple (map key (Writes.set w)) ->
      ~ In fullTuple (Writes.remove w) ->
     TupleTransaction.get tuple (tx, d) =
     match db_scan (ScanStorageArgs.mk None (Some fullTuple) None
                      (Some fullTuple) None)
             (Some (TupleTransaction.id tx)) d with
     | (Ok [], d') => (Ok undefined, (tx, d'))
     | (Ok [pair0], d') => (Ok (value pair0), (tx, d'))
     | (Ok (_ :: _ :: _), d') =>
         (Throws (Error "Get expects only one value."), (tx, d'))
     | (Throws error, d') => (Throws error, (tx, d'))
     end).
Proof.
  intros s tx d Hactive.
  apply get_on_well_formed_buffers; [exact Hactive|].
  apply (writesOk_runCalls before), WritesOk_new.
Qed.

(** *** [scan] *)

Lemma scan_unfold (args : ScanArgs.t) (tx : TupleTransaction.t) (d : DB) :
  isActive tx = true ->
  TupleTransaction.scan args (tx, d) =
  let prefix := TupleTransaction.subspacePrefix tx in
  let storageScanArgs := normalizeSubspaceScanArgs prefix args in
  match db_scan storageScanArgs (Some (TupleTransaction.id tx)) d with
  | (Ok pairs, d') =>
      (Ok (overlay prefix
             (tv.scan (Writes.set (TupleTransaction.writes tx)) storageScanArgs)
             (t.scan (Writes.remove (TupleTransaction.writes tx))
                storageScanArgs)
             (removePrefixFromTupleValuePairs prefix pairs)),
       (tx, d'))
  | (Throws error, d') => (Throws error, (tx, d'))
  end.
Proof.
  intros H. unfold TupleTransaction.scan. rewrite guarded_active by exact H.
  unfold bind, TupleTransaction.this, TupleTransaction.db, gets; simpl.
  now destruct (db_scan _ _ d) as [[pairs|error] d'].
Qed.

(** The overlay keeps a sorted result sorted. *)
Lemma overlay_sorted (prefix : Tuple) (sets : list KeyValuePair)
    (removes : list Tuple) (result : list KeyValuePair) :
  sortedBy key result -> sortedBy key (overlay prefix sets removes result).
Proof.
  unfold overlay. revert result.
  assert (Hsets : forall l result, sortedBy key result ->
            sortedBy key
              (fold_left
                 (fun result pair =>
                    tv.set result (removePrefixFromTuple prefix (key pair))
                      (value pair)) l result)).
  { induction l as [|p l IH]; intros result Hs; simpl; auto.
    apply IH. rewrite tv_set_byKey. now apply sortedBy_sortedSet. }
  assert (Hremoves : forall l result, sortedBy key result ->
            sortedBy key
              (fold_left
                 (fun result fullTuple =>
                    tv.remove result (removePrefixFromTuple prefix fullTuple))
                 l result)).
  { induction l as [|p l IH]; intros result Hs; simpl; auto.
    apply IH. rewrite tv_remove_byKey. now apply sortedBy_sortedRemove. }
  intros result Hs. apply Hremoves, Hsets, Hs.
Qed.

End TransactionFacts.


(** ** The retry loop *)

Section RetryFacts.
Variables W O : Type.
Variable fn : M W O.

(** One turn of the loop. *)
Lemma retry_step (retries : Z) (w : W) :
  retry retries fn w =
  match fn w with
  | (Ok result, w') => (Ok result, w')
  | (Throws error, w') =>
      if (retries <=? 0)%Z then (Throws error, w')
      else if isConflict error then retry (retries - 1) fn w'
      else (Throws error, w')
  end.
Proof.
  funelim (retry retries fn w);
    match goal with H : fn w = _ |- _ => rewrite H end;
    try reflexivity;
    destruct (Z.leb_spec retries 0); try lia; try reflexivity;
    match goal with H : isConflict _ = _ |- _ => rewrite H end;
    reflexivity.
Qed.

(** A thrown error that is not a conflict leaves the loop at once. *)
Lemma retry_rethrows (retries : Z) (w w' : W) (error : JsError) :
  fn w = (Throws error, w') -> isConflict error = false ->
  retry retries fn w = (Throws error, w').
Proof.
  intros Hfn Hc. rewrite retry_step, Hfn, Hc. now destruct (retries <=? 0)%Z.
Qed.

Lemma retry_again (retries : Z) (w w' : W) (error : JsError) :
  fn w = (Throws error, w') -> isConflict error = true -> (0 < retries)%Z ->
  retry retries fn w = retry (retries - 1) fn w'.
Proof.
  intros Hfn Hc Hr. rewrite retry_step, Hfn, Hc.
  destruct (Z.leb_spec retries 0); [lia|reflexivity].
Qed.

Lemma retry_exhausted (retries : Z) (w w' : W) (error : JsError) :
  fn w = (Throws error, w') -> (retries <= 0)%Z ->
  retry retries fn w = (Throws error, w').
Proof.
  intros Hfn Hr. rewrite retry_step, Hfn.
  destruct (Z.leb_spec retries 0); [reflexivity|lia].
Qed.

(** Counting the calls of [fn]: [count] is any reading of the state that
    every call of [fn] moves up by one. *)
Variable count : W -> nat.
Hypothesis count_call : forall w, count (snd (fn w)) = S (count w).

Lemma retry_calls_at_most (retries : Z) (w : W) :
  count (snd (retry retries fn w)) <= count w + S (Z.to_nat retries).
Proof.
  remember (Z.to_nat retries) as n eqn:Hn. revert retries w Hn.
  induction n as [|n IH]; intros retries w Hn; rewrite retry_step;
    specialize (count_call w); destruct (fn w) as [[result|error] w'];
    simpl in *; try lia.
  - destruct (Z.leb_spec retries 0); simpl; lia.
  - destruct (Z.leb_spec retries 0); simpl; [lia|].
    destruct (isConflict error); simpl; [|lia].
    specialize (IH (retries - 1)%Z w'). lia.
Qed.

Hypothesis always_conflict :
  forall w, exists error, fst (fn w) = Throws error /\ isConflict error = true.

Lemma retry_calls_exactly (retries : Z) (w : W) :
  count (snd (retry retries fn w)) = count w + S (Z.to_nat retries)
  /\ exists error,
       fst (retry retries fn w) = Throws error /\ isConflict error = true.
Proof.
  remember (Z.to_nat retries) as n eqn:Hn. revert retries w Hn.
  induction n as [|n IH]; intros retries w Hn; rewrite retry_step;
    specialize (count_call w);
    destruct (always_conflict w) as (error & Hfn & Hc);
    destruct (fn w) as [r w']; simpl in *; subst r; rewrite Hc.
  - destruct (Z.leb_spec retries 0); [|lia]. simpl. split; [lia|eauto].
  - destruct (Z.leb_spec retries 0); [lia|].
    destruct (IH (retries - 1)%Z w') as [Hcount Herr]; [lia|].
    split; [lia|exact Herr].
Qed.
End RetryFacts.

(** ** [transactionalQuery] over a client *)

Section UserFnFacts.
Context {DB : Type} {api : TupleDatabaseApi DB}.

Lemma runUserFn_withCount (U O : Type) (n : nat) (f : UserFn U O)
    (s : @TupleTransaction.State DB) :
  runUserFn (withCount n f) s =
  match runUserFn f s with
  | ((u, r), s') => (((u, n), r), s')
  end.
Proof.
  revert s. induction f as [u result|u error|object call k IH]; intros s;
    simpl; try reflexivity.
  destruct (invoke object call s) as [r s']. apply IH.
Qed.

Variables I U O : Type.
Variable randomId : nat -> TxId.

(** The closure handed to [retry] leaves the user function's state as the
    one call of the function left it. *)
Lemma attemptBody_user (fn : TxObject -> I -> U -> UserFn U O) (args : I)
    (s : @TupleTransaction.State DB) (u : U) :
  snd (snd (attemptBody fn args (s, u)))
  = fst (fst (runUserFn (fn Root args u) s)).
Proof.
  unfold attemptBody, bind, tryCatch, callFn, onTx, throw, ret; simpl.
  destruct (runUserFn (fn Root args u) s) as [[u' [result|error]] s1]; simpl.
  - now destruct (TupleTransaction.commit s1) as [[|] s2].
  - now destruct (TupleTransaction.cancel s1) as [[|] s2].
Qed.

Lemma attempt_user (client : TupleDatabaseClient.t)
    (fn : TxObject -> I -> U -> UserFn U O) (args : I) (w : @World DB U) :
  user (snd (attempt randomId client fn args w))
  = fst (fst (runUserFn (fn Root args (user w))
                (TupleDatabaseClient.transact client None
                   (randomId (draws w)), engine w))).
Proof.
  unfold attempt, attemptWithTx.
  rewrite <- attemptBody_user.
  now destruct (attemptBody fn args _) as [r [[tx' db'] u']].
Qed.
End UserFnFacts.

Section TransactionalQueryFacts.
Context {DB : Type} {api : TupleDatabaseApi DB}.
Variables I U O : Type.
Variable randomId : nat -> TxId.

(** C3. Over a client, an attempt that throws is tried again only when
    the error is a [ReadWriteConflictError] (and retries are left); an
    error of any other kind is what [transactionalQuery] throws, with the
    engine and the user function's state as that one attempt left them. *)
Theorem retries_only_read_write_conflicts (retries : Z)
    (fn : TxObject -> I -> U -> UserFn U O) (client : TupleDatabaseClient.t)
    (args : I) (w w' : @World DB U) (error : JsError) :
  attempt randomId client fn args w = (Throws error, w') ->
  (isConflict error = false ->
     transactionalQuery randomId retries fn (IsDb client) args w
     = ((Throws error, IsDb client), w'))
  /\ (isConflict error = true -> (0 < retries)%Z ->
     transactionalQuery randomId retries fn (IsDb client) args w
     = transactionalQuery randomId (retries - 1) fn (IsDb client) args w')
  /\ (isConflict error = true -> (retries <= 0)%Z ->
     transactionalQuery randomId retries fn (IsDb client) args w
     = ((Throws error, IsDb client), w')).
Proof.
  intros Hattempt. unfold transactionalQuery. repeat split.
  - intros Hc. erewrite retry_rethrows;
      [reflexivity|exact Hattempt|exact Hc].
  - intros Hc Hr. erewrite retry_again;
      [reflexivity|exact Hattempt|exact Hc|exact Hr].
  - intros _ Hr. erewrite retry_exhausted;
      [reflexivity|exact Hattempt|exact Hr].
Qed.

Lemma counting_attempt_counts (fn : TxObject -> I -> U -> UserFn U O)
    (client : TupleDatabaseClient.t) (args : I) (w : @World DB (U * nat)) :
  snd (user (snd (attempt randomId client (counting fn) args w)))
  = S (snd (user w)).
Proof.
  rewrite attempt_user. unfold counting. rewrite runUserFn_withCount.
  now destruct (runUserFn _ _) as [[u r] s'].
Qed.

(** The number of times the user function is entered, for any number of
    retries: at most one more than the retries, and exactly that when
    every attempt throws a conflict. *)
Lemma retries_bound_attempts (retries : Z)
    (fn : TxObject -> I -> U -> UserFn U O) (client : TupleDatabaseClient.t)
    (args : I) (w : @World DB U) :
  invocations randomId retries fn client args w <= S (Z.to_nat retries)
  /\ ((forall w1, exists error,
         fst (attempt randomId client (counting fn) args w1) = Throws error
         /\ isConflict error = true) ->
      invocations randomId retries fn client args w = S (Z.to_nat retries)
      /\ exists error,
           fst (fst (transactionalQuery randomId retries (counting fn)
                       (IsDb client) args
                       (mkWorld (engine w) (draws w) (user w, 0))))
           = Throws error
           /\ isConflict error = true).
Proof.
  unfold invocations, transactionalQuery.
  set (w0 := mkWorld (engine w) (draws w) (user w, 0)).
  set (count := fun w1 : @World DB (U * nat) => snd (user w1)).
  assert (Hcall : forall w1,
            count (snd (attempt randomId client (counting fn) args w1))
            = S (count w1))
    by (intros w1; apply counting_attempt_counts).
  split.
  - pose proof (@retry_calls_at_most _ _ _ count Hcall retries w0) as H.
    destruct (retry _ _ w0) as [r w1]. simpl in *. exact H.
  - intros Hfail.
    destruct (@retry_calls_exactly _ _ _ count Hcall Hfail retries w0)
      as [Hn (error & Herr & Hc)].
    destruct (retry _ _ w0) as [r w1]. simpl in *.
    split; [exact Hn|]. exists error. now split.
Qed.

(** C2, as the code has it. With the default [retries = 5] the user
    function is entered at most 6 times, the first attempt and five
    retries; when every attempt throws a [ReadWriteConflictError] it is
    entered exactly 6 times, and a [ReadWriteConflictError] is what the
    caller gets. *)
Theorem default_retries_bound_attempts
    (fn : TxObject -> I -> U -> UserFn U O) (client : TupleDatabaseClient.t)
    (args : I) (w : @World DB U) :
  invocations randomId defaultRetries fn client args w <= 6
  /\ ((forall w1, exists error,
         fst (attempt randomId client (counting fn) args w1) = Throws error
         /\ isConflict error = true) ->
      invocations randomId defaultRetries fn client args w = 6
      /\ exists error,
           fst (fst (transactionalQuery randomId defaultRetries (counting fn)
                       (IsDb client) args
                       (mkWorld (engine w) (draws w) (user w, 0))))
           = Throws error
           /\ isConflict error = true).
Proof. exact (retries_bound_attempts defaultRetries fn client args w). Qed.

(** The transaction of an attempt is closed when the attempt is over,
    whatever the user function did and however the attempt ended. *)
Lemma attempt_leaves_closed (fn : TxObject -> I -> U -> UserFn U O)
    (client : TupleDatabaseClient.t) (args : I) (w : @World DB U) :
  isActive (snd (fst (attemptWithTx randomId client fn args w))) = false.
Proof.
  unfold attemptWithTx, attemptBody, bind, tryCatch, callFn, onTx, throw, ret.
  simpl.
  destruct (runUserFn _ _) as [[u' [result|error]] s1]; simpl.
  - pose proof (commit_leaves_closed s1) as H.
    destruct (TupleTransaction.commit s1) as [[|] [tx2 d2]]; exact H.
  - pose proof (cancel_leaves_closed s1) as H.
    destruct (TupleTransaction.cancel s1) as [[|] [tx2 d2]]; exact H.
Qed.

(** What the wrapper does when the user function throws on a transaction
    it has closed itself: [tx.cancel()] throws the error of [checkActive],
    and that error goes up in place of the function's. *)
Lemma failed_attempt_on_closed_transaction
    (fn : TxObject -> I -> U -> UserFn U O) (client : TupleDatabaseClient.t)
    (args : I) (w : @World DB U) (u : U) (error : JsError)
    (tx1 : TupleTransaction.t) (d1 : DB) :
  runUserFn (fn Root args (user w))
    (TupleDatabaseClient.transact client None (randomId (draws w)), engine w)
  = ((u, Throws error), (tx1, d1)) ->
  isActive tx1 = false ->
  attemptWithTx randomId client fn args w
  = ((Throws (closedError tx1), tx1), mkWorld d1 (S (draws w)) u).
Proof.
  intros Hrun Hclosed.
  unfold attemptWithTx, attemptBody, bind, tryCatch, callFn, onTx,
    throw, ret. simpl. rewrite Hrun. simpl.
  unfold TupleTransaction.cancel. rewrite guarded_closed by exact Hclosed.
  reflexivity.
Qed.

(** C8, as the code has it. When the user function throws and has left
    its transaction active, the wrapper's [tx.cancel()] marks the
    transaction canceled and calls the engine's [cancel] with its id, and
    then the function's error is thrown again (the error of the engine's
    [cancel], should that call throw).  Whatever the function did to the
    transaction before it threw, the transaction is not active after the
    failed attempt. *)
Theorem failed_attempt_cancels_transaction
    (fn : TxObject -> I -> U -> UserFn U O) (client : TupleDatabaseClient.t)
    (args : I) (w : @World DB U) (u : U) (error : JsError)
    (tx1 : TupleTransaction.t) (d1 : DB) :
  runUserFn (fn Root args (user w))
    (TupleDatabaseClient.transact client None (randomId (draws w)), engine w)
  = ((u, Throws error), (tx1, d1)) ->
  let out := attemptWithTx randomId client fn args w in
  isActive (snd (fst out)) = false
  /\ (isActive tx1 = true ->
      snd (fst out)
      = TupleTransaction.mk (TupleTransaction.subspacePrefix tx1)
          (TupleTransaction.id tx1) false true (TupleTransaction.writes tx1)
      /\ engine (snd out) = snd (db_cancel (TupleTransaction.id tx1) d1)
      /\ fst (fst out)
         = match fst (db_cancel (TupleTransaction.id tx1) d1) with
           | Ok _ => Throws error
           | Throws error' => Throws error'
           end).
Proof.
  intros Hrun out. split; [apply attempt_leaves_closed|].
  unfold out, attemptWithTx, attemptBody, bind, tryCatch, callFn, onTx,
    throw, ret. simpl. rewrite Hrun. simpl. intros Hactive.
  rewrite cancel_unfold by exact Hactive. cbv zeta.
  assert (Hc : TupleTransaction.committed tx1 = false).
  { unfold isActive in Hactive.
    now destruct (TupleTransaction.committed tx1). }
  rewrite Hc.
  destruct (db_cancel _ d1) as [[[]|error'] d2]; simpl; auto.
Qed.
End TransactionalQueryFacts.

(** ** The theorems at concrete inputs *)

Lemma closed_transaction_rejects_every_call_witness :
  (TupleTransaction.committed committedTx = true
   \/ TupleTransaction.canceled committedTx = true)
  /\ TupleTransaction.commit (committedTx, TupleDatabase.empty)
     = (Throws (Error "Transaction already committed"),
        (committedTx, TupleDatabase.empty))
  /\ TupleTransaction.cancel (committedTx, TupleDatabase.empty)
     = (Throws (Error "Transaction already committed"),
        (committedTx, TupleDatabase.empty)).
Proof.
  split; [left; reflexivity|].
  pose proof (@closed_transaction_rejects_every_call _ _
                committedTx TupleDatabase.empty (or_introl eq_refl)) as H.
  cbv zeta in H. split; apply H.
Defined.

Lemma get_reads_buffers_then_engine_witness :
  let s :=
    runCalls [(Root, CallSet [VString "total"] (defined (VNumber 3)))]
      (TupleTransaction.new [] "tx1", contendedEngine) in
  isActive (fst s) = true
  /\ TupleTransaction.get [VString "total"] s
     = (Ok (defined (VNumber 3)), (totalTx, contendedEngine)).
Proof.
  cbv zeta. split; [reflexivity|].
  destruct (@get_reads_buffers_then_engine _ _ [] "tx1" contendedEngine
              [(Root, CallSet [VString "total"] (defined (VNumber 3)))]
              [VString "total"] eq_refl) as (Hset & _).
  apply (Hset (defined (VNumber 3))). left. reflexivity.
Defined.

Lemma retries_only_read_write_conflicts_witness :
  attempt exampleIds exampleClient throwsBoom tt exampleWorld
  = (Throws (Error "boom"), mkWorld TupleDatabase.empty 1 tt)
  /\ transactionalQuery exampleIds defaultRetries throwsBoom
       (IsDb exampleClient) tt exampleWorld
     = ((Throws (Error "boom"), IsDb exampleClient),
        mkWorld TupleDatabase.empty 1 tt).
Proof.
  assert (Hattempt :
            attempt exampleIds exampleClient throwsBoom tt exampleWorld
            = (Throws (Error "boom"), mkWorld TupleDatabase.empty 1 tt))
    by reflexivity.
  split; [exact Hattempt|].
  destruct (@retries_only_read_write_conflicts _ _ _ _ _ exampleIds
              defaultRetries throwsBoom exampleClient tt exampleWorld
              (mkWorld TupleDatabase.empty 1 tt) (Error "boom") Hattempt)
    as (Hrethrown & _).
  apply Hrethrown. reflexivity.
Defined.

(** C2, as the spec has it, fails: a function that always throws a
    [ReadWriteConflictError] is entered 6 times, not at most 5. *)
Lemma default_retries_enter_six_times :
  invocations exampleIds defaultRetries alwaysConflicts exampleClient tt
    exampleWorld = 6
  /\ ~ (invocations exampleIds defaultRetries alwaysConflicts exampleClient tt
          exampleWorld <= 5).
Proof.
  assert (H : invocations exampleIds defaultRetries alwaysConflicts
                exampleClient tt exampleWorld = 6) by (vm_compute; reflexivity).
  split; [exact H|]. rewrite H. lia.
Qed.

Lemma default_retries_bound_attempts_witness :
  (forall w1, exists error,
     fst (attempt exampleIds exampleClient (counting alwaysConflicts) tt w1)
     = Throws error /\ isConflict error = true)
  /\ invocations exampleIds defaultRetries alwaysConflicts exampleClient tt
       exampleWorld = 6.
Proof.
  assert (Hfail : forall w1 : @World TupleDatabase.t (unit * nat),
            exists error,
              fst (attempt exampleIds exampleClient
                     (counting alwaysConflicts) tt w1) = Throws error
              /\ isConflict error = true).
  { intros [d n u]. exists (ReadWriteConflictError "conflict").
    split; reflexivity. }
  split; [exact Hfail|].
  destruct (@default_retries_bound_attempts _ _ _ _ _ exampleIds
              alwaysConflicts exampleClient tt exampleWorld) as (_ & Hexact).
  apply Hexact. exact Hfail.
Defined.

(** C8, as the spec has it, fails: a function that commits its
    transaction and then throws "boom" makes the wrapper's [tx.cancel()]
    throw; the transaction is not canceled, the engine's [cancel] is not
    called, and the error that goes up is not "boom". *)
Lemma cancel_of_closed_transaction_masks_error :
  let tx := TupleDatabaseClient.transact exampleClient None (exampleIds 0) in
  let out := attemptWithTx exampleIds exampleClient commitsThenThrows tt
               exampleWorld in
  snd (fst (runUserFn (commitsThenThrows Root tt tt)
              (tx, TupleDatabase.empty)))
  = Throws (Error "boom")
  /\ fst (fst out) = Throws (Error "Transaction already committed")
  /\ fst (fst out) <> Throws (Error "boom")
  /\ TupleTransaction.canceled (snd (fst out)) = false.
Proof.
  cbv zeta. repeat split. discriminate.
Qed.

Lemma failed_attempt_cancels_transaction_witness :
  let tx := TupleDatabaseClient.transact exampleClient None (exampleIds 0) in
  let out := attemptWithTx exampleIds exampleClient setsThenThrows tt
               exampleWorld in
  snd (fst (runUserFn (setsThenThrows Root tt tt) (tx, TupleDatabase.empty)))
  = Throws (Error "boom")
  /\ isActive (snd (fst out)) = false
  /\ TupleTransaction.canceled (snd (fst out)) = true
  /\ fst (fst out) = Throws (Error "boom").
Proof.
  cbv zeta.
  assert (Hrun :
            runUserFn (setsThenThrows Root tt (user exampleWorld))
              (TupleDatabaseClient.transact exampleClient None
                 (exampleIds (draws exampleWorld)), engine exampleWorld)
            = ((tt, Throws (Error "boom")),
               (TupleTransaction.mk [] (exampleIds 0) false false
                  (Writes.mk [mkPair [VString "a"] (defined (VNumber 1))] []),
                TupleDatabase.empty)))
    by reflexivity.
  pose proof (@failed_attempt_cancels_transaction _ _ _ _ _ exampleIds
                setsThenThrows exampleClient tt exampleWorld tt (Error "boom")
                _ _ Hrun) as H.
  cbv zeta in H. destruct H as (Hclosed & Hactive).
  destruct (Hactive eq_refl) as (Htx & _ & Herr).
  split; [reflexivity|]. split; [exact Hclosed|].
  split; [rewrite Htx; reflexivity|rewrite Herr; reflexivity].
Defined.

(** C1, at inputs where the code breaks it.  With [{key: ["a"], value:
    1}] stored, [tx.set(["b"], 2)] followed by [tx.scan({limit: 1})]
    returns two pairs: the storage scan is cut to the limit, the buffered
    set is added, and nothing cuts the result again.  With ["a"] and
    ["b"] stored, [tx.remove(["a"])] followed by [tx.scan({limit: 1})]
    returns no pair, although ["b"] is in range and within the limit. *)
Theorem scan_does_not_reapply_limit :
  let tx := TupleDatabaseClient.transact exampleClient None "tx" in
  fst ((TupleTransaction.set [VString "b"] (defined (VNumber 2)) ;;
        TupleTransaction.scan limitOne) (tx, oneRowEngine))
  = Ok [mkPair [VString "a"] (defined (VNumber 1)); mkPair [VString "b"] (defined (VNumber 2))]
  /\ fst ((TupleTransaction.remove [VString "a"] ;;
           TupleTransaction.scan limitOne) (tx, twoRowEngine))
     = Ok [].
Proof. split; reflexivity. Qed.

(** ** The asynchronous family does what the synchronous one does *)

Section PromiseFacts.
Variables S : Type.

Lemma settle_andThen (A B : Type) (p : Promise S A) (k : A -> Async S B)
    (s : S) :
  settle (andThen p k) s =
  match settle p s with
  | (Ok a, s1) => awaited (k a) s1
  | (Throws error, s1) => (Throws error, s1)
  end.
Proof.
  revert s. induction p as [[a|error]|step next IH]; intros s; simpl.
  - unfold awaited. now destruct (k a s).
  - reflexivity.
  - apply IH.
Qed.

(** Awaiting turns the binds of an [async] body into the binds of the
    synchronous one. *)
Lemma awaited_bind (A B : Type) (m : Async S A) (k : A -> Async S B) (s : S) :
  awaited (asyncBind m k) s = bind (awaited m) (fun a => awaited (k a)) s.
Proof.
  unfold awaited at 1 2, asyncBind, bind.
  destruct (m s) as [[[a|error]|step next] s']; simpl; try reflexivity.
  apply settle_andThen.
Qed.

Lemma awaited_now (A : Type) (m : M S A) (s : S) : awaited (now m) s = m s.
Proof. unfold awaited, now. now destruct (m s). Qed.

Lemma awaited_await (A : Type) (e : Async S A) (s : S) :
  awaited (await e) s = awaited e s.
Proof. unfold awaited, await. now destruct (e s). Qed.

Lemma awaited_ret (A : Type) (a : A) (s : S) :
  awaited (asyncRet a) s = ret a s.
Proof. reflexivity. Qed.

Lemma awaited_throw (A : Type) (error : JsError) (s : S) :
  awaited (asyncThrow error : Async S A) s = throw error s.
Proof. reflexivity. Qed.

End PromiseFacts.

Section AsyncFacts.
Context {DB : Type}.
Context {async : AsyncTupleDatabaseApi DB} {sync : TupleDatabaseApi DB}.
Hypothesis same : sameEngine async sync.

Lemma settle_zoom_db (A : Type) (p : Promise DB A)
    (tx : AsyncTupleTransaction.t) (d : DB) :
  settle (zoom snd (fun d s => (fst s, d)) p) (tx, d) =
  match settle p d with
  | (r, d') => (r, (tx, d'))
  end.
Proof.
  revert d. induction p as [r|step next IH]; intros d; simpl;
    [reflexivity|apply IH].
Qed.

Lemma awaited_db (A : Type) (call : Async DB A)
    (tx : AsyncTupleTransaction.t) (d : DB) :
  awaited (AsyncTupleTransaction.db call) (tx, d) =
  match awaited call d with
  | (r, d') => (r, (tx, d'))
  end.
Proof.
  unfold awaited, AsyncTupleTransaction.db; simpl.
  destruct (call d) as [p d1]. apply settle_zoom_db.
Qed.

(** *** Building [sameCall] along the body of a method *)

Lemma sameCall_bind (A A' B B' : Type) (f : A -> A') (g : B -> B')
    (a : M (@AsyncTupleTransaction.State DB) A)
    (b : M (@TupleTransaction.State DB) A')
    (ka : A -> M (@AsyncTupleTransaction.State DB) B)
    (kb : A' -> M (@TupleTransaction.State DB) B') :
  sameCall f a b -> (forall x, sameCall g (ka x) (kb (f x))) ->
  sameCall g (bind a ka) (bind b kb).
Proof.
  intros Hab Hk s. unfold bind. specialize (Hab s).
  destruct (a s) as [[x|error] s1]; rewrite <- Hab; [apply Hk|reflexivity].
Qed.

Lemma sameCall_ret (A B : Type) (f : A -> B) (x : A) :
  sameCall (DB := DB) f (ret x) (ret (f x)).
Proof. intros s; reflexivity. Qed.

Lemma sameCall_throw (A B : Type) (f : A -> B) (error : JsError) :
  sameCall (DB := DB) f (throw error) (throw error).
Proof. intros s; reflexivity. Qed.

Lemma sameCall_if (A B : Type) (f : A -> B) (c : bool)
    (a1 a2 : M (@AsyncTupleTransaction.State DB) A)
    (b1 b2 : M (@TupleTransaction.State DB) B) :
  sameCall f a1 b1 -> sameCall f a2 b2 ->
  sameCall f (if c then a1 else a2) (if c then b1 else b2).
Proof. now destruct c. Qed.

Lemma sameCall_forEach (A : Type) (items : list A)
    (a : A -> M (@AsyncTupleTransaction.State DB) unit)
    (b : A -> M (@TupleTransaction.State DB) unit) :
  (forall x, sameCall (fun u => u) (a x) (b x)) ->
  sameCall (fun u => u) (forEach items a) (forEach items b).
Proof.
  intros H. induction items as [|x items IH]; simpl.
  - apply sameCall_ret.
  - apply sameCall_bind with (f := fun u => u); auto.
Qed.

Lemma sameCall_this :
  sameCall (DB := DB) syncTransaction AsyncTupleTransaction.this
    TupleTransaction.this.
Proof. intros s; reflexivity. Qed.

Lemma sameCall_checkActive :
  sameCall (DB := DB) (fun u => u) AsyncTupleTransaction.checkActive
    TupleTransaction.checkActive.
Proof. intros [[P i [] [] w] d]; reflexivity. Qed.

Lemma sameCall_update (f : AsyncTupleTransaction.t -> AsyncTupleTransaction.t)
    (g : TupleTransaction.t -> TupleTransaction.t) :
  (forall tx, syncTransaction (f tx) = g (syncTransaction tx)) ->
  sameCall (DB := DB) (fun u => u) (AsyncTupleTransaction.update f)
    (TupleTransaction.update g).
Proof.
  intros H [tx d]. unfold AsyncTupleTransaction.update,
    TupleTransaction.update, modify, syncState; simpl. now rewrite H.
Qed.

(** The steps of an [async] body, awaited. *)
Lemma sameCall_asyncBind (A A' B B' : Type) (f : A -> A') (g : B -> B')
    (a : Async (@AsyncTupleTransaction.State DB) A)
    (b : M (@TupleTransaction.State DB) A')
    (ka : A -> Async (@AsyncTupleTransaction.State DB) B)
    (kb : A' -> M (@TupleTransaction.State DB) B') :
  sameCall f (awaited a) b ->
  (forall x, sameCall g (awaited (ka x)) (kb (f x))) ->
  sameCall g (awaited (asyncBind a ka)) (bind b kb).
Proof.
  intros Hab Hk s. rewrite awaited_bind.
  now apply (sameCall_bind (f := f) (g := g)).
Qed.

Lemma sameCall_now (A B : Type) (f : A -> B)
    (a : M (@AsyncTupleTransaction.State DB) A)
    (b : M (@TupleTransaction.State DB) B) :
  sameCall f a b -> sameCall f (awaited (now a)) b.
Proof. intros H s. rewrite awaited_now. apply H. Qed.

Lemma sameCall_await (A B : Type) (f : A -> B)
    (a : Async (@AsyncTupleTransaction.State DB) A)
    (b : M (@TupleTransaction.State DB) B) :
  sameCall f (awaited a) b -> sameCall f (awaited (await a)) b.
Proof. intros H s. rewrite awaited_await. apply H. Qed.

Lemma sameCall_asyncRet (A B : Type) (f : A -> B) (x : A) :
  sameCall (DB := DB) f (awaited (asyncRet x)) (ret (f x)).
Proof. intros s; reflexivity. Qed.

Lemma sameCall_asyncThrow (A B : Type) (f : A -> B) (error : JsError) :
  sameCall (DB := DB) f (awaited (asyncThrow error)) (throw error).
Proof. intros s; reflexivity. Qed.

Lemma sameCall_asyncIf (A B : Type) (f : A -> B) (c : bool)
    (a1 a2 : Async (@AsyncTupleTransaction.State DB) A)
    (b1 b2 : M (@TupleTransaction.State DB) B) :
  sameCall f (awaited a1) b1 -> sameCall f (awaited a2) b2 ->
  sameCall f (awaited (if c then a1 else a2)) (if c then b1 else b2).
Proof. now destruct c. Qed.

(** A call on [this.db]: the engine is the same, and the transaction is
    not touched. *)
Lemma sameCall_db (A : Type) (call : Async DB A) (call' : M DB A) :
  (forall d, awaited call d = call' d) ->
  sameCall (fun r => r) (awaited (AsyncTupleTransaction.db call))
    (TupleTransaction.db call').
Proof.
  intros H [tx d]. rewrite awaited_db, H.
  unfold TupleTransaction.db; simpl. now destruct (call' d) as [[|] d'].
Qed.

Ltac same_step :=
  first
    [ apply sameCall_asyncRet | apply sameCall_asyncThrow
    | apply sameCall_ret | apply sameCall_throw
    | apply sameCall_now | apply sameCall_await
    | apply sameCall_checkActive | apply sameCall_this
    | apply sameCall_db
    | apply sameCall_if | apply sameCall_asyncIf
    | eapply sameCall_asyncBind; [|intro]
    | match goal with
      | |- sameCall _ (awaited (match ?l with [] => _ | _ :: _ => _ end)) _ =>
          destruct l
      end
    | (intros ?; reflexivity) ].

(** *** Transactions *)

Lemma async_scan_same (args : ScanArgs.t) :
  sameCall (fun r => r) (awaited (AsyncTupleTransaction.scan args))
    (TupleTransaction.scan args).
Proof.
  destruct same as (Hscan & _ & _).
  unfold AsyncTupleTransaction.scan, TupleTransaction.scan; cbv zeta.
  repeat same_step. intros d; apply Hscan.
Qed.

Lemma async_get_same (tuple : Tuple) :
  sameCall (fun r => r) (awaited (AsyncTupleTransaction.get tuple))
    (TupleTransaction.get tuple).
Proof.
  destruct same as (Hscan & _ & _).
  unfold AsyncTupleTransaction.get, TupleTransaction.get; cbv zeta.
  repeat same_step. intros d; apply Hscan.
Qed.

Lemma async_exists_same (tuple : Tuple) :
  sameCall (fun r => r) (awaited (AsyncTupleTransaction.exists_ tuple))
    (TupleTransaction.exists_ tuple).
Proof.
  destruct same as (Hscan & _ & _).
  unfold AsyncTupleTransaction.exists_, TupleTransaction.exists_; cbv zeta.
  repeat same_step. intros d; apply Hscan.
Qed.

Lemma async_set_same (tuple : Tuple) (v : Any) :
  sameCall (DB := DB) (fun r => r) (AsyncTupleTransaction.set tuple v)
    (TupleTransaction.set tuple v).
Proof. intros [[P i [] [] w] d]; reflexivity. Qed.

Lemma async_remove_same (tuple : Tuple) :
  sameCall (DB := DB) (fun r => r) (AsyncTupleTransaction.remove tuple)
    (TupleTransaction.remove tuple).
Proof. intros [[P i [] [] w] d]; reflexivity. Qed.

Lemma async_write_same (writes : Writes.t) :
  sameCall (DB := DB) (fun r => r) (AsyncTupleTransaction.write writes)
    (TupleTransaction.write writes).
Proof.
  unfold AsyncTupleTransaction.write, TupleTransaction.write.
  apply sameCall_bind with (f := fun u => u);
    [apply sameCall_checkActive|intros _].
  apply sameCall_bind with (f := fun u => u); [|intros _];
    apply sameCall_forEach; intro;
    [apply async_remove_same|apply async_set_same].
Qed.

Lemma async_commit_same :
  sameCall (fun r => r) (awaited AsyncTupleTransaction.commit)
    TupleTransaction.commit.
Proof.
  destruct same as (_ & Hcommit & _).
  unfold AsyncTupleTransaction.commit, TupleTransaction.commit.
  eapply sameCall_asyncBind; [apply sameCall_now, sameCall_checkActive|].
  intros _. eapply sameCall_asyncBind.
  { apply sameCall_now, sameCall_update. reflexivity. }
  intros _. eapply sameCall_asyncBind;
    [apply sameCall_now, sameCall_this|].
  intros tx. apply sameCall_db. intros d; apply Hcommit.
Qed.

Lemma async_cancel_same :
  sameCall (fun r => r) (awaited AsyncTupleTransaction.cancel)
    TupleTransaction.cancel.
Proof.
  destruct same as (_ & _ & Hcancel).
  unfold AsyncTupleTransaction.cancel, TupleTransaction.cancel.
  eapply sameCall_asyncBind; [apply sameCall_now, sameCall_checkActive|].
  intros _. eapply sameCall_asyncBind.
  { apply sameCall_now, sameCall_update. reflexivity. }
  intros _. eapply sameCall_asyncBind;
    [apply sameCall_now, sameCall_this|].
  intros tx. apply sameCall_db. intros d; apply Hcancel.
Qed.

Lemma async_subspace_same (prefix : Tuple) :
  sameCall (DB := DB) syncView (AsyncTupleTransaction.subspace prefix)
    (TupleTransaction.subspace prefix).
Proof. intros [[P i [] [] w] d]; reflexivity. Qed.

(** *** Clients *)

Lemma async_client_scan_same (client : AsyncTupleDatabaseClient.t)
    (args : ScanArgs.t) (txId : option TxId) (d : DB) :
  awaited (AsyncTupleDatabaseClient.scan client args txId) d
  = TupleDatabaseClient.scan (syncClient client) args txId d.
Proof.
  destruct same as (Hscan & _ & _).
  unfold AsyncTupleDatabaseClient.scan, TupleDatabaseClient.scan; cbv zeta.
  rewrite awaited_bind. unfold bind. rewrite awaited_await, Hscan. simpl.
  now destruct (db_scan _ txId d) as [[pairs|error] d'].
Qed.

Lemma async_client_commit_same (client : AsyncTupleDatabaseClient.t)
    (writes : Writes.t) (txId : option TxId) (d : DB) :
  awaited (AsyncTupleDatabaseClient.commit client writes txId) d
  = TupleDatabaseClient.commit (syncClient client) writes txId d.
Proof.
  destruct same as (_ & Hcommit & _).
  unfold AsyncTupleDatabaseClient.commit, TupleDatabaseClient.commit;
    cbv zeta.
  rewrite awaited_bind. unfold bind. rewrite awaited_await, Hcommit. simpl.
  now destruct (db_commit _ txId d) as [[[]|error] d'].
Qed.

Lemma async_client_cancel_same (txId : TxId) (d : DB) :
  awaited (AsyncTupleDatabaseClient.cancel txId) d
  = TupleDatabaseClient.cancel txId d.
Proof. destruct same as (_ & _ & Hcancel). apply Hcancel. Qed.

Lemma async_client_get_same (client : AsyncTupleDatabaseClient.t)
    (tuple : Tuple) (txId : option TxId) (d : DB) :
  awaited (AsyncTupleDatabaseClient.get client tuple txId) d
  = TupleDatabaseClient.get (syncClient client) tuple txId d.
Proof.
  unfold AsyncTupleDatabaseClient.get, TupleDatabaseClient.get.
  rewrite awaited_bind. unfold bind.
  rewrite awaited_await, async_client_scan_same.
  destruct (TupleDatabaseClient.scan _ _ txId d)
    as [[[|p [|q items]]|error] d']; reflexivity.
Qed.

Lemma async_client_exists_same (client : AsyncTupleDatabaseClient.t)
    (tuple : Tuple) (txId : option TxId) (d : DB) :
  awaited (AsyncTupleDatabaseClient.exists_ client tuple txId) d
  = TupleDatabaseClient.exists_ (syncClient client) tuple txId d.
Proof.
  unfold AsyncTupleDatabaseClient.exists_, TupleDatabaseClient.exists_.
  rewrite awaited_bind. unfold bind.
  rewrite awaited_await, async_client_scan_same.
  destruct (TupleDatabaseClient.scan _ _ txId d)
    as [[[|p items]|error] d']; reflexivity.
Qed.

(** *** Views of a transaction *)

(** A method of a view of an asynchronous transaction against the method
    of the view of the synchronous one. *)
Lemma async_view_scan_same (view : AsyncTupleTransactionSubspace.t)
    (args : ScanArgs.t) :
  sameCall (fun r => r) (awaited (AsyncTupleTransactionSubspace.scan view args))
    (TupleTransactionSubspace.scan (syncView view) args).
Proof.
  unfold AsyncTupleTransactionSubspace.scan, TupleTransactionSubspace.scan;
    cbv zeta.
  eapply sameCall_asyncBind;
    [apply sameCall_await; simpl; apply async_scan_same|].
  intros pairs s; reflexivity.
Qed.

Lemma async_view_write_same (view : AsyncTupleTransactionSubspace.t)
    (writes : Writes.t) :
  sameCall (DB := DB) (fun r => r)
    (AsyncTupleTransactionSubspace.write view writes)
    (TupleTransactionSubspace.write (syncView view) writes).
Proof.
  unfold AsyncTupleTransactionSubspace.write, TupleTransactionSubspace.write.
  apply sameCall_bind with (f := fun u => u); [|intros _];
    apply sameCall_forEach; intro;
    [apply async_remove_same|apply async_set_same].
Qed.

(** C9. Over the same engine, every method of the asynchronous client,
    transaction and transaction view, once its promise is awaited, returns
    or throws what the method of the synchronous class does and leaves the
    transaction and the engine in the same state; [set], [remove], [write]
    and [subspace] are not [async] and agree as they are. *)
Theorem async_family_matches_sync_family :
  (* AsyncTupleTransaction / TupleTransaction *)
  ((forall args,
      sameCall (fun r => r) (awaited (AsyncTupleTransaction.scan args))
        (TupleTransaction.scan args))
   /\ (forall tuple,
      sameCall (fun r => r) (awaited (AsyncTupleTransaction.get tuple))
        (TupleTransaction.get tuple))
   /\ (forall tuple,
      sameCall (fun r => r) (awaited (AsyncTupleTransaction.exists_ tuple))
        (TupleTransaction.exists_ tuple))
   /\ (forall tuple v,
      sameCall (DB := DB) (fun r => r)
           (AsyncTupleTransaction.set tuple v)
        (TupleTransaction.set tuple v))
   /\ (forall tuple,
      sameCall (DB := DB) (fun r => r)
           (AsyncTupleTransaction.remove tuple)
        (TupleTransaction.remove tuple))
   /\ (forall writes,
      sameCall (DB := DB) (fun r => r)
           (AsyncTupleTransaction.write writes)
        (TupleTransaction.write writes))
   /\ sameCall (fun r => r) (awaited AsyncTupleTransaction.commit)
        TupleTransaction.commit
   /\ sameCall (fun r => r) (awaited AsyncTupleTransaction.cancel)
        TupleTransaction.cancel
   /\ (forall prefix,
      sameCall (DB := DB) syncView (AsyncTupleTransaction.subspace prefix)
        (TupleTransaction.subspace prefix)))
  (* AsyncTupleDatabaseClient / TupleDatabaseClient *)
  /\ (forall client d,
      (forall args txId,
         awaited (AsyncTupleDatabaseClient.scan client args txId) d
         = TupleDatabaseClient.scan (syncClient client) args txId d)
      /\ (forall tuple txId,
         awaited (AsyncTupleDatabaseClient.get client tuple txId) d
         = TupleDatabaseClient.get (syncClient client) tuple txId d)
      /\ (forall tuple txId,
         awaited (AsyncTupleDatabaseClient.exists_ client tuple txId) d
         = TupleDatabaseClient.exists_ (syncClient client) tuple txId d)
      /\ (forall writes txId,
         awaited (AsyncTupleDatabaseClient.commit client writes txId) d
         = TupleDatabaseClient.commit (syncClient client) writes txId d)
      /\ (forall txId,
         awaited (AsyncTupleDatabaseClient.cancel txId) d
         = TupleDatabaseClient.cancel txId d)
      /\ (forall prefix,
         syncClient (AsyncTupleDatabaseClient.subspace client prefix)
         = TupleDatabaseClient.subspace (syncClient client) prefix)
      /\ (forall txId randomId,
         syncTransaction (AsyncTupleDatabaseClient.transact client txId randomId)
         = TupleDatabaseClient.transact (syncClient client) txId randomId))
  (* AsyncTupleTransactionSubspace / TupleTransactionSubspace *)
  /\ (forall view,
      (forall args,
         sameCall (fun r => r)
           (awaited (AsyncTupleTransactionSubspace.scan view args))
           (TupleTransactionSubspace.scan (syncView view) args))
      /\ (forall tuple,
         sameCall (fun r => r)
           (awaited (AsyncTupleTransactionSubspace.get view tuple))
           (TupleTransactionSubspace.get (syncView view) tuple))
      /\ (forall tuple,
         sameCall (fun r => r)
           (awaited (AsyncTupleTransactionSubspace.exists_ view tuple))
           (TupleTransactionSubspace.exists_ (syncView view) tuple))
      /\ (forall tuple v,
         sameCall (DB := DB) (fun r => r)
           (AsyncTupleTransactionSubspace.set view tuple v)
           (TupleTransactionSubspace.set (syncView view) tuple v))
      /\ (forall tuple,
         sameCall (DB := DB) (fun r => r)
           (AsyncTupleTransactionSubspace.remove view tuple)
           (TupleTransactionSubspace.remove (syncView view) tuple))
      /\ (forall writes,
         sameCall (DB := DB) (fun r => r)
           (AsyncTupleTransactionSubspace.write view writes)
           (TupleTransactionSubspace.write (syncView view) writes))
      /\ sameCall (fun r => r) (awaited AsyncTupleTransactionSubspace.commit)
           TupleTransactionSubspace.commit
      /\ sameCall (fun r => r) (awaited AsyncTupleTransactionSubspace.cancel)
           TupleTransactionSubspace.cancel
      /\ (forall prefix,
         syncView (AsyncTupleTransactionSubspace.subspace view prefix)
         = TupleTransactionSubspace.subspace (syncView view) prefix)).
Proof.
  split; [|split].
  - repeat split; intros.
    + apply async_scan_same.
    + apply async_get_same.
    + apply async_exists_same.
    + apply async_set_same.
    + apply async_remove_same.
    + apply async_write_same.
    + apply async_commit_same.
    + apply async_cancel_same.
    + apply async_subspace_same.
  - intros client d. repeat split; intros.
    + apply async_client_scan_same.
    + apply async_client_get_same.
    + apply async_client_exists_same.
    + apply async_client_commit_same.
    + apply async_client_cancel_same.
  - intros view. repeat split; intros.
    + apply async_view_scan_same.
    + apply async_get_same.
    + apply async_exists_same.
    + apply async_set_same.
    + apply async_remove_same.
    + apply async_view_write_same.
    + apply async_commit_same.
    + apply async_cancel_same.
Qed.
End AsyncFacts.

(** A synchronous engine behind the asynchronous interface is the same
    engine. *)
Lemma asyncOfSync_same (DB : Type) (api : TupleDatabaseApi DB) :
  sameEngine (asyncOfSync api) api.
Proof. repeat split; intros; apply awaited_now. Qed.

Lemma async_family_matches_sync_family_witness :
  sameEngine (asyncOfSync TupleDatabase.api) TupleDatabase.api
  /\ match awaited (AsyncTupleTransaction.get
                     (api := asyncOfSync TupleDatabase.api) [VString "total"])
             (asyncTotalTx, contendedEngine) with
     | (Ok x, s') => (Ok x, syncState s')
     | (Throws error, s') => (Throws error, syncState s')
     end
     = (Ok (defined (VNumber 3)), (totalTx, contendedEngine)).
Proof.
  split; [apply asyncOfSync_same|].
  destruct (@async_family_matches_sync_family TupleDatabase.t
              (asyncOfSync TupleDatabase.api) TupleDatabase.api
              (asyncOfSync_same TupleDatabase.api))
    as ((_ & Hget & _) & _).
  rewrite (Hget [VString "total"] (asyncTotalTx, contendedEngine)).
  reflexivity.
Defined.

(** ** The test "transaction conveniences" of [test/talk.test.ts] *)

(** [example2]: a read through the transaction sees the buffered write. *)
Example talk_example2_reads_own_write :
  fst (awaited
         (now (AsyncTupleTransaction.set [VString "score"; VString "chet"]
                 (defined (VNumber 2))) ;;
          now (AsyncTupleTransaction.set [VString "total"] (defined (VNumber 4))) ;;
          await (AsyncTupleTransaction.get
                   (api := asyncOfSync TupleDatabase.api) [VString "total"]))%async
         (AsyncTupleDatabaseClient.transact (AsyncTupleDatabaseClient.mk [])
            None "example2",
          afterExample1))
  = Ok (defined (VNumber 4)).
Proof. reflexivity. Qed.

(** [example3]: [setScore(db, "joe", 15)] and the scan the test asserts. *)
Example talk_example3_set_score :
  let w :=
    snd (transactionalQuery exampleIds defaultRetries setScore
           (IsDb exampleClient) ("joe", 15%Z) (mkWorld afterExample1 0 tt)) in
  fst (TupleDatabaseClient.scan exampleClient ScanArgs.empty None (engine w))
  = Ok [mkPair [VString "score"; VString "chet"] (defined (VNumber 1));
        mkPair [VString "score"; VString "joe"] (defined (VNumber 15));
        mkPair [VString "score"; VString "meghan"] (defined (VNumber 2));
        mkPair [VString "total"] (defined (VNumber 18))].
Proof. vm_compute. reflexivity. Qed.

(** * Further properties of the client and transaction layer *)

(** ** Lookups in a sorted array after a change *)

Section SortedLookupFacts.
Variable A : Type.
Variable keyOf : A -> Tuple.

Local Abbreviation cmp := (byKey keyOf).

Lemma sortedExists_sortedGet (data : list A) (k : Tuple) :
  sortedExists cmp data k
  = match sortedGet cmp data k with Some _ => true | None => false end.
Proof.
  induction data as [|x data IH]; [reflexivity|].
  rewrite sortedExists_cons, sortedGet_cons. now destruct (cmp x k).
Qed.

Lemma sortedGet_key (data : list A) (k : Tuple) (y : A) :
  sortedGet cmp data k = Some y -> keyOf y = k /\ In y data.
Proof.
  induction data as [|x data IH]; [discriminate|].
  rewrite sortedGet_cons. destruct (cmp x k) eqn:E; try discriminate.
  - intros [= <-]. split; [now apply compareTuple_eq|now left].
  - intros H. destruct (IH H). split; [assumption|now right].
Qed.

Lemma sortedGet_sortedSet_same (data : list A) (item : A) :
  sortedGet cmp (sortedSet cmp data (keyOf item) item) (keyOf item)
  = Some item.
Proof.
  assert (Hself : cmp item (keyOf item) = Eq) by apply compareTuple_refl.
  induction data as [|x data IH].
  - change (sortedSet cmp [] (keyOf item) item) with [item].
    rewrite sortedGet_cons, Hself. reflexivity.
  - rewrite sortedSet_cons. destruct (cmp x (keyOf item)) eqn:E;
      rewrite sortedGet_cons; rewrite ?E, ?Hself; auto.
Qed.

Lemma sortedGet_sortedSet_other (data : list A) (item : A) (k : Tuple) :
  k <> keyOf item ->
  sortedGet cmp (sortedSet cmp data (keyOf item) item) k
  = sortedGet cmp data k.
Proof.
  intros Hk.
  assert (Hne : cmp item k <> Eq).
  { intros E. apply compareTuple_eq in E. now apply Hk. }
  induction data as [|x data IH].
  - change (sortedSet cmp [] (keyOf item) item) with [item].
    rewrite sortedGet_cons.
    destruct (cmp item k); try reflexivity. now elim Hne.
  - rewrite sortedSet_cons. destruct (cmp x (keyOf item)) eqn:E.
    + apply compareTuple_eq in E. rewrite !sortedGet_cons.
      unfold byKey in *. rewrite E.
      destruct (compareTuple (keyOf item) k); try reflexivity. now elim Hne.
    + rewrite !sortedGet_cons. now rewrite IH.
    + rewrite (sortedGet_cons keyOf item). destruct (cmp item k) eqn:E2.
      * now elim Hne.
      * reflexivity.
      * rewrite sortedGet_cons.
        assert (Hgt : cmp x k = Gt).
        { unfold byKey in *.
          destruct (compareTuple (keyOf x) k) eqn:E3; try reflexivity;
            exfalso.
          - apply compareTuple_eq in E3. subst k.
            rewrite compareTuple_antisym, E in E2. discriminate.
          - assert (compareTuple k (keyOf item) = Lt)
              by (rewrite compareTuple_antisym, E2; reflexivity).
            assert (compareTuple (keyOf x) (keyOf item) = Lt)
              by (eapply compareTuple_trans; eassumption).
            congruence. }
        now rewrite Hgt.
Qed.

Lemma sortedGet_sortedRemove_same (data : list A) (k : Tuple) :
  sortedBy keyOf data -> sortedGet cmp (sortedRemove cmp data k) k = None.
Proof.
  intros Hs. destruct (sortedGet cmp (sortedRemove cmp data k) k) as [y|] eqn:E;
    [|reflexivity].
  apply sortedGet_key in E as [Hk Hin].
  now apply (sortedRemove_absent _ Hs) in Hin.
Qed.

Lemma sortedGet_absent (data : list A) (k : Tuple) :
  (forall y, In y data -> cmp y k = Gt) -> sortedGet cmp data k = None.
Proof.
  destruct data as [|x data]; [reflexivity|].
  intros H. rewrite sortedGet_cons, (H x); [reflexivity|now left].
Qed.

Lemma sortedGet_sortedRemove_other (data : list A) (k k' : Tuple) :
  sortedBy keyOf data -> k' <> k ->
  sortedGet cmp (sortedRemove cmp data k) k' = sortedGet cmp data k'.
Proof.
  intros Hs Hk. induction data as [|x data IH]; [reflexivity|].
  assert (Htail : sortedBy keyOf data) by now inversion Hs.
  rewrite sortedRemove_cons. destruct (cmp x k) eqn:E.
  - apply compareTuple_eq in E. rewrite sortedGet_cons.
    destruct (cmp x k') eqn:E2; try reflexivity.
    + apply compareTuple_eq in E2. congruence.
    + apply sortedGet_absent. intros y Hy.
      eapply sortedBy_above; [exact Hs|congruence|assumption].
  - rewrite !sortedGet_cons. now rewrite (IH Htail).
  - reflexivity.
Qed.
End SortedLookupFacts.

(** ** Reads through a transaction *)

Section TransactionReadFacts.
Context {DB : Type} {api : TupleDatabaseApi DB}.

Lemma exists_unfold (tuple : Tuple) (tx : TupleTransaction.t) (d : DB) :
  isActive tx = true ->
  TupleTransaction.exists_ tuple (tx, d) =
  let fullTuple :=
    prependPrefixToTuple (TupleTransaction.subspacePrefix tx) tuple in
  if tv.exists_ (Writes.set (TupleTransaction.writes tx)) fullTuple then
    (Ok true, (tx, d))
  else if t.exists_ (Writes.remove (TupleTransaction.writes tx)) fullTuple then
    (Ok false, (tx, d))
  else
    match db_scan (pointStorageArgs fullTuple)
            (Some (TupleTransaction.id tx)) d with
    | (Ok [], d') => (Ok false, (tx, d'))
    | (Ok (_ :: _), d') => (Ok true, (tx, d'))
    | (Throws error, d') => (Throws error, (tx, d'))
    end.
Proof.
  intros H. unfold TupleTransaction.exists_.
  rewrite guarded_active by exact H.
  unfold bind at 1. unfold TupleTransaction.this at 1, gets. cbv zeta.
  destruct (tv.exists_ _ _); [reflexivity|].
  destruct (t.exists_ _ _); [reflexivity|].
  unfold bind, TupleTransaction.db; simpl.
  destruct (db_scan _ _ d) as [[[|p items]|e] d']; reflexivity.
Qed.

(** A buffered set that [tv.exists] finds is the pair [tv.get] reads. *)
Lemma tv_exists_get (data : list KeyValuePair) (T : Tuple) :
  tv.exists_ data T = true ->
  exists pair0,
    In pair0 data /\ key pair0 = T /\ tv.get data T = value pair0.
Proof.
  rewrite tv_exists_byKey, tv_get_byKey, sortedExists_sortedGet.
  destruct (sortedGet _ _ _) as [p|] eqn:E; [|discriminate].
  intros _. apply sortedGet_key in E as [Hk Hin]. now exists p.
Qed.

(** X1. [exists] against [get].  Both leave the transaction and the
    engine in the same state.  [exists] returns [true] where [get] returns
    a value that is not [undefined]; where [exists] returns [false], [get]
    returns [undefined]; an error [exists] throws, [get] throws too.
    They part in two cases.  When the tuple is in neither buffer and the
    engine returns more than one pair for it, [get] throws "Get expects
    only one value." and [exists] returns [true]; this is the only error
    of [get] that [exists] does not throw.  And [get] returns [undefined]
    while [exists] returns [true] only for a tuple that holds
    [undefined]: it is buffered with the value [undefined], or the one
    pair the engine returns for it has that value. *)
Theorem exists_agrees_with_get (tuple : Tuple)
    (s : @TupleTransaction.State DB) :
  let got := TupleTransaction.get tuple s in
  let found := TupleTransaction.exists_ tuple s in
  let tx := fst s in
  let fullTuple :=
    prependPrefixToTuple (TupleTransaction.subspacePrefix tx) tuple in
  let scanned :=
    db_scan (pointStorageArgs fullTuple) (Some (TupleTransaction.id tx))
      (snd s) in
  snd found = snd got
  /\ (forall v, fst got = Ok (defined v) -> fst found = Ok true)
  /\ (fst found = Ok false -> fst got = Ok undefined)
  /\ (forall error, fst found = Throws error -> fst got = Throws error)
  /\ (isActive tx = true ->
      buffered (TupleTransaction.writes tx) fullTuple = None ->
      forall p q items,
        fst scanned = Ok (p :: q :: items) ->
        fst got = Throws (Error "Get expects only one value.")
        /\ fst found = Ok true)
  /\ (forall error, fst got = Throws error ->
        fst found = Throws error
        \/ (fst found = Ok true
            /\ error = Error "Get expects only one value."
            /\ exists p q items, fst scanned = Ok (p :: q :: items)))
  /\ (fst got = Ok undefined -> fst found = Ok true ->
      In (mkPair fullTuple undefined)
        (Writes.set (TupleTransaction.writes tx))
      \/ (buffered (TupleTransaction.writes tx) fullTuple = None
          /\ exists p, fst scanned = Ok [p] /\ value p = undefined)).
Proof.
  destruct s as [tx d]. cbv zeta. simpl fst. simpl snd.
  destruct (isActive tx) eqn:Hactive.
  - rewrite exists_unfold, get_unfold by exact Hactive. cbv zeta.
    unfold buffered.
    set (fullTuple :=
           prependPrefixToTuple (TupleTransaction.subspacePrefix tx) tuple).
    destruct (tv.exists_ (Writes.set (TupleTransaction.writes tx)) fullTuple)
      eqn:Eset.
    + destruct (tv_exists_get _ _ Eset) as (pair0 & Hin & Hk & Hv).
      rewrite Hv. simpl.
      split; [reflexivity|]. split; [reflexivity|].
      split; [discriminate|]. split; [discriminate|].
      split; [discriminate|]. split; [discriminate|].
      intros Hundefined _. left.
      destruct pair0 as [k v]. simpl in *. congruence.
    + destruct (t.exists_ (Writes.remove (TupleTransaction.writes tx))
                  fullTuple).
      * simpl.
        split; [reflexivity|]. split; [discriminate|].
        split; [reflexivity|]. split; [discriminate|].
        split; [discriminate|]. split; [discriminate|].
        discriminate.
      * unfold getFromEngine.
        destruct (db_scan (pointStorageArgs fullTuple)
                    (Some (TupleTransaction.id tx)) d)
          as [[[|p [|q items]]|e] d']; simpl.
        -- split; [reflexivity|]. split; [discriminate|].
           split; [reflexivity|]. split; [discriminate|].
           split; [discriminate|]. split; [discriminate|].
           discriminate.
        -- split; [reflexivity|]. split; [reflexivity|].
           split; [discriminate|]. split; [discriminate|].
           split; [discriminate|]. split; [discriminate|].
           intros Hundefined _. right. split; [reflexivity|].
           exists p. split; congruence.
        -- split; [reflexivity|]. split; [discriminate|].
           split; [discriminate|]. split; [discriminate|].
           split; [intros _ _ p' q' items' _; now split|].
           split; [|discriminate].
           intros error [= <-]. right.
           split; [reflexivity|]. split; [reflexivity|]. now eauto.
        -- split; [reflexivity|]. split; [discriminate|].
           split; [discriminate|]. split; [intros error [= <-]; reflexivity|].
           split; [discriminate|]. split; [|discriminate].
           intros error [= <-]. now left.
  - unfold TupleTransaction.exists_, TupleTransaction.get.
    rewrite !guarded_closed by exact Hactive. simpl.
    split; [reflexivity|]. split; [discriminate|].
    split; [discriminate|]. split; [intros error [= <-]; reflexivity|].
    split; [discriminate|]. split; [|discriminate].
    intros error [= <-]. now left.
Qed.

(** *** Reads after writes *)

Lemma tv_exists_after_set (data : list KeyValuePair) (T : Tuple) (v : Any) :
  tv.exists_ (tv.set data T v) T = true /\ tv.get (tv.set data T v) T = v.
Proof.
  rewrite tv_exists_byKey, tv_get_byKey, tv_set_byKey, sortedExists_sortedGet.
  pose proof (@sortedGet_sortedSet_same _ key data (mkPair T v)) as H.
  simpl key in H. now rewrite H.
Qed.

Lemma tv_exists_after_remove (data : list KeyValuePair) (T : Tuple) :
  sortedBy key data -> tv.exists_ (tv.remove data T) T = false.
Proof.
  intros Hs.
  rewrite tv_exists_byKey, tv_remove_byKey, sortedExists_sortedGet.
  now rewrite sortedGet_sortedRemove_same.
Qed.

Lemma t_exists_after_set (data : list Tuple) (T : Tuple) :
  t.exists_ (t.set data T) T = true.
Proof.
  rewrite t_exists_byKey, t_set_byKey, sortedExists_sortedGet.
  pose proof (@sortedGet_sortedSet_same _ (fun tuple => tuple) data T) as H.
  simpl in H. now rewrite H.
Qed.

Lemma tv_lookup_set_other (data : list KeyValuePair) (T T' : Tuple)
    (v : Any) :
  T' <> T ->
  tv.exists_ (tv.set data T v) T' = tv.exists_ data T'
  /\ tv.get (tv.set data T v) T' = tv.get data T'.
Proof.
  intros Hne.
  rewrite (tv_exists_byKey data), (tv_exists_byKey (tv.set data T v)),
    (tv_get_byKey data), (tv_get_byKey (tv.set data T v)), tv_set_byKey,
    !sortedExists_sortedGet.
  pose proof (@sortedGet_sortedSet_other _ key data (mkPair T v) T' Hne) as H.
  simpl key in H. now rewrite H.
Qed.

Lemma tv_lookup_remove_other (data : list KeyValuePair) (T T' : Tuple) :
  sortedBy key data -> T' <> T ->
  tv.exists_ (tv.remove data T) T' = tv.exists_ data T'
  /\ tv.get (tv.remove data T) T' = tv.get data T'.
Proof.
  intros Hs Hne.
  rewrite (tv_exists_byKey data), (tv_exists_byKey (tv.remove data T)),
    (tv_get_byKey data), (tv_get_byKey (tv.remove data T)), tv_remove_byKey,
    !sortedExists_sortedGet.
  now rewrite (sortedGet_sortedRemove_other Hs Hne).
Qed.

Lemma t_exists_set_other (data : list Tuple) (T T' : Tuple) :
  T' <> T -> t.exists_ (t.set data T) T' = t.exists_ data T'.
Proof.
  intros Hne.
  rewrite (t_exists_byKey data), (t_exists_byKey (t.set data T)), t_set_byKey,
    !sortedExists_sortedGet.
  pose proof (@sortedGet_sortedSet_other _ (fun tuple => tuple) data T T' Hne)
    as H.
  simpl in H. now rewrite H.
Qed.

Lemma t_exists_remove_other (data : list Tuple) (T T' : Tuple) :
  sortedBy (fun tuple => tuple) data -> T' <> T ->
  t.exists_ (t.remove data T) T' = t.exists_ data T'.
Proof.
  intros Hs Hne.
  rewrite (t_exists_byKey data), (t_exists_byKey (t.remove data T)),
    t_remove_byKey, !sortedExists_sortedGet.
  now rewrite (sortedGet_sortedRemove_other Hs Hne).
Qed.

(** The buffers of a reachable state are well formed. *)
Lemma stateAfter_writesOk (subspacePrefix : Tuple) (id : TxId) (db : DB)
    (before : list (TxObject * TxCall)) :
  WritesOk (TupleTransaction.writes
              (fst (stateAfter subspacePrefix id db before))).
Proof. apply (writesOk_runCalls before), WritesOk_new. Qed.

(** Reads after a write of the same tuple, on well-formed buffers. *)
Lemma reads_after_writes (tx : TupleTransaction.t) (d : DB) (tuple : Tuple)
    (v : Any) :
  isActive tx = true ->
  sortedBy key (Writes.set (TupleTransaction.writes tx)) ->
  let s1 := snd (TupleTransaction.set tuple v (tx, d)) in
  let s2 := snd (TupleTransaction.remove tuple (tx, d)) in
  TupleTransaction.get tuple s1 = (Ok v, s1)
  /\ TupleTransaction.exists_ tuple s1 = (Ok true, s1)
  /\ TupleTransaction.get tuple s2 = (Ok undefined, s2)
  /\ TupleTransaction.exists_ tuple s2 = (Ok false, s2).
Proof.
  intros Hactive Hset s1 s2. unfold s1, s2.
  rewrite set_unfold, remove_unfold, Hactive. cbv zeta. simpl snd.
  set (fullTuple :=
         prependPrefixToTuple (TupleTransaction.subspacePrefix tx) tuple).
  assert (Hflags : forall w,
            isActive (TupleTransaction.mk (TupleTransaction.subspacePrefix tx)
                        (TupleTransaction.id tx)
                        (TupleTransaction.committed tx)
                        (TupleTransaction.canceled tx) w) = true)
    by (intros w; exact Hactive).
  rewrite !get_unfold, !exists_unfold by apply Hflags. cbv zeta. simpl.
  fold fullTuple.
  destruct (tv_exists_after_set
              (Writes.set (TupleTransaction.writes tx)) fullTuple v)
    as [E1 E2].
  rewrite E1, E2, (tv_exists_after_remove fullTuple Hset),
    t_exists_after_set.
  repeat split.
Qed.

(** X2. Read your writes: on an active transaction, in any state its API
    can bring it to, [get(t)] right after [set(t, v)] returns [v] and
    [exists(t)] returns [true]; right after [remove(t)], [get(t)] returns
    [undefined] and [exists(t)] returns [false].  None of these reads
    calls the engine. *)
Theorem reads_see_buffered_writes (subspacePrefix : Tuple) (id : TxId)
    (db : DB) (before : list (TxObject * TxCall)) (tuple : Tuple) (v : Any) :
  let s := stateAfter subspacePrefix id db before in
  isActive (fst s) = true ->
  let s1 := snd (TupleTransaction.set tuple v s) in
  let s2 := snd (TupleTransaction.remove tuple s) in
  TupleTransaction.get tuple s1 = (Ok v, s1)
  /\ TupleTransaction.exists_ tuple s1 = (Ok true, s1)
  /\ TupleTransaction.get tuple s2 = (Ok undefined, s2)
  /\ TupleTransaction.exists_ tuple s2 = (Ok false, s2).
Proof.
  intros s Hactive.
  pose proof (stateAfter_writesOk subspacePrefix id db before) as Hok.
  fold s in Hok. destruct Hok as (Hset & _).
  destruct s as [tx d]. simpl in Hactive, Hset.
  now apply reads_after_writes.
Qed.

(** X3. Writes to one tuple leave the reads of every other tuple as they
    were: after [set(t, v)] or [remove(t)], [get(t')] and [exists(t')] for
    [t' <> t] return what they returned before and put the engine in the
    state they put it in before. *)
Theorem writes_leave_other_tuples (subspacePrefix : Tuple) (id : TxId)
    (db : DB) (before : list (TxObject * TxCall)) (tuple tuple' : Tuple)
    (v : Any) :
  let s := stateAfter subspacePrefix id db before in
  tuple' <> tuple ->
  let same (s' : @TupleTransaction.State DB) :=
    fst (TupleTransaction.get tuple' s') = fst (TupleTransaction.get tuple' s)
    /\ snd (snd (TupleTransaction.get tuple' s'))
       = snd (snd (TupleTransaction.get tuple' s))
    /\ fst (TupleTransaction.exists_ tuple' s')
       = fst (TupleTransaction.exists_ tuple' s)
    /\ snd (snd (TupleTransaction.exists_ tuple' s'))
       = snd (snd (TupleTransaction.exists_ tuple' s)) in
  same (snd (TupleTransaction.set tuple v s))
  /\ same (snd (TupleTransaction.remove tuple s)).
Proof.
  intros s Hne same.
  pose proof (stateAfter_writesOk subspacePrefix id db before) as Hok.
  fold s in Hok. destruct Hok as (Hset & Hrem & _).
  unfold same. destruct s as [tx d]. simpl in Hset, Hrem.
  rewrite set_unfold, remove_unfold.
  destruct (isActive tx) eqn:Hactive; [|simpl; repeat split].
  cbv zeta. simpl snd.
  set (fullTuple :=
         prependPrefixToTuple (TupleTransaction.subspacePrefix tx) tuple).
  set (fullTuple' :=
         prependPrefixToTuple (TupleTransaction.subspacePrefix tx) tuple').
  assert (Hfull : fullTuple' <> fullTuple).
  { unfold fullTuple, fullTuple', prependPrefixToTuple. intros E.
    apply app_inv_head in E. contradiction. }
  assert (Hflags : forall w,
            isActive (TupleTransaction.mk (TupleTransaction.subspacePrefix tx)
                        (TupleTransaction.id tx)
                        (TupleTransaction.committed tx)
                        (TupleTransaction.canceled tx) w) = true)
    by (intros w; exact Hactive).
  rewrite !get_unfold, !exists_unfold by first [apply Hflags|exact Hactive].
  cbv zeta. simpl. fold fullTuple fullTuple'.
  destruct (tv_lookup_set_other
              (Writes.set (TupleTransaction.writes tx)) v Hfull) as [E1 E2].
  destruct (tv_lookup_remove_other Hset Hfull) as [E3 E4].
  rewrite E1, E2, E3, E4, (t_exists_set_other _ Hfull),
    (t_exists_remove_other Hrem Hfull).
  clear E1 E2 E3 E4. unfold getFromEngine. simpl.
  destruct (tv.exists_ (Writes.set (TupleTransaction.writes tx)) fullTuple');
    [repeat split|].
  destruct (t.exists_ (Writes.remove (TupleTransaction.writes tx)) fullTuple');
    [repeat split|].
  destruct (db_scan (pointStorageArgs fullTuple')
              (Some (TupleTransaction.id tx)) d)
    as [[[|p [|q items]]|e] d']; repeat split.
Qed.
End TransactionReadFacts.

(** ** [write]: a batch of removes and sets *)

Section BufferFacts.

Lemma buffered_bufferSet_same (w : Writes.t) (T : Tuple) (v : Any) :
  buffered (bufferSet w T v) T = Some v.
Proof.
  unfold buffered, bufferSet. simpl.
  destruct (tv_exists_after_set (Writes.set w) T v) as [E1 E2].
  now rewrite E1, E2.
Qed.

Lemma buffered_bufferRemove_same (w : Writes.t) (T : Tuple) :
  WritesOk w -> buffered (bufferRemove w T) T = Some undefined.
Proof.
  intros (Hs & _). unfold buffered, bufferRemove. simpl.
  now rewrite (tv_exists_after_remove T Hs), t_exists_after_set.
Qed.

Lemma buffered_bufferSet_other (w : Writes.t) (T T' : Tuple) (v : Any) :
  WritesOk w -> T' <> T -> buffered (bufferSet w T v) T' = buffered w T'.
Proof.
  intros (_ & Hr & _) Hne. unfold buffered, bufferSet. simpl.
  destruct (tv_lookup_set_other (Writes.set w) v Hne) as [E1 E2].
  now rewrite E1, E2, (t_exists_remove_other Hr Hne).
Qed.

Lemma buffered_bufferRemove_other (w : Writes.t) (T T' : Tuple) :
  WritesOk w -> T' <> T -> buffered (bufferRemove w T) T' = buffered w T'.
Proof.
  intros (Hs & _) Hne. unfold buffered, bufferRemove. simpl.
  destruct (tv_lookup_remove_other Hs Hne) as [E1 E2].
  now rewrite E1, E2, (t_exists_set_other _ Hne).
Qed.

Lemma WritesOk_bufferSet (w : Writes.t) (T : Tuple) (v : Any) :
  WritesOk w -> WritesOk (bufferSet w T v).
Proof. apply WritesOk_set. Qed.

Lemma WritesOk_bufferRemove (w : Writes.t) (T : Tuple) :
  WritesOk w -> WritesOk (bufferRemove w T).
Proof. apply WritesOk_remove. Qed.

Lemma WritesOk_fold_remove (P : Tuple) (tuples : list Tuple) (w : Writes.t) :
  WritesOk w ->
  WritesOk (fold_left
              (fun w tuple => bufferRemove w (prependPrefixToTuple P tuple))
              tuples w).
Proof.
  revert w. induction tuples as [|x tuples IH]; intros w Hw; simpl; [exact Hw|].
  now apply IH, WritesOk_bufferRemove.
Qed.

Lemma WritesOk_fold_set (P : Tuple) (pairs : list KeyValuePair)
    (w : Writes.t) :
  WritesOk w ->
  WritesOk (fold_left
              (fun w pair =>
                 bufferSet w (prependPrefixToTuple P (key pair)) (value pair))
              pairs w).
Proof.
  revert w. induction pairs as [|x pairs IH]; intros w Hw; simpl; [exact Hw|].
  now apply IH, WritesOk_bufferSet.
Qed.

Lemma WritesOk_bufferWrite (P : Tuple) (w batch : Writes.t) :
  WritesOk w -> WritesOk (bufferWrite P w batch).
Proof.
  intros Hw. now apply WritesOk_fold_set, WritesOk_fold_remove.
Qed.

Lemma prepend_injective (P a b : Tuple) :
  prependPrefixToTuple P a = prependPrefixToTuple P b -> a = b.
Proof. apply app_inv_head. Qed.

(** Removes of other tuples leave what the buffers say of [k]. *)
Lemma buffered_fold_remove_other (P k : Tuple) (tuples : list Tuple)
    (w : Writes.t) :
  WritesOk w -> ~ In k tuples ->
  buffered
    (fold_left (fun w tuple => bufferRemove w (prependPrefixToTuple P tuple))
       tuples w)
    (prependPrefixToTuple P k)
  = buffered w (prependPrefixToTuple P k).
Proof.
  revert w. induction tuples as [|x tuples IH]; intros w Hw Hk; simpl;
    [reflexivity|].
  rewrite IH.
  - apply buffered_bufferRemove_other; [exact Hw|].
    intros E. apply prepend_injective in E. apply Hk. now left.
  - now apply WritesOk_bufferRemove.
  - intros Hin. apply Hk. now right.
Qed.

Lemma Tuple_eq_dec (a b : Tuple) : {a = b} + {a <> b}.
Proof.
  destruct (compareTuple a b) eqn:E.
  - left. now apply compareTuple_eq.
  - right. intros ->. now rewrite compareTuple_refl in E.
  - right. intros ->. now rewrite compareTuple_refl in E.
Qed.

(** A remove of [k] among the removes leaves [k] removed. *)
Lemma buffered_fold_remove_in (P k : Tuple) (tuples : list Tuple)
    (w : Writes.t) :
  WritesOk w -> In k tuples ->
  buffered
    (fold_left (fun w tuple => bufferRemove w (prependPrefixToTuple P tuple))
       tuples w)
    (prependPrefixToTuple P k)
  = Some undefined.
Proof.
  revert w. induction tuples as [|x tuples IH]; intros w Hw Hk; simpl;
    [contradiction|].
  destruct (in_dec Tuple_eq_dec k tuples) as [Hin|Hout].
  - apply IH; [now apply WritesOk_bufferRemove|exact Hin].
  - destruct Hk as [->|Hin]; [|contradiction].
    rewrite buffered_fold_remove_other;
      [|now apply WritesOk_bufferRemove|exact Hout].
    now apply buffered_bufferRemove_same.
Qed.

(** Sets of other keys leave what the buffers say of [k]. *)
Lemma buffered_fold_set_other (P k : Tuple) (pairs : list KeyValuePair)
    (w : Writes.t) :
  WritesOk w -> ~ In k (map key pairs) ->
  buffered
    (fold_left
       (fun w pair =>
          bufferSet w (prependPrefixToTuple P (key pair)) (value pair))
       pairs w)
    (prependPrefixToTuple P k)
  = buffered w (prependPrefixToTuple P k).
Proof.
  revert w. induction pairs as [|x pairs IH]; intros w Hw Hk; simpl;
    [reflexivity|].
  rewrite IH.
  - apply buffered_bufferSet_other; [exact Hw|].
    intros E. apply prepend_injective in E. apply Hk. now left.
  - now apply WritesOk_bufferSet.
  - intros Hin. apply Hk. now right.
Qed.

(** The last set of [k] among the sets is what the buffers say of [k]. *)
Lemma buffered_fold_set_last (P k : Tuple) (v : Any)
    (front back : list KeyValuePair) (w : Writes.t) :
  WritesOk w -> ~ In k (map key back) ->
  buffered
    (fold_left
       (fun w pair =>
          bufferSet w (prependPrefixToTuple P (key pair)) (value pair))
       (front ++ mkPair k v :: back) w)
    (prependPrefixToTuple P k)
  = Some v.
Proof.
  intros Hw Hk. rewrite fold_left_app. simpl.
  rewrite buffered_fold_set_other;
    [apply buffered_bufferSet_same
    |now apply WritesOk_bufferSet, WritesOk_fold_set|exact Hk].
Qed.
End BufferFacts.

Section TransactionWriteFacts.
Context {DB : Type} {api : TupleDatabaseApi DB}.

Lemma withWrites_same (tx : TupleTransaction.t) :
  withWrites tx (TupleTransaction.writes tx) = tx.
Proof. now destruct tx. Qed.

(** A loop of buffering calls on an active transaction. *)
Lemma forEach_buffer (A : Type) (items : list A)
    (body : A -> M (@TupleTransaction.State DB) unit)
    (f : Tuple -> Writes.t -> A -> Writes.t) :
  (forall x tx d, isActive tx = true ->
     body x (tx, d)
     = (Ok tt,
        (withWrites tx
           (f (TupleTransaction.subspacePrefix tx)
              (TupleTransaction.writes tx) x), d))) ->
  forall tx d, isActive tx = true ->
    forEach items body (tx, d)
    = (Ok tt,
       (withWrites tx
          (fold_left (f (TupleTransaction.subspacePrefix tx)) items
             (TupleTransaction.writes tx)), d)).
Proof.
  intros Hbody. induction items as [|x items IH]; intros tx d Hactive; simpl.
  - now rewrite withWrites_same.
  - unfold bind. rewrite Hbody by exact Hactive.
    rewrite IH by exact Hactive. reflexivity.
Qed.

(** What [write] does on an active transaction. *)
Lemma write_unfold (batch : Writes.t) (tx : TupleTransaction.t) (d : DB) :
  isActive tx = true ->
  TupleTransaction.write batch (tx, d)
  = (Ok tt,
     (withWrites tx
        (bufferWrite (TupleTransaction.subspacePrefix tx)
           (TupleTransaction.writes tx) batch), d)).
Proof.
  intros Hactive. unfold TupleTransaction.write.
  rewrite guarded_active by exact Hactive. unfold bind.
  rewrite (@forEach_buffer _ (Writes.remove batch) _
             (fun P w tuple => bufferRemove w (prependPrefixToTuple P tuple))).
  - rewrite (@forEach_buffer _ (Writes.set batch) _
               (fun P w pair =>
                  bufferSet w (prependPrefixToTuple P (key pair))
                    (value pair))).
    + reflexivity.
    + intros x tx' d' H'. rewrite set_unfold, H'. reflexivity.
    + exact Hactive.
  - intros x tx' d' H'. rewrite remove_unfold, H'. reflexivity.
  - exact Hactive.
Qed.

(** [get] and [exists], by what the buffers say of the tuple. *)
Lemma get_buffered (tuple : Tuple) (tx : TupleTransaction.t) (d : DB) :
  isActive tx = true ->
  TupleTransaction.get tuple (tx, d) =
  let fullTuple :=
    prependPrefixToTuple (TupleTransaction.subspacePrefix tx) tuple in
  match buffered (TupleTransaction.writes tx) fullTuple with
  | Some r => (Ok r, (tx, d))
  | None => getFromEngine tx fullTuple d
  end.
Proof.
  intros Hactive. rewrite get_unfold by exact Hactive. unfold buffered.
  cbv zeta. destruct (tv.exists_ _ _); [reflexivity|].
  now destruct (t.exists_ _ _).
Qed.

(** X4. [write] on an active transaction never throws and never reaches
    the engine; it buffers the removes of the batch and then its sets, so
    that afterwards [get] returns, for a key the batch sets, the value of
    the last pair of that key (also when the batch removes the key too);
    for a key the batch only removes, [undefined]; and for any other key
    what it returned before. *)
Theorem write_removes_then_sets (subspacePrefix : Tuple) (id : TxId)
    (db : DB) (before : list (TxObject * TxCall)) (batch : Writes.t) :
  let s := stateAfter subspacePrefix id db before in
  isActive (fst s) = true ->
  let out := TupleTransaction.write batch s in
  fst out = Ok tt
  /\ snd (snd out) = snd s
  /\ (forall k v front back,
        Writes.set batch = front ++ mkPair k v :: back ->
        ~ In k (map key back) ->
        TupleTransaction.get k (snd out) = (Ok v, snd out))
  /\ (forall k,
        In k (Writes.remove batch) -> ~ In k (map key (Writes.set batch)) ->
        TupleTransaction.get k (snd out) = (Ok undefined, snd out))
  /\ (forall k,
        ~ In k (Writes.remove batch) -> ~ In k (map key (Writes.set batch)) ->
        fst (TupleTransaction.get k (snd out)) = fst (TupleTransaction.get k s)
        /\ snd (snd (TupleTransaction.get k (snd out)))
           = snd (snd (TupleTransaction.get k s))).
Proof.
  intros s Hactive out.
  pose proof (stateAfter_writesOk subspacePrefix id db before) as Hok.
  fold s in Hok. unfold out. destruct s as [tx d]. simpl in Hactive, Hok.
  rewrite write_unfold by exact Hactive. simpl fst. simpl snd.
  set (P := TupleTransaction.subspacePrefix tx).
  set (w := TupleTransaction.writes tx) in *.
  assert (Hactive' : forall w', isActive (withWrites tx w') = true)
    by (intros w'; exact Hactive).
  assert (Hremoved : WritesOk
            (fold_left
               (fun w tuple => bufferRemove w (prependPrefixToTuple P tuple))
               (Writes.remove batch) w))
    by now apply WritesOk_fold_remove.
  repeat split.
  - intros k v front back Hsplit Hlast.
    rewrite get_buffered by apply Hactive'. cbv zeta. simpl.
    fold P. unfold bufferWrite. rewrite Hsplit.
    now rewrite buffered_fold_set_last.
  - intros k Hin Hout.
    rewrite get_buffered by apply Hactive'. cbv zeta. simpl.
    fold P. unfold bufferWrite.
    rewrite buffered_fold_set_other by assumption.
    now rewrite buffered_fold_remove_in.
  - rewrite !get_buffered by first [apply Hactive'|exact Hactive].
    cbv zeta. simpl. fold P w. unfold bufferWrite.
    rewrite buffered_fold_set_other by assumption.
    rewrite buffered_fold_remove_other by assumption.
    destruct (buffered w _); [reflexivity|].
    unfold getFromEngine. simpl.
    now destruct (db_scan _ _ d) as [[[|p [|q items]]|e] d'].
  - rewrite !get_buffered by first [apply Hactive'|exact Hactive].
    cbv zeta. simpl. fold P w. unfold bufferWrite.
    rewrite buffered_fold_set_other by assumption.
    rewrite buffered_fold_remove_other by assumption.
    destruct (buffered w _); [reflexivity|].
    unfold getFromEngine. simpl.
    now destruct (db_scan _ _ d) as [[[|p [|q items]]|e] d'].
Qed.
End TransactionWriteFacts.

(** ** Invariants of the transaction object *)

Ltac invariant_step :=
  first
    [ apply preserves_ret | apply preserves_throw | apply preserves_gets
    | apply preserves_db | apply preserves_checkActive
    | apply preserves_bind; [|intro]
    | apply preserves_forEach; intro
    | apply preserves_if
    | match goal with
      | |- preserves _ (match ?l with [] => _ | _ :: _ => _ end) => destruct l
      end ].

Section TransactionInvariants.
Context {DB : Type} {api : TupleDatabaseApi DB}.
Variable P : TupleTransaction.t -> Prop.
Hypothesis P_set : forall tx T v,
  isActive tx = true -> P tx ->
  P (withWrites tx
       (bufferSet (TupleTransaction.writes tx)
          (prependPrefixToTuple (TupleTransaction.subspacePrefix tx) T) v)).
Hypothesis P_remove : forall tx T,
  isActive tx = true -> P tx ->
  P (withWrites tx
       (bufferRemove (TupleTransaction.writes tx)
          (prependPrefixToTuple (TupleTransaction.subspacePrefix tx) T))).
Hypothesis P_commit : forall tx,
  P tx ->
  P (TupleTransaction.mk (TupleTransaction.subspacePrefix tx)
       (TupleTransaction.id tx) true (TupleTransaction.canceled tx)
       (TupleTransaction.writes tx)).
Hypothesis P_cancel : forall tx,
  P tx ->
  P (TupleTransaction.mk (TupleTransaction.subspacePrefix tx)
       (TupleTransaction.id tx) (TupleTransaction.committed tx) true
       (TupleTransaction.writes tx)).

Lemma invariant_set (tuple : Tuple) (v : Any) :
  preserves (onTransaction P) (TupleTransaction.set (DB := DB) tuple v).
Proof.
  intros [tx d] Hs. rewrite set_unfold.
  destruct (isActive tx) eqn:Hactive; [|exact Hs]. now apply P_set.
Qed.

Lemma invariant_remove (tuple : Tuple) :
  preserves (onTransaction P) (TupleTransaction.remove (DB := DB) tuple).
Proof.
  intros [tx d] Hs. rewrite remove_unfold.
  destruct (isActive tx) eqn:Hactive; [|exact Hs]. now apply P_remove.
Qed.

Lemma invariant_write (w : Writes.t) :
  preserves (onTransaction P) (TupleTransaction.write (DB := DB) w).
Proof.
  unfold TupleTransaction.write.
  apply preserves_bind; [apply preserves_checkActive|intros _].
  apply preserves_bind; [|intros _];
    apply preserves_forEach; intro;
    [apply invariant_remove|apply invariant_set].
Qed.

Lemma invariant_scan (args : ScanArgs.t) :
  preserves (onTransaction P) (TupleTransaction.scan args).
Proof.
  unfold TupleTransaction.scan, TupleTransaction.this; cbv zeta.
  repeat invariant_step.
Qed.

Lemma invariant_get (tuple : Tuple) :
  preserves (onTransaction P) (TupleTransaction.get tuple).
Proof.
  unfold TupleTransaction.get, TupleTransaction.this; cbv zeta.
  repeat invariant_step.
Qed.

Lemma invariant_exists (tuple : Tuple) :
  preserves (onTransaction P) (TupleTransaction.exists_ tuple).
Proof.
  unfold TupleTransaction.exists_, TupleTransaction.this; cbv zeta.
  repeat invariant_step.
Qed.

Lemma invariant_commit : preserves (onTransaction P) TupleTransaction.commit.
Proof.
  unfold TupleTransaction.commit, TupleTransaction.this.
  repeat invariant_step. apply preserves_update. auto.
Qed.

Lemma invariant_cancel : preserves (onTransaction P) TupleTransaction.cancel.
Proof.
  unfold TupleTransaction.cancel, TupleTransaction.this.
  repeat invariant_step. apply preserves_update. auto.
Qed.

Lemma invariant_subspace (prefix : Tuple) :
  preserves (onTransaction P) (TupleTransaction.subspace (DB := DB) prefix).
Proof. unfold TupleTransaction.subspace. repeat invariant_step. Qed.

Lemma invariant_invoke (object : TxObject) (call : TxCall) :
  preserves (onTransaction P) (invoke object call).
Proof.
  destruct object as [|view], call; unfold invoke, returning;
    (first [ apply preserves_ret
           | apply preserves_bind; [|intro; apply preserves_ret] ]);
    unfold TupleTransactionSubspace.scan, TupleTransactionSubspace.get,
      TupleTransactionSubspace.exists_, TupleTransactionSubspace.set,
      TupleTransactionSubspace.remove, TupleTransactionSubspace.write,
      TupleTransactionSubspace.commit, TupleTransactionSubspace.cancel,
      TupleTransactionSubspace.set, TupleTransactionSubspace.remove;
    cbv zeta; simpl;
    repeat first
      [ apply invariant_scan | apply invariant_get | apply invariant_exists
      | apply invariant_set | apply invariant_remove | apply invariant_write
      | apply invariant_commit | apply invariant_cancel
      | apply invariant_subspace | invariant_step ].
Qed.

Lemma invariant_runCalls (calls : list (TxObject * TxCall))
    (s : @TupleTransaction.State DB) :
  onTransaction P s -> onTransaction P (runCalls calls s).
Proof.
  revert s. induction calls as [|c calls IH]; intros s Hs; simpl; auto.
  apply IH. now apply invariant_invoke.
Qed.
End TransactionInvariants.

Section TransactionInvariantFacts.
Context {DB : Type} {api : TupleDatabaseApi DB}.

(** X5. Nothing done through a transaction or its views changes the
    transaction's [id] or its [subspacePrefix]: they are, after any
    calls, the ones the client gave it in [transact]. *)
Theorem transaction_keeps_id_and_prefix (client : TupleDatabaseClient.t)
    (txId : option TxId) (randomId : TxId) (db : DB)
    (calls : list (TxObject * TxCall)) :
  let tx := TupleDatabaseClient.transact client txId randomId in
  let tx' := fst (runCalls calls (tx, db)) in
  TupleTransaction.id tx' = TupleTransaction.id tx
  /\ TupleTransaction.subspacePrefix tx'
     = TupleDatabaseClient.subspacePrefix client.
Proof.
  intros tx tx'.
  apply (@invariant_runCalls _ _
           (fun t => TupleTransaction.id t = TupleTransaction.id tx
                     /\ TupleTransaction.subspacePrefix t
                        = TupleDatabaseClient.subspacePrefix client));
    try (intros; assumption).
  split; reflexivity.
Qed.

(** The prefix of a transaction stays, and so does this: every buffered
    key starts with it. *)
Lemma runCalls_in_subspace (prefix : Tuple) (id : TxId) (db : DB)
    (calls : list (TxObject * TxCall)) :
  let tx' := fst (runCalls calls (TupleTransaction.new prefix id, db)) in
  TupleTransaction.subspacePrefix tx' = prefix
  /\ forall T,
       In T (map key (Writes.set (TupleTransaction.writes tx')))
       \/ In T (Writes.remove (TupleTransaction.writes tx')) ->
       exists tuple, T = prefix ++ tuple.
Proof.
  apply (@invariant_runCalls _ _
           (fun t =>
              TupleTransaction.subspacePrefix t = prefix
              /\ forall T,
                   In T (map key (Writes.set (TupleTransaction.writes t)))
                   \/ In T (Writes.remove (TupleTransaction.writes t)) ->
                   exists tuple, T = prefix ++ tuple)).
  - intros t T v _ [Hp Hin]. split; [exact Hp|]. simpl.
    intros T' [H'|H'].
    + rewrite tv_set_byKey in H'. apply in_map_iff in H' as (y & <- & Hy).
      apply sortedSet_In_inv in Hy as [->|Hy].
      * simpl. rewrite Hp. now exists T.
      * apply Hin. left. now apply in_map.
    + rewrite t_remove_byKey in H'. apply sortedRemove_In_inv in H'.
      apply Hin. now right.
  - intros t T _ [Hp Hin]. split; [exact Hp|]. simpl.
    intros T' [H'|H'].
    + rewrite tv_remove_byKey in H'. apply in_map_iff in H' as (y & <- & Hy).
      apply sortedRemove_In_inv in Hy. apply Hin. left. now apply in_map.
    + rewrite t_set_byKey in H'. apply sortedSet_In_inv in H' as [->|Hy].
      * rewrite Hp. now exists T.
      * apply Hin. now right.
  - intros t H. exact H.
  - intros t H. exact H.
  - split; [reflexivity|]. simpl. intros T [[]|[]].
Qed.

(** X6. A transaction never buffers a key outside the subspace of the
    client that opened it: after any calls on the transaction and its
    views, every key of [writes.set] and every tuple of [writes.remove]
    starts with the client's [subspacePrefix]. *)
Theorem writes_stay_in_subspace (client : TupleDatabaseClient.t)
    (txId : option TxId) (randomId : TxId) (db : DB)
    (calls : list (TxObject * TxCall)) :
  let tx := TupleDatabaseClient.transact client txId randomId in
  let w := TupleTransaction.writes (fst (runCalls calls (tx, db))) in
  forall T,
    In T (map key (Writes.set w)) \/ In T (Writes.remove w) ->
    exists tuple, T = TupleDatabaseClient.subspacePrefix client ++ tuple.
Proof.
  intros tx w. unfold w, tx, TupleDatabaseClient.transact.
  apply runCalls_in_subspace.
Qed.
End TransactionInvariantFacts.

(** ** A transaction that is over *)

Section ClosedTransactionFacts.
Context {DB : Type} {api : TupleDatabaseApi DB}.

Lemma returning_closed (A : Type) (wrap : A -> TxReturn)
    (m : M (@TupleTransaction.State DB) A) (s : @TupleTransaction.State DB)
    (error : JsError) :
  m s = (Throws error, s) -> returning wrap m s = (Throws error, s).
Proof. intros H. unfold returning, bind. now rewrite H. Qed.

(** A loop whose body throws and changes nothing: it throws at its first
    item, if it has one. *)
Lemma forEach_rejected (S A : Type) (items : list A) (body : A -> M S unit)
    (s : S) (error : JsError) :
  (forall x, body x s = (Throws error, s)) ->
  forEach items body s
  = match items with
    | [] => (Ok tt, s)
    | _ :: _ => (Throws error, s)
    end.
Proof.
  intros Hbody. destruct items as [|x items]; [reflexivity|].
  simpl. unfold bind. now rewrite Hbody.
Qed.

(** What the methods of a view do on a transaction that is over. *)
Lemma view_write_closed (view : TupleTransactionSubspace.t)
    (batch : Writes.t) (tx : TupleTransaction.t) (d : DB) :
  isActive tx = false ->
  TupleTransactionSubspace.write view batch (tx, d)
  = match Writes.remove batch, Writes.set batch with
    | [], [] => (Ok tt, (tx, d))
    | _, _ => (Throws (closedError tx), (tx, d))
    end.
Proof.
  intros Hclosed. unfold TupleTransactionSubspace.write, bind.
  rewrite (@forEach_rejected _ _ (Writes.remove batch) _ (tx, d)
             (closedError tx)).
  - destruct (Writes.remove batch); [|reflexivity].
    rewrite (@forEach_rejected _ _ (Writes.set batch) _ (tx, d)
               (closedError tx)); [reflexivity|].
    intros x. unfold TupleTransactionSubspace.set. simpl.
    unfold TupleTransaction.set. now apply guarded_closed.
  - intros x. unfold TupleTransactionSubspace.remove. simpl.
    unfold TupleTransaction.remove. now apply guarded_closed.
Qed.

Lemma view_scan_closed (view : TupleTransactionSubspace.t)
    (args : ScanArgs.t) (tx : TupleTransaction.t) (d : DB) :
  isActive tx = false ->
  TupleTransactionSubspace.scan view args (tx, d)
  = (Throws (closedError tx), (tx, d)).
Proof.
  intros Hclosed. unfold TupleTransactionSubspace.scan, bind. simpl.
  unfold TupleTransaction.scan. now rewrite guarded_closed.
Qed.

(** A call through a transaction that is over, or through a view of it,
    changes neither the transaction nor the engine. *)
Lemma invoke_closed (object : TxObject) (call : TxCall)
    (s : @TupleTransaction.State DB) :
  isActive (fst s) = false -> snd (invoke object call s) = s.
Proof.
  destruct s as [tx d]. simpl. intros Hclosed.
  destruct object as [|view], call; simpl;
    try (erewrite returning_closed; [reflexivity|];
         first [ now apply guarded_closed
               | now apply view_scan_closed ]).
  - unfold returning, bind. rewrite view_write_closed by exact Hclosed.
    now destruct (Writes.remove writes), (Writes.set writes).
  - reflexivity.
Qed.

(** X7. Once a transaction is committed or canceled, no sequence of calls
    on it and on its views changes it (its flags and its buffered writes
    stay as they are) or reaches the engine: there is no way back to an
    active transaction. *)
Theorem closed_transaction_is_inert (calls : list (TxObject * TxCall))
    (s : @TupleTransaction.State DB) :
  isActive (fst s) = false -> runCalls calls s = s.
Proof.
  intros Hclosed. induction calls as [|c calls IH]; [reflexivity|].
  unfold runCalls in *. simpl. now rewrite invoke_closed.
Qed.

(** X8. On a transaction that is over, the methods of a view throw the
    error of [checkActive] of the transaction, with two exceptions, which
    do not check: [write] of a batch with nothing to remove and nothing to
    set returns, and [subspace] returns the nested view.  [write] of
    the root transaction throws for every batch. *)
Theorem view_calls_on_closed_transaction (view : TupleTransactionSubspace.t)
    (tx : TupleTransaction.t) (d : DB) :
  isActive tx = false ->
  let rejected (A : Type) (m : M (@TupleTransaction.State DB) A) :=
    m (tx, d) = (Throws (closedError tx), (tx, d)) in
  (forall args, rejected _ (TupleTransactionSubspace.scan view args))
  /\ (forall tuple, rejected _ (TupleTransactionSubspace.get view tuple))
  /\ (forall tuple, rejected _ (TupleTransactionSubspace.exists_ view tuple))
  /\ (forall tuple v, rejected _ (TupleTransactionSubspace.set view tuple v))
  /\ (forall tuple, rejected _ (TupleTransactionSubspace.remove view tuple))
  /\ rejected _ TupleTransactionSubspace.commit
  /\ rejected _ TupleTransactionSubspace.cancel
  /\ (forall batch,
        TupleTransactionSubspace.write view batch (tx, d)
        = match Writes.remove batch, Writes.set batch with
          | [], [] => (Ok tt, (tx, d))
          | _, _ => (Throws (closedError tx), (tx, d))
          end)
  /\ (forall batch, rejected _ (TupleTransaction.write batch))
  /\ (forall prefix,
        invoke (View view) (CallSubspace prefix) (tx, d)
        = (Ok (RetTx (View (TupleTransactionSubspace.mk
                              (TupleTransactionSubspace.subspacePrefix view
                               ++ prefix)))),
           (tx, d))).
Proof.
  intros Hclosed rejected. unfold rejected.
  repeat split; intros;
    first [ now apply view_scan_closed
          | now apply view_write_closed
          | now apply guarded_closed ].
Qed.
End ClosedTransactionFacts.

(** ** Buffering is local, reading leaves the buffers *)

Section LocalityFacts.
Context {DB : Type} {api : TupleDatabaseApi DB}.

Lemma checkActive_state (s : @TupleTransaction.State DB) :
  snd (TupleTransaction.checkActive s) = s.
Proof.
  destruct s as [tx d]. destruct (isActive tx) eqn:H.
  - now rewrite checkActive_active.
  - now rewrite checkActive_closed.
Qed.

Lemma preserves_checkActive_any (Inv : @TupleTransaction.State DB -> Prop) :
  preserves Inv TupleTransaction.checkActive.
Proof. intros s H. now rewrite checkActive_state. Qed.

Lemma engine_set (d0 : DB) (tuple : Tuple) (v : Any) :
  preserves (fun s => snd s = d0) (TupleTransaction.set (DB := DB) tuple v).
Proof.
  intros [tx d] H. rewrite set_unfold. now destruct (isActive tx).
Qed.

Lemma engine_remove (d0 : DB) (tuple : Tuple) :
  preserves (fun s => snd s = d0) (TupleTransaction.remove (DB := DB) tuple).
Proof.
  intros [tx d] H. rewrite remove_unfold. now destruct (isActive tx).
Qed.

Lemma engine_write (d0 : DB) (batch : Writes.t) :
  preserves (fun s => snd s = d0) (TupleTransaction.write (DB := DB) batch).
Proof.
  unfold TupleTransaction.write.
  apply preserves_bind; [apply preserves_checkActive_any|intros _].
  apply preserves_bind; [|intros _];
    apply preserves_forEach; intro;
    [apply engine_remove|apply engine_set].
Qed.

Lemma engine_view_write (d0 : DB) (view : TupleTransactionSubspace.t)
    (batch : Writes.t) :
  preserves (fun s => snd s = d0)
    (TupleTransactionSubspace.write (S := @TupleTransaction.State DB)
       view batch).
Proof.
  unfold TupleTransactionSubspace.write.
  apply preserves_bind; [|intros _];
    apply preserves_forEach; intro;
    [apply engine_remove|apply engine_set].
Qed.

Lemma transaction_scan (tx0 : TupleTransaction.t) (args : ScanArgs.t) :
  preserves (onTransaction (eq tx0)) (TupleTransaction.scan args).
Proof.
  unfold TupleTransaction.scan, TupleTransaction.this; cbv zeta.
  repeat invariant_step.
Qed.

Lemma transaction_get (tx0 : TupleTransaction.t) (tuple : Tuple) :
  preserves (onTransaction (eq tx0)) (TupleTransaction.get tuple).
Proof.
  unfold TupleTransaction.get, TupleTransaction.this; cbv zeta.
  repeat invariant_step.
Qed.

Lemma transaction_exists (tx0 : TupleTransaction.t) (tuple : Tuple) :
  preserves (onTransaction (eq tx0)) (TupleTransaction.exists_ tuple).
Proof.
  unfold TupleTransaction.exists_, TupleTransaction.this; cbv zeta.
  repeat invariant_step.
Qed.

(** X9. Buffering is local and reading leaves the buffers alone: [set],
    [remove], [write] and [subspace], on a transaction or on a view of it,
    never change the engine, whether they return or throw; [scan], [get]
    and [exists] never change the transaction object. *)
Theorem writes_are_local_reads_keep_buffers (object : TxObject)
    (s : @TupleTransaction.State DB) :
  (forall tuple v, snd (snd (invoke object (CallSet tuple v) s)) = snd s)
  /\ (forall tuple, snd (snd (invoke object (CallRemove tuple) s)) = snd s)
  /\ (forall batch, snd (snd (invoke object (CallWrite batch) s)) = snd s)
  /\ (forall prefix, snd (snd (invoke object (CallSubspace prefix) s)) = snd s)
  /\ (forall args, fst (snd (invoke object (CallScan args) s)) = fst s)
  /\ (forall tuple, fst (snd (invoke object (CallGet tuple) s)) = fst s)
  /\ (forall tuple, fst (snd (invoke object (CallExists tuple) s)) = fst s).
Proof.
  assert (Hengine : forall call,
            preserves (fun s' => snd s' = snd s)
              (match call with
               | CallSet _ _ | CallRemove _ | CallWrite _ | CallSubspace _ =>
                   invoke object call
               | _ => ret RetVoid
               end)).
  { intros call.
    destruct object as [|view], call; try apply preserves_ret;
      unfold invoke, returning;
      (first [ apply preserves_ret
             | apply preserves_bind; [|intro; apply preserves_ret] ]);
      first [ apply engine_set | apply engine_remove | apply engine_write
            | apply engine_view_write
            | unfold TupleTransaction.subspace;
              apply preserves_bind;
              [apply preserves_checkActive_any|intro; apply preserves_ret] ]. }
  assert (Htx : forall call,
            preserves (onTransaction (eq (fst s)))
              (match call with
               | CallScan _ | CallGet _ | CallExists _ => invoke object call
               | _ => ret RetVoid
               end)).
  { intros call.
    destruct object as [|view], call; try apply preserves_ret;
      unfold invoke, returning;
      (apply preserves_bind; [|intro; apply preserves_ret]);
      unfold TupleTransactionSubspace.scan, TupleTransactionSubspace.get,
        TupleTransactionSubspace.exists_; cbv zeta; simpl;
      repeat first
        [ apply transaction_scan | apply transaction_get
        | apply transaction_exists | invariant_step ]. }
  repeat split; intros.
  - exact (Hengine (CallSet tuple v) s eq_refl).
  - exact (Hengine (CallRemove tuple) s eq_refl).
  - exact (Hengine (CallWrite batch) s eq_refl).
  - exact (Hengine (CallSubspace prefix) s eq_refl).
  - symmetry. exact (Htx (CallScan args) s eq_refl).
  - symmetry. exact (Htx (CallGet tuple) s eq_refl).
  - symmetry. exact (Htx (CallExists tuple) s eq_refl).
Qed.
End LocalityFacts.

(** ** The end of a transaction *)

Section ClosingFacts.
Context {DB : Type} {api : TupleDatabaseApi DB}.

(** X10. [cancel] on an active transaction marks it canceled and then
    calls the engine's [cancel] with the transaction's id: it returns or
    throws what that call does, the buffered writes are never handed to
    the engine and stay in the object, and from then on every method
    throws "Transaction already canceled", also when the engine's
    [cancel] has thrown. *)
Theorem cancel_closes_before_engine_cancel (tx : TupleTransaction.t) (d : DB) :
  isActive tx = true ->
  let out := TupleTransaction.cancel (tx, d) in
  let canceled := db_cancel (TupleTransaction.id tx) d in
  let tx' := fst (snd out) in
  let rejected (A : Type) (m : M (@TupleTransaction.State DB) A) :=
    m (snd out) = (Throws (Error "Transaction already canceled"), snd out) in
  fst out = fst canceled
  /\ snd (snd out) = snd canceled
  /\ TupleTransaction.canceled tx' = true
  /\ TupleTransaction.committed tx' = false
  /\ TupleTransaction.writes tx' = TupleTransaction.writes tx
  /\ rejected _ TupleTransaction.commit
  /\ rejected _ TupleTransaction.cancel
  /\ (forall args, rejected _ (TupleTransaction.scan args))
  /\ (forall tuple, rejected _ (TupleTransaction.get tuple))
  /\ (forall tuple, rejected _ (TupleTransaction.exists_ tuple))
  /\ (forall tuple v, rejected _ (TupleTransaction.set tuple v))
  /\ (forall tuple, rejected _ (TupleTransaction.remove tuple))
  /\ (forall writes, rejected _ (TupleTransaction.write writes))
  /\ (forall prefix, rejected _ (TupleTransaction.subspace prefix)).
Proof.
  intros Hactive out canceled tx' rejected.
  assert (Hcommitted : TupleTransaction.committed tx = false).
  { unfold isActive in Hactive. now destruct (TupleTransaction.committed tx). }
  unfold rejected, tx', out, canceled.
  rewrite cancel_unfold by exact Hactive. cbv zeta.
  destruct (db_cancel (TupleTransaction.id tx) d) as [r d'] eqn:E. simpl.
  assert (Hclosed : forall (A : Type)
                      (rest : unit -> M (@TupleTransaction.State DB) A),
            bind TupleTransaction.checkActive rest
              (TupleTransaction.mk (TupleTransaction.subspacePrefix tx)
                 (TupleTransaction.id tx) (TupleTransaction.committed tx) true
                 (TupleTransaction.writes tx), d')
            = (Throws (Error "Transaction already canceled"),
               (TupleTransaction.mk (TupleTransaction.subspacePrefix tx)
                  (TupleTransaction.id tx) (TupleTransaction.committed tx) true
                  (TupleTransaction.writes tx), d'))).
  { intros A rest. rewrite guarded_closed.
    - unfold closedError. simpl. now rewrite Hcommitted.
    - unfold isActive. simpl. apply andb_false_r. }
  repeat split; try assumption; intros; apply Hclosed.
Qed.

(** X11. What [commit] submits: on an active transaction, in any state
    its API can bring it to, [commit] hands the engine the transaction's id
    and its buffers, and these are well formed: [writes.set] is strictly
    sorted by key (no key twice), [writes.remove] is strictly sorted, and
    no tuple is in both. *)
Theorem commit_submits_well_formed_batch (subspacePrefix : Tuple) (id : TxId)
    (db : DB) (before : list (TxObject * TxCall)) :
  let s := stateAfter subspacePrefix id db before in
  isActive (fst s) = true ->
  let w := TupleTransaction.writes (fst s) in
  let submitted := db_commit w (Some id) (snd s) in
  fst (TupleTransaction.commit s) = fst submitted
  /\ snd (snd (TupleTransaction.commit s)) = snd submitted
  /\ sortedBy key (Writes.set w)
  /\ sortedBy (fun tuple => tuple) (Writes.remove w)
  /\ (forall T, ~ (In T (map key (Writes.set w)) /\ In T (Writes.remove w))).
Proof.
  intros s Hactive w submitted.
  pose proof (stateAfter_writesOk subspacePrefix id db before) as Hok.
  assert (Hid : TupleTransaction.id (fst s) = id).
  { apply (@invariant_runCalls _ _ (fun t => TupleTransaction.id t = id));
      try (intros; assumption).
    reflexivity. }
  fold s in Hok. fold w in Hok. destruct Hok as (Hset & Hremove & Hdisjoint).
  unfold submitted, w in *. destruct s as [tx d]. simpl in *.
  rewrite commit_unfold by exact Hactive. cbv zeta. rewrite Hid.
  destruct (db_commit (TupleTransaction.writes tx) (Some id) d) as [r d'].
  repeat split; assumption.
Qed.
End ClosingFacts.

(** ** Views of a transaction *)

Section ViewFacts.
Context {DB : Type} {api : TupleDatabaseApi DB}.

(** X12. Views compose: on an active transaction [tx], in any state its API
    can bring it to, the view [tx.subspace(p).subspace(q)] buffers
    [set(t, v)] under the key [tx.subspacePrefix ++ p ++ q ++ t], and the
    value is read back through that view at [t], through the view
    [tx.subspace(p)] at [q ++ t] and through [tx] at [p ++ q ++ t]; after
    [remove(t)] through the view, all three read [undefined]. *)
Theorem nested_view_reads_own_write (subspacePrefix : Tuple) (id : TxId)
    (db : DB) (before : list (TxObject * TxCall)) (p q tuple : Tuple)
    (v : Any) :
  let s := stateAfter subspacePrefix id db before in
  isActive (fst s) = true ->
  let outer := TupleTransactionSubspace.mk p in
  let view := TupleTransactionSubspace.subspace outer q in
  let s1 := snd (TupleTransactionSubspace.set view tuple v s) in
  let s2 := snd (TupleTransactionSubspace.remove view tuple s) in
  TupleTransaction.subspace p s = (Ok outer, s)
  /\ In (mkPair (TupleTransaction.subspacePrefix (fst s) ++ p ++ q ++ tuple) v)
        (Writes.set (TupleTransaction.writes (fst s1)))
  /\ TupleTransactionSubspace.get view tuple s1 = (Ok v, s1)
  /\ TupleTransactionSubspace.exists_ view tuple s1 = (Ok true, s1)
  /\ TupleTransactionSubspace.get outer (q ++ tuple) s1 = (Ok v, s1)
  /\ TupleTransaction.get (p ++ q ++ tuple) s1 = (Ok v, s1)
  /\ In (TupleTransaction.subspacePrefix (fst s) ++ p ++ q ++ tuple)
        (Writes.remove (TupleTransaction.writes (fst s2)))
  /\ TupleTransactionSubspace.get view tuple s2 = (Ok undefined, s2)
  /\ TupleTransactionSubspace.exists_ view tuple s2 = (Ok false, s2)
  /\ TupleTransactionSubspace.get outer (q ++ tuple) s2 = (Ok undefined, s2)
  /\ TupleTransaction.get (p ++ q ++ tuple) s2 = (Ok undefined, s2).
Proof.
  intros s Hactive outer view s1 s2.
  pose proof (stateAfter_writesOk subspacePrefix id db before) as Hok.
  fold s in Hok. destruct Hok as (Hsorted & _).
  assert (Hreads :
            let s1 := snd (TupleTransaction.set (p ++ q ++ tuple) v s) in
            let s2 := snd (TupleTransaction.remove (p ++ q ++ tuple) s) in
            TupleTransaction.get (p ++ q ++ tuple) s1 = (Ok v, s1)
            /\ TupleTransaction.exists_ (p ++ q ++ tuple) s1 = (Ok true, s1)
            /\ TupleTransaction.get (p ++ q ++ tuple) s2 = (Ok undefined, s2)
            /\ TupleTransaction.exists_ (p ++ q ++ tuple) s2 = (Ok false, s2)).
  { destruct s as [tx d]. now apply reads_after_writes. }
  cbv zeta in Hreads. destruct Hreads as (Hget1 & Hex1 & Hget2 & Hex2).
  assert (Eset : TupleTransactionSubspace.set view tuple v s
                 = TupleTransaction.set (p ++ q ++ tuple) v s).
  { unfold TupleTransactionSubspace.set, view, outer. simpl.
    unfold prependPrefixToTuple. now rewrite <- app_assoc. }
  assert (Eremove : TupleTransactionSubspace.remove view tuple s
                    = TupleTransaction.remove (p ++ q ++ tuple) s).
  { unfold TupleTransactionSubspace.remove, view, outer. simpl.
    unfold prependPrefixToTuple. now rewrite <- app_assoc. }
  assert (Eget : forall s', TupleTransactionSubspace.get view tuple s'
                            = TupleTransaction.get (p ++ q ++ tuple) s').
  { intros s'. unfold TupleTransactionSubspace.get, view, outer. simpl.
    unfold prependPrefixToTuple. now rewrite <- app_assoc. }
  assert (Eexists : forall s', TupleTransactionSubspace.exists_ view tuple s'
                               = TupleTransaction.exists_ (p ++ q ++ tuple) s').
  { intros s'. unfold TupleTransactionSubspace.exists_, view, outer. simpl.
    unfold prependPrefixToTuple. now rewrite <- app_assoc. }
  unfold s1, s2. rewrite Eset, Eremove, !Eget, !Eexists.
  repeat split; try assumption.
  - unfold TupleTransaction.subspace. destruct s as [tx d].
    now rewrite guarded_active.
  - destruct s as [tx d]. simpl in Hactive. rewrite set_unfold, Hactive.
    cbv zeta. simpl. rewrite tv_set_byKey. apply sortedSet_In_item.
  - destruct s as [tx d]. simpl in Hactive. rewrite remove_unfold, Hactive.
    cbv zeta. simpl. rewrite t_set_byKey. apply sortedSet_In_item.
Qed.
End ViewFacts.

(** ** The client *)

Section ClientFacts.
Context {DB : Type} {api : TupleDatabaseApi DB}.

Lemma sortedScan_nil (A K : Type) (cmp : A -> K -> comparison)
    (gt gte lt lte : option K) (limit : option nat) :
  sortedScan cmp [] gt gte lt lte limit = [].
Proof.
  unfold sortedScan, applyLimit. rewrite skipn_nil, firstn_nil.
  destruct limit; [apply firstn_nil|reflexivity].
Qed.

(** The scan [get] and [exists] of a client make. *)
Lemma normalize_point (prefix tuple : Tuple) :
  normalizeSubspaceScanArgs prefix (pointScanArgs tuple)
  = pointStorageArgs (prependPrefixToTuple prefix tuple).
Proof. reflexivity. Qed.

Lemma client_get_unfold (client : TupleDatabaseClient.t) (tuple : Tuple)
    (txId : option TxId) (d : DB) :
  TupleDatabaseClient.get client tuple txId d =
  match db_scan
          (pointStorageArgs
             (prependPrefixToTuple (TupleDatabaseClient.subspacePrefix client)
                tuple)) txId d with
  | (Ok [], d') => (Ok undefined, d')
  | (Ok [pair0], d') => (Ok (value pair0), d')
  | (Ok (_ :: _ :: _), d') => (Throws (Error "Get expects only one value."), d')
  | (Throws error, d') => (Throws error, d')
  end.
Proof.
  unfold TupleDatabaseClient.get, TupleDatabaseClient.scan, bind.
  rewrite normalize_point.
  now destruct (db_scan _ txId d) as [[[|p [|q items]]|e] d'].
Qed.

Lemma client_exists_unfold (client : TupleDatabaseClient.t) (tuple : Tuple)
    (txId : option TxId) (d : DB) :
  TupleDatabaseClient.exists_ client tuple txId d =
  match db_scan
          (pointStorageArgs
             (prependPrefixToTuple (TupleDatabaseClient.subspacePrefix client)
                tuple)) txId d with
  | (Ok [], d') => (Ok false, d')
  | (Ok (_ :: _), d') => (Ok true, d')
  | (Throws error, d') => (Throws error, d')
  end.
Proof.
  unfold TupleDatabaseClient.exists_, TupleDatabaseClient.scan, bind.
  rewrite normalize_point.
  now destruct (db_scan _ txId d) as [[[|p items]|e] d'].
Qed.

(** X13. Subspaces of a client compose: [client.subspace(p)] reads the
    tuple [t] where [client] reads [p ++ t], for [get] and for [exists],
    and commits the batch [w] as [client] commits [w] with [p] prepended
    to every key. *)
Theorem client_subspace_composes (client : TupleDatabaseClient.t)
    (p : Tuple) (txId : option TxId) (d : DB) :
  let sub := TupleDatabaseClient.subspace client p in
  (forall tuple,
     TupleDatabaseClient.get sub tuple txId d
     = TupleDatabaseClient.get client (p ++ tuple) txId d)
  /\ (forall tuple,
        TupleDatabaseClient.exists_ sub tuple txId d
        = TupleDatabaseClient.exists_ client (p ++ tuple) txId d)
  /\ (forall w,
        TupleDatabaseClient.commit sub w txId d
        = TupleDatabaseClient.commit client (prependPrefixToWrites p w) txId d).
Proof.
  intros sub. repeat split.
  - intros tuple. rewrite !client_get_unfold. unfold sub. simpl.
    unfold prependPrefixToTuple. now rewrite <- app_assoc.
  - intros tuple. rewrite !client_exists_unfold. unfold sub. simpl.
    unfold prependPrefixToTuple. now rewrite <- app_assoc.
  - intros w. unfold TupleDatabaseClient.commit, sub. simpl.
    f_equal. unfold prependPrefixToWrites, prependPrefixToTuple. simpl.
    rewrite !map_map. f_equal.
    + apply map_ext. intros pair0. simpl. now rewrite <- app_assoc.
    + apply map_ext. intros T. now rewrite <- app_assoc.
Qed.

(** X14. [exists] of a client against its [get].  Both make the same
    scan and leave the engine in the same state.  [exists] returns [true]
    where [get] returns a value that is not [undefined]; where [exists]
    returns [false], [get] returns [undefined]; an error [exists] throws
    is the engine's, and [get] throws it too.  They part in two cases.
    When the engine returns more than one pair, [get] throws "Get expects
    only one value." and [exists] returns [true]; this is the only error
    of [get] that [exists] does not throw.  And [get] returns [undefined]
    while [exists] returns [true] exactly when the engine returns one
    pair and its value is [undefined]. *)
Theorem client_exists_agrees_with_get (client : TupleDatabaseClient.t)
    (tuple : Tuple) (txId : option TxId) (d : DB) :
  let got := TupleDatabaseClient.get client tuple txId d in
  let found := TupleDatabaseClient.exists_ client tuple txId d in
  let scanned :=
    db_scan
      (pointStorageArgs
         (prependPrefixToTuple (TupleDatabaseClient.subspacePrefix client)
            tuple)) txId d in
  snd found = snd got
  /\ (forall v, fst got = Ok (defined v) -> fst found = Ok true)
  /\ (fst found = Ok false -> fst got = Ok undefined)
  /\ (forall error, fst found = Throws error ->
        fst got = Throws error /\ fst scanned = Throws error)
  /\ (forall p q items,
        fst scanned = Ok (p :: q :: items) ->
        fst got = Throws (Error "Get expects only one value.")
        /\ fst found = Ok true)
  /\ (forall error, fst got = Throws error ->
        fst found = Throws error
        \/ (fst found = Ok true
            /\ error = Error "Get expects only one value."
            /\ exists p q items, fst scanned = Ok (p :: q :: items)))
  /\ (fst got = Ok undefined ->
      (fst found = Ok true
       <-> exists p, fst scanned = Ok [p] /\ value p = undefined)).
Proof.
  intros got found scanned. unfold got, found, scanned.
  rewrite client_get_unfold, client_exists_unfold.
  destruct (db_scan _ txId d) as [[[|p [|q items]]|e] d']; simpl.
  - split; [reflexivity|]. split; [discriminate|].
    split; [reflexivity|]. split; [discriminate|].
    split; [discriminate|]. split; [discriminate|].
    intros _. split; [discriminate|]. intros (p & E & _). discriminate.
  - split; [reflexivity|]. split; [reflexivity|].
    split; [discriminate|]. split; [discriminate|].
    split; [discriminate|]. split; [discriminate|].
    intros Hundefined. split.
    + intros _. exists p. split; congruence.
    + reflexivity.
  - split; [reflexivity|]. split; [discriminate|].
    split; [discriminate|]. split; [discriminate|].
    split; [intros p' q' items' _; now split|].
    split; [|discriminate].
    intros error [= <-]. right.
    split; [reflexivity|]. split; [reflexivity|]. now eauto.
  - split; [reflexivity|]. split; [discriminate|].
    split; [discriminate|].
    split; [intros error [= <-]; now split|].
    split; [discriminate|]. split; [|discriminate].
    intros error [= <-]. now left.
Qed.

(** X15. A transaction that has buffered nothing reads what its client
    reads under the transaction's id: [scan], [get] and [exists] of a new
    transaction return what the client's return with [txId] the id of the
    transaction, and leave the engine in the same state. *)
Theorem new_transaction_reads_as_client (client : TupleDatabaseClient.t)
    (txId : option TxId) (randomId : TxId) (d : DB) :
  let tx := TupleDatabaseClient.transact client txId randomId in
  let id := Some (TupleTransaction.id tx) in
  let same (A : Type) (m : M (@TupleTransaction.State DB) A) (c : M DB A) :=
    fst (m (tx, d)) = fst (c d) /\ snd (m (tx, d)) = (tx, snd (c d)) in
  (forall args,
     same _ (TupleTransaction.scan args) (TupleDatabaseClient.scan client args id))
  /\ (forall tuple,
        same _ (TupleTransaction.get tuple)
          (TupleDatabaseClient.get client tuple id))
  /\ (forall tuple,
        same _ (TupleTransaction.exists_ tuple)
          (TupleDatabaseClient.exists_ client tuple id)).
Proof.
  intros tx id same. unfold same.
  assert (Hactive : isActive tx = true) by reflexivity.
  repeat split; intros.
  - rewrite scan_unfold by exact Hactive. cbv zeta.
    unfold TupleDatabaseClient.scan, bind. simpl.
    destruct (db_scan _ _ d) as [[pairs|e] d']; [|reflexivity].
    unfold tv.scan, t.scan. rewrite !sortedScan_nil. reflexivity.
  - rewrite scan_unfold by exact Hactive. cbv zeta.
    unfold TupleDatabaseClient.scan, bind. simpl.
    now destruct (db_scan _ _ d) as [[pairs|e] d'].
  - rewrite get_unfold by exact Hactive. rewrite client_get_unfold.
    cbv zeta. simpl. unfold getFromEngine. simpl.
    now destruct (db_scan _ _ d) as [[[|p [|q items]]|e] d'].
  - rewrite get_unfold by exact Hactive. rewrite client_get_unfold.
    cbv zeta. simpl. unfold getFromEngine. simpl.
    now destruct (db_scan _ _ d) as [[[|p [|q items]]|e] d'].
  - rewrite exists_unfold by exact Hactive. rewrite client_exists_unfold.
    cbv zeta. simpl.
    now destruct (db_scan _ _ d) as [[[|p items]|e] d'].
  - rewrite exists_unfold by exact Hactive. rewrite client_exists_unfold.
    cbv zeta. simpl.
    now destruct (db_scan _ _ d) as [[[|p items]|e] d'].
Qed.
End ClientFacts.

(** ** [transactionalQuery]: the attempts that return *)

Section QueryFacts.
Context {DB : Type} {api : TupleDatabaseApi DB}.
Variables I U O : Type.
Variable randomId : nat -> TxId.

(** The loop leaves at the first call that returns. *)
Lemma retry_returns (W R : Type) (fn : M W R) (retries : Z) (w w' : W)
    (result : R) :
  fn w = (Ok result, w') -> retry retries fn w = (Ok result, w').
Proof. intros H. rewrite retry_step. now rewrite H. Qed.

(** X16. When the user function returns [result] and has left its
    transaction active, the wrapper commits the transaction: the engine's
    [commit] gets the buffered writes and the id, and [result] is what the
    attempt returns, unless the engine's [commit] throws: then that error
    is thrown, and no [cancel] follows.  When [commit] returns,
    [transactionalQuery] returns [result] whatever [retries] is.  When
    the function has closed the transaction itself (it called [commit] or
    [cancel]), the wrapper's [commit] throws the error of [checkActive]
    and the caller gets that error in place of [result]. *)
Theorem returned_attempt_commits_transaction
    (fn : TxObject -> I -> U -> UserFn U O) (client : TupleDatabaseClient.t)
    (args : I) (w : @World DB U) (u : U) (result : O)
    (tx1 : TupleTransaction.t) (d1 : DB) :
  runUserFn (fn Root args (user w))
    (TupleDatabaseClient.transact client None (randomId (draws w)), engine w)
  = ((u, Ok result), (tx1, d1)) ->
  let out := attemptWithTx randomId client fn args w in
  let submitted :=
    db_commit (TupleTransaction.writes tx1) (Some (TupleTransaction.id tx1))
      d1 in
  (isActive tx1 = true ->
     out
     = ((match fst submitted with
         | Ok _ => Ok result
         | Throws error => Throws error
         end,
         TupleTransaction.mk (TupleTransaction.subspacePrefix tx1)
           (TupleTransaction.id tx1) true false (TupleTransaction.writes tx1)),
        mkWorld (snd submitted) (S (draws w)) u)
     /\ (fst submitted = Ok tt ->
         forall retries,
           transactionalQuery randomId retries fn (IsDb client) args w
           = ((Ok result, IsDb client),
              mkWorld (snd submitted) (S (draws w)) u)))
  /\ (isActive tx1 = false ->
      out = ((Throws (closedError tx1), tx1), mkWorld d1 (S (draws w)) u)
      /\ forall retries,
           transactionalQuery randomId retries fn (IsDb client) args w
           = ((Throws (closedError tx1), IsDb client),
              mkWorld d1 (S (draws w)) u)).
Proof.
  intros Hrun out submitted. split.
  - intros Hactive.
    assert (Hout : out
              = ((match fst submitted with
                  | Ok _ => Ok result
                  | Throws error => Throws error
                  end,
                  TupleTransaction.mk (TupleTransaction.subspacePrefix tx1)
                    (TupleTransaction.id tx1) true false
                    (TupleTransaction.writes tx1)),
                 mkWorld (snd submitted) (S (draws w)) u)).
    { unfold out, submitted, attemptWithTx, attemptBody, bind, tryCatch,
        callFn, onTx, throw, ret. simpl. rewrite Hrun. simpl.
      rewrite commit_unfold by exact Hactive. cbv zeta.
      assert (Hx : TupleTransaction.canceled tx1 = false).
      { unfold isActive in Hactive.
        destruct (TupleTransaction.committed tx1); [discriminate|].
        now destruct (TupleTransaction.canceled tx1). }
      rewrite Hx.
      now destruct (db_commit _ _ d1) as [[[]|error'] d2]. }
    split; [exact Hout|].
    intros Hok retries. unfold transactionalQuery.
    erewrite retry_returns; [reflexivity|].
    unfold attempt. fold out. rewrite Hout, Hok. reflexivity.
  - intros Hclosed.
    assert (Hout : out
              = ((Throws (closedError tx1), tx1),
                 mkWorld d1 (S (draws w)) u)).
    { unfold out, attemptWithTx, attemptBody, bind, tryCatch, callFn, onTx,
        throw, ret. simpl. rewrite Hrun. simpl.
      unfold TupleTransaction.commit. rewrite guarded_closed by exact Hclosed.
      reflexivity. }
    split; [exact Hout|].
    intros retries. unfold transactionalQuery.
    erewrite retry_rethrows; [reflexivity| |].
    + unfold attempt. fold out. rewrite Hout. reflexivity.
    + unfold closedError. now destruct (TupleTransaction.committed tx1).
Qed.

(** X17. Handed a transaction (or a view of one) in place of a client,
    [transactionalQuery] runs the user function on that transaction
    exactly once, whatever [retries] is and whatever the function throws,
    a [ReadWriteConflictError] included: it opens no transaction, draws no
    id, and neither commits nor cancels, so that the transaction and the
    engine are as the function left them. *)
Theorem query_on_transaction_runs_once (retries : Z)
    (fn : TxObject -> I -> U -> UserFn U O) (object : TxObject)
    (tx : TupleTransaction.t) (args : I) (w : @World DB U) :
  transactionalQuery randomId retries fn (IsTx object tx) args w
  = match runUserFn (fn object args (user w)) (tx, engine w) with
    | ((u, r), (tx', d')) => ((r, IsTx object tx'), mkWorld d' (draws w) u)
    end
  /\ snd (user (snd (transactionalQuery randomId retries (counting fn)
                       (IsTx object tx) args
                       (mkWorld (engine w) (draws w) (user w, 0)))))
     = 1.
Proof.
  split.
  - unfold transactionalQuery, callFn. simpl.
    now destruct (runUserFn _ _) as [[u r] [tx' d']].
  - unfold transactionalQuery, callFn, counting. simpl.
    rewrite runUserFn_withCount.
    now destruct (runUserFn _ _) as [[u r] [tx' d']].
Qed.

(** X18. With no retries left at the start ([retries] zero or negative),
    [transactionalQuery] over a client makes one attempt: the user
    function is entered exactly once, and what that attempt returns or
    throws, a [ReadWriteConflictError] included, is what the caller
    gets. *)
Theorem no_retries_single_attempt (retries : Z)
    (fn : TxObject -> I -> U -> UserFn U O) (client : TupleDatabaseClient.t)
    (args : I) (w : @World DB U) :
  (retries <= 0)%Z ->
  transactionalQuery randomId retries fn (IsDb client) args w
  = (let (r, w') := attempt randomId client fn args w in
     ((r, IsDb client), w'))
  /\ invocations randomId retries fn client args w = 1.
Proof.
  intros Hr.
  assert (Hone : forall (V : Type) (f : TxObject -> I -> V -> UserFn V O)
                   (w0 : @World DB V),
            retry retries (attempt randomId client f args) w0
            = attempt randomId client f args w0).
  { intros V f w0. rewrite retry_step.
    destruct (attempt randomId client f args w0) as [[r|e] w'];
      [reflexivity|].
    now replace (retries <=? 0)%Z with true by (symmetry; lia). }
  split.
  - unfold transactionalQuery. rewrite Hone.
    now destruct (attempt _ _ _ _ w) as [r w'].
  - unfold invocations, transactionalQuery. rewrite Hone.
    pose proof (@counting_attempt_counts _ _ _ _ _ randomId fn client args
                  (mkWorld (engine w) (draws w) (user w, 0))) as H.
    destruct (attempt _ _ _ _ _) as [r w']. simpl in *. exact H.
Qed.
End QueryFacts.

(** ** The asynchronous transaction, call by call *)

Section AsyncCallFacts.
Context {DB : Type}.

Lemma async_flags (tx : AsyncTupleTransaction.t) :
  isActive (syncTransaction tx) = true ->
  AsyncTupleTransaction.committed tx = false
  /\ AsyncTupleTransaction.canceled tx = false.
Proof.
  unfold isActive, syncTransaction. simpl.
  destruct (AsyncTupleTransaction.committed tx),
    (AsyncTupleTransaction.canceled tx); simpl; intros H;
    try discriminate; now split.
Qed.

(** X19. The asynchronous [commit] closes the transaction at the call,
    not when its promise settles: when the call returns, the transaction
    is marked committed and the engine's [commit] has been called with
    the buffered writes and the id, its promise being the one returned;
    a [set] or a second [commit] made before that promise settles is
    rejected with "Transaction already committed". *)
Theorem async_commit_closes_at_call (api : AsyncTupleDatabaseApi DB)
    (tx : AsyncTupleTransaction.t) (d : DB) :
  isActive (syncTransaction tx) = true ->
  let out := AsyncTupleTransaction.commit (tx, d) in
  let submitted :=
    adb_commit (AsyncTupleTransaction.writes tx)
      (Some (AsyncTupleTransaction.id tx)) d in
  let tx' := fst (snd out) in
  let error := Error "Transaction already committed" in
  AsyncTupleTransaction.committed tx' = true
  /\ AsyncTupleTransaction.writes tx' = AsyncTupleTransaction.writes tx
  /\ snd (snd out) = snd submitted
  /\ fst out = zoom snd (fun d s => (fst s, d)) (fst submitted)
  /\ (forall tuple v,
        AsyncTupleTransaction.set tuple v (snd out) = (Throws error, snd out))
  /\ (forall tuple,
        AsyncTupleTransaction.remove tuple (snd out) = (Throws error, snd out))
  /\ AsyncTupleTransaction.commit (snd out) = (Settled (Throws error), snd out)
  /\ AsyncTupleTransaction.cancel (snd out) = (Settled (Throws error), snd out).
Proof.
  intros Hactive. destruct (async_flags tx Hactive) as [Hc Hx].
  destruct tx as [P i c x w]. simpl in Hc, Hx. subst c x.
  unfold AsyncTupleTransaction.commit, AsyncTupleTransaction.cancel,
    AsyncTupleTransaction.set, AsyncTupleTransaction.remove,
    AsyncTupleTransaction.checkActive, AsyncTupleTransaction.this,
    AsyncTupleTransaction.update, AsyncTupleTransaction.db,
    asyncBind, now, bind, gets, modify, ret, throw. simpl.
  destruct (adb_commit w (Some i) d) as [p d']. simpl.
  repeat split.
Qed.

(** X20. On a transaction that is over, the asynchronous methods return
    a promise that is rejected already, with the error of [checkActive]:
    they do not suspend, and neither the transaction nor the engine has
    changed when the call returns. *)
Theorem async_closed_transaction_rejects_at_call
    (api : AsyncTupleDatabaseApi DB) (tx : AsyncTupleTransaction.t) (d : DB) :
  isActive (syncTransaction tx) = false ->
  let rejected (A : Type) (m : Async (@AsyncTupleTransaction.State DB) A) :=
    m (tx, d) = (Settled (Throws (closedError (syncTransaction tx))), (tx, d)) in
  (forall args, rejected _ (AsyncTupleTransaction.scan args))
  /\ (forall tuple, rejected _ (AsyncTupleTransaction.get tuple))
  /\ (forall tuple, rejected _ (AsyncTupleTransaction.exists_ tuple))
  /\ rejected _ AsyncTupleTransaction.commit
  /\ rejected _ AsyncTupleTransaction.cancel.
Proof.
  intros Hclosed rejected. unfold rejected.
  assert (Hcheck : now AsyncTupleTransaction.checkActive (tx, d)
                   = (Settled (Throws (closedError (syncTransaction tx))),
                      (tx, d))).
  { unfold now, AsyncTupleTransaction.checkActive, AsyncTupleTransaction.this,
      bind, gets, closedError, isActive, syncTransaction in *. simpl in *.
    destruct (AsyncTupleTransaction.committed tx); [reflexivity|].
    destruct (AsyncTupleTransaction.canceled tx); [reflexivity|discriminate]. }
  repeat split; intros;
    unfold AsyncTupleTransaction.scan, AsyncTupleTransaction.get,
      AsyncTupleTransaction.exists_, AsyncTupleTransaction.commit,
      AsyncTupleTransaction.cancel;
    unfold asyncBind at 1; rewrite Hcheck; reflexivity.
Qed.

(** X21. An asynchronous [scan] over a synchronous engine scans the
    engine at the call and reads the buffers when it is resumed: the
    result is the engine's pairs of the time of the call, overlaid with
    the sets and removes the transaction holds at the time of the
    resumption, so that a [set] made while the scan is pending shows in
    its result.  The state of the transaction is not checked again. *)
Theorem async_scan_reads_buffers_when_resumed (sync : TupleDatabaseApi DB)
    (args : ScanArgs.t) (tx : AsyncTupleTransaction.t) (d : DB) :
  isActive (syncTransaction tx) = true ->
  let prefix := AsyncTupleTransaction.subspacePrefix tx in
  let storageScanArgs := normalizeSubspaceScanArgs prefix args in
  let scanned := db_scan storageScanArgs (Some (AsyncTupleTransaction.id tx)) d in
  let out :=
    AsyncTupleTransaction.scan (api := asyncOfSync sync) args (tx, d) in
  snd out = (tx, snd scanned)
  /\ forall s2 : @AsyncTupleTransaction.State DB,
       settle (fst out) s2
       = match fst scanned with
         | Ok pairs =>
             (Ok (overlay (AsyncTupleTransaction.subspacePrefix (fst s2))
                    (tv.scan (Writes.set (AsyncTupleTransaction.writes (fst s2)))
                       storageScanArgs)
                    (t.scan (Writes.remove (AsyncTupleTransaction.writes (fst s2)))
                       storageScanArgs)
                    (removePrefixFromTupleValuePairs prefix pairs)), s2)
         | Throws error => (Throws error, s2)
         end.
Proof.
  intros Hactive. destruct (async_flags tx Hactive) as [Hc Hx].
  destruct tx as [P i c x w]. simpl in Hc, Hx. subst c x.
  unfold AsyncTupleTransaction.scan, AsyncTupleTransaction.checkActive,
    AsyncTupleTransaction.this, AsyncTupleTransaction.db,
    asyncBind, await, now, asyncRet, bind, gets, ret, throw. simpl.
  unfold now.
  destruct (db_scan (normalizeSubspaceScanArgs P args) (Some i) d)
    as [[pairs|error] d1]; simpl; split; try reflexivity; intros s2;
    reflexivity.
Qed.

(** X22. An asynchronous [get] decides on the buffers at the call,
    whatever the engine is: when they hold the tuple (set or removed),
    the promise returned is settled already and the engine is not called;
    when they do not, the engine's [scan] is called at the call, and what
    the promise settles to is made of the pairs that scan settles to
    alone, whatever the transaction has buffered by then: no pair is
    [undefined], one pair is its value, more than one is the error "Get
    expects only one value.", and an error of the scan is thrown
    on. *)
Theorem async_get_decides_at_call (api : AsyncTupleDatabaseApi DB)
    (tuple : Tuple) (tx : AsyncTupleTransaction.t) (d : DB) :
  isActive (syncTransaction tx) = true ->
  let fullTuple :=
    prependPrefixToTuple (AsyncTupleTransaction.subspacePrefix tx) tuple in
  let scanned :=
    adb_scan (pointStorageArgs fullTuple) (Some (AsyncTupleTransaction.id tx))
      d in
  let out := AsyncTupleTransaction.get tuple (tx, d) in
  match buffered (AsyncTupleTransaction.writes tx) fullTuple with
  | Some r => out = (Settled (Ok r), (tx, d))
  | None =>
      snd out = (tx, snd scanned)
      /\ forall s2 : @AsyncTupleTransaction.State DB,
           settle (fst out) s2
           = match settle (fst scanned) (snd s2) with
             | (Ok [], d') => (Ok undefined, (fst s2, d'))
             | (Ok [pair0], d') => (Ok (value pair0), (fst s2, d'))
             | (Ok (_ :: _ :: _), d') =>
                 (Throws (Error "Get expects only one value."), (fst s2, d'))
             | (Throws error, d') => (Throws error, (fst s2, d'))
             end
  end.
Proof.
  intros Hactive. destruct (async_flags tx Hactive) as [Hc Hx].
  destruct tx as [P i c x w]. simpl in Hc, Hx. subst c x.
  unfold AsyncTupleTransaction.get, AsyncTupleTransaction.checkActive,
    AsyncTupleTransaction.this, AsyncTupleTransaction.db, buffered,
    asyncBind, await, now, asyncRet, asyncThrow, bind, gets, ret, throw.
  simpl.
  destruct (tv.exists_ (Writes.set w) (prependPrefixToTuple P tuple));
    [reflexivity|].
  destruct (t.exists_ (Writes.remove w) (prependPrefixToTuple P tuple));
    [reflexivity|].
  destruct (adb_scan (pointStorageArgs (prependPrefixToTuple P tuple))
              (Some i) d) as [p d1] eqn:E.
  simpl. rewrite ?E. simpl. split; [reflexivity|]. intros [tx2 d2]. simpl.
  rewrite settle_andThen, settle_zoom_db.
  destruct (settle p d2) as [[[|pair0 [|q items]]|error] d']; reflexivity.
Qed.
End AsyncCallFacts.

(** ** What a scan returns *)

Section ScanFacts.
Context {DB : Type} {api : TupleDatabaseApi DB}.

Lemma In_firstn (A : Type) (n : nat) (data : list A) (x : A) :
  In x (firstn n data) -> In x data.
Proof.
  intros H. rewrite <- (firstn_skipn n data). apply in_or_app. now left.
Qed.

Lemma In_skipn (A : Type) (n : nat) (data : list A) (x : A) :
  In x (skipn n data) -> In x data.
Proof.
  intros H. rewrite <- (firstn_skipn n data). apply in_or_app. now right.
Qed.

Lemma sortedScan_In (A K : Type) (cmp : A -> K -> comparison)
    (data : list A) (gt gte lt lte : option K) (limit : option nat) (x : A) :
  In x (sortedScan cmp data gt gte lt lte limit) -> In x data.
Proof.
  unfold sortedScan, applyLimit. intros H.
  destruct limit; [apply In_firstn in H|];
    now apply In_firstn, In_skipn in H.
Qed.

(** A pair of the overlay is a pair of the result it started from or
    one of the sets laid over it. *)
Lemma overlay_In (prefix : Tuple) (sets : list KeyValuePair)
    (removes : list Tuple) (result : list KeyValuePair) (p : KeyValuePair) :
  In p (overlay prefix sets removes result) ->
  In p result
  \/ exists pair0,
       In pair0 sets
       /\ p = mkPair (removePrefixFromTuple prefix (key pair0)) (value pair0).
Proof.
  unfold overlay. intros H.
  assert (Hremoves : forall l acc,
            In p (fold_left
                    (fun result fullTuple =>
                       tv.remove result
                         (removePrefixFromTuple prefix fullTuple)) l acc) ->
            In p acc).
  { induction l as [|x l IH]; intros acc Hin; simpl in Hin; [exact Hin|].
    apply IH in Hin. rewrite tv_remove_byKey in Hin.
    now apply sortedRemove_In_inv in Hin. }
  apply Hremoves in H. clear Hremoves. revert result H.
  induction sets as [|x sets IH]; intros result H; simpl in H; [now left|].
  apply IH in H as [H|(pair0 & Hin & ->)].
  - rewrite tv_set_byKey in H. apply sortedSet_In_inv in H as [->|H].
    + right. exists x. split; [now left|reflexivity].
    + now left.
  - right. exists pair0. split; [now right|reflexivity].
Qed.

Lemma removePrefix_prepend (prefix tuple : Tuple) :
  removePrefixFromTuple prefix (prefix ++ tuple) = tuple.
Proof.
  unfold removePrefixFromTuple.
  induction prefix as [|x prefix IH]; [reflexivity|exact IH].
Qed.

(** X23. [scan] invents nothing: on an active transaction, in any state
    its API can bring it to, it scans the engine once, under the
    transaction's id and with the normalised arguments, and throws what
    that scan throws; otherwise every pair it returns is a pair the engine
    returned (its key without the prefix) or a pair [(t, v)] that the
    transaction holds in [writes.set] under the key [prefix ++ t]; and
    when the engine's pairs come sorted by key, so does the result, no
    key twice. *)
Theorem scan_returns_engine_or_buffered_pairs (subspacePrefix : Tuple)
    (id : TxId) (db : DB) (before : list (TxObject * TxCall))
    (args : ScanArgs.t) :
  let s := stateAfter subspacePrefix id db before in
  isActive (fst s) = true ->
  let storageScanArgs := normalizeSubspaceScanArgs subspacePrefix args in
  let scanned := db_scan storageScanArgs (Some id) (snd s) in
  let out := TupleTransaction.scan args s in
  snd out = (fst s, snd scanned)
  /\ match fst scanned with
     | Throws error => fst out = Throws error
     | Ok pairs =>
         exists result,
           fst out = Ok result
           /\ (forall p, In p result ->
                 In p (removePrefixFromTupleValuePairs subspacePrefix pairs)
                 \/ In (mkPair (subspacePrefix ++ key p) (value p))
                      (Writes.set (TupleTransaction.writes (fst s))))
           /\ (sortedBy key
                 (removePrefixFromTupleValuePairs subspacePrefix pairs) ->
               sortedBy key result)
     end.
Proof.
  intros s Hactive storageScanArgs scanned out.
  destruct (runCalls_in_subspace subspacePrefix id db before) as [Hp Hkeys].
  assert (Hid : TupleTransaction.id (fst s) = id).
  { apply (@invariant_runCalls _ _ (fun t => TupleTransaction.id t = id));
      try (intros; assumption).
    reflexivity. }
  fold (stateAfter subspacePrefix id db before) in Hp, Hkeys.
  fold s in Hp, Hkeys.
  unfold out, scanned, storageScanArgs. destruct s as [tx d].
  simpl in Hactive, Hp, Hkeys, Hid. simpl fst. simpl snd.
  rewrite scan_unfold by exact Hactive. cbv zeta. rewrite Hp, Hid.
  destruct (db_scan (normalizeSubspaceScanArgs subspacePrefix args)
              (Some id) d) as [[pairs|error] d']; simpl;
    [|split; reflexivity].
  split; [reflexivity|]. eexists. split; [reflexivity|]. split.
  - intros p Hin. apply overlay_In in Hin as [Hin|(pair0 & Hin & ->)];
      [now left|right].
    apply sortedScan_In in Hin.
    destruct (Hkeys (key pair0)) as [tuple Htuple];
      [left; now apply in_map|].
    simpl. rewrite Htuple, removePrefix_prepend, <- Htuple.
    now destruct pair0.
  - apply overlay_sorted.
Qed.
End ScanFacts.

(** ** The calls a transaction makes to its engine *)

Section RecorderFacts.
Context {DB : Type} {api : TupleDatabaseApi DB}.

Lemma transparent_ret (A : Type) (x : A) :
  transparent (DB := DB) (ret x) (ret x).
Proof. intros s. reflexivity. Qed.

Lemma transparent_throw (A : Type) (error : JsError) :
  transparent (DB := DB) (A := A) (throw error) (throw error).
Proof. intros s. reflexivity. Qed.

Lemma transparent_bind (A B : Type)
    (a : M (TupleTransaction.t * Recorded DB) A)
    (b : M (TupleTransaction.t * DB) A)
    (ka : A -> M (TupleTransaction.t * Recorded DB) B)
    (kb : A -> M (TupleTransaction.t * DB) B) :
  transparent a b -> (forall x, transparent (ka x) (kb x)) ->
  transparent (bind a ka) (bind b kb).
Proof.
  intros Ha Hk s. unfold bind. specialize (Ha s).
  destruct (a s) as [[x|error] s1]; destruct (b (forget s)) as [r s2];
    simpl in Ha; inversion Ha; subst.
  - apply Hk.
  - reflexivity.
Qed.

Lemma transparent_if (A : Type) (c : bool)
    (a1 a2 : M (TupleTransaction.t * Recorded DB) A)
    (b1 b2 : M (TupleTransaction.t * DB) A) :
  transparent a1 b1 -> transparent a2 b2 ->
  transparent (if c then a1 else a2) (if c then b1 else b2).
Proof. now destruct c. Qed.

Lemma transparent_forEach (A : Type) (items : list A)
    (a : A -> M (TupleTransaction.t * Recorded DB) unit)
    (b : A -> M (TupleTransaction.t * DB) unit) :
  (forall x, transparent (a x) (b x)) ->
  transparent (forEach items a) (forEach items b).
Proof.
  intros H. induction items as [|x items IH]; simpl.
  - apply transparent_ret.
  - apply transparent_bind; [apply H|intros _; exact IH].
Qed.

Lemma transparent_this :
  transparent (DB := DB)
    (TupleTransaction.this (DB := Recorded DB)) TupleTransaction.this.
Proof. intros s. reflexivity. Qed.

Lemma transparent_update (f : TupleTransaction.t -> TupleTransaction.t) :
  transparent (DB := DB)
    (TupleTransaction.update (DB := Recorded DB) f) (TupleTransaction.update f).
Proof. intros s. reflexivity. Qed.

Lemma transparent_checkActive :
  transparent (DB := DB)
    (TupleTransaction.checkActive (DB := Recorded DB))
    TupleTransaction.checkActive.
Proof.
  unfold TupleTransaction.checkActive.
  apply transparent_bind; [apply transparent_this|intros tx].
  repeat apply transparent_if;
    first [apply transparent_throw|apply transparent_ret].
Qed.

Lemma transparent_db (A : Type) (call : EngineCall) (m : M DB A) :
  transparent (TupleTransaction.db (recordCall call m)) (TupleTransaction.db m).
Proof.
  intros [tx [log d]]. unfold TupleTransaction.db, recordCall, forget. simpl.
  now destruct (m d) as [r d'].
Qed.

Ltac transparent_step :=
  first
    [ apply transparent_ret | apply transparent_throw
    | apply transparent_checkActive | apply transparent_this
    | apply transparent_update | apply transparent_db
    | apply transparent_if
    | apply transparent_forEach; intro
    | apply transparent_bind; [|intro]
    | match goal with
      | |- transparent (match ?l with [] => _ | _ :: _ => _ end) _ =>
          destruct l
      end ].

Lemma transparent_invoke (object : TxObject) (call : TxCall) :
  transparent (invoke (api := recording api) object call)
    (invoke object call).
Proof.
  destruct object as [|view], call; unfold invoke, returning;
    unfold TupleTransactionSubspace.scan, TupleTransactionSubspace.get,
      TupleTransactionSubspace.exists_, TupleTransactionSubspace.set,
      TupleTransactionSubspace.remove, TupleTransactionSubspace.write,
      TupleTransactionSubspace.commit, TupleTransactionSubspace.cancel,
      TupleTransactionSubspace.subspace;
    cbv zeta; simpl;
    unfold TupleTransaction.scan, TupleTransaction.get,
      TupleTransaction.exists_, TupleTransaction.set, TupleTransaction.remove,
      TupleTransaction.write, TupleTransaction.commit, TupleTransaction.cancel,
      TupleTransaction.subspace;
    cbv zeta; simpl;
    repeat transparent_step.
Qed.

Lemma transparent_runCalls (calls : list (TxObject * TxCall))
    (s : TupleTransaction.t * Recorded DB) :
  forget (runCalls (api := recording api) calls s)
  = runCalls calls (forget s).
Proof.
  revert s. induction calls as [|c calls IH]; intros s; [reflexivity|].
  unfold runCalls in *. simpl. rewrite IH. f_equal.
  pose proof (transparent_invoke (fst c) (snd c) s) as H.
  now rewrite <- H.
Qed.
End RecorderFacts.

Section FootprintFacts.
Context {DB : Type} {api : TupleDatabaseApi DB}.

Lemma returning_state (A : Type) (wrap : A -> TxReturn)
    (m : M (@TupleTransaction.State DB) A) (s : @TupleTransaction.State DB) :
  snd (returning wrap m s) = snd (m s).
Proof. unfold returning, bind, ret. now destruct (m s) as [[x|error] s']. Qed.

Lemma fold_left_mapped (A B C : Type) (f : A -> B -> A) (g : C -> B)
    (items : list C) (a : A) :
  fold_left f (map g items) a = fold_left (fun a x => f a (g x)) items a.
Proof.
  revert a. induction items as [|x items IH]; intros a; [reflexivity|].
  simpl. apply IH.
Qed.

(** What [write] of a view does on an active transaction. *)
Lemma view_write_active (view : TupleTransactionSubspace.t)
    (batch : Writes.t) (tx : TupleTransaction.t) (d : DB) :
  isActive tx = true ->
  TupleTransactionSubspace.write view batch (tx, d)
  = (Ok tt,
     (withWrites tx
        (bufferWrite (TupleTransaction.subspacePrefix tx)
           (TupleTransaction.writes tx)
           (prependPrefixToWrites
              (TupleTransactionSubspace.subspacePrefix view) batch)), d)).
Proof.
  intros Hactive. unfold TupleTransactionSubspace.write, bind.
  rewrite (@forEach_buffer _ _ (Writes.remove batch) _
             (fun P w tuple =>
                bufferRemove w
                  (prependPrefixToTuple P
                     (prependPrefixToTuple
                        (TupleTransactionSubspace.subspacePrefix view)
                        tuple)))).
  - rewrite (@forEach_buffer _ _ (Writes.set batch) _
               (fun P w pair =>
                  bufferSet w
                    (prependPrefixToTuple P
                       (prependPrefixToTuple
                          (TupleTransactionSubspace.subspacePrefix view)
                          (key pair))) (value pair))).
    + unfold bufferWrite, prependPrefixToWrites. simpl.
      rewrite !fold_left_mapped. reflexivity.
    + intros x tx' d' H'. unfold TupleTransactionSubspace.set. simpl.
      rewrite set_unfold, H'. reflexivity.
    + exact Hactive.
  - intros x tx' d' H'. unfold TupleTransactionSubspace.remove. simpl.
    rewrite remove_unfold, H'. reflexivity.
  - exact Hactive.
Qed.

(** The footprint of a call on an active transaction or on a view of
    it: the buffers change and the engine is not called; or the engine
    is called once, for a scan under the transaction's id, for the commit
    of the buffers under that id, or for the cancel of that id. *)
Lemma invoke_footprint (object : TxObject) (call : TxCall)
    (tx : TupleTransaction.t) (e : DB) :
  isActive tx = true ->
  let s' := snd (invoke object call (tx, e)) in
  (exists w, s' = (withWrites tx w, e))
  \/ (exists args,
        s' = (tx, snd (db_scan args (Some (TupleTransaction.id tx)) e)))
  \/ s' = (TupleTransaction.mk (TupleTransaction.subspacePrefix tx)
             (TupleTransaction.id tx) true (TupleTransaction.canceled tx)
             (TupleTransaction.writes tx),
           snd (db_commit (TupleTransaction.writes tx)
                  (Some (TupleTransaction.id tx)) e))
  \/ s' = (TupleTransaction.mk (TupleTransaction.subspacePrefix tx)
             (TupleTransaction.id tx) (TupleTransaction.committed tx) true
             (TupleTransaction.writes tx),
           snd (db_cancel (TupleTransaction.id tx) e)).
Proof.
  intros Hactive s'.
  assert (Hsame : exists w, (tx, e) = (withWrites tx w, e))
    by (exists (TupleTransaction.writes tx); now rewrite withWrites_same).
  assert (Hscan : forall args,
            (exists w,
               snd (TupleTransaction.scan args (tx, e)) = (withWrites tx w, e))
            \/ exists args',
                 snd (TupleTransaction.scan args (tx, e))
                 = (tx, snd (db_scan args' (Some (TupleTransaction.id tx)) e))).
  { intros args. right. rewrite scan_unfold by exact Hactive. cbv zeta.
    exists (normalizeSubspaceScanArgs (TupleTransaction.subspacePrefix tx)
              args).
    now destruct (db_scan _ _ e) as [[pairs|error] d']. }
  assert (Hget : forall tuple,
            (exists w,
               snd (TupleTransaction.get tuple (tx, e)) = (withWrites tx w, e))
            \/ exists args',
                 snd (TupleTransaction.get tuple (tx, e))
                 = (tx, snd (db_scan args' (Some (TupleTransaction.id tx)) e))).
  { intros tuple. rewrite get_unfold by exact Hactive. cbv zeta.
    destruct (tv.exists_ _ _); [now left|].
    destruct (t.exists_ _ _); [now left|].
    right. unfold getFromEngine.
    exists (pointStorageArgs
              (prependPrefixToTuple (TupleTransaction.subspacePrefix tx)
                 tuple)).
    now destruct (db_scan _ _ e) as [[[|p [|q items]]|error] d']. }
  assert (Hexists : forall tuple,
            (exists w,
               snd (TupleTransaction.exists_ tuple (tx, e))
               = (withWrites tx w, e))
            \/ exists args',
                 snd (TupleTransaction.exists_ tuple (tx, e))
                 = (tx, snd (db_scan args' (Some (TupleTransaction.id tx)) e))).
  { intros tuple. rewrite exists_unfold by exact Hactive. cbv zeta.
    destruct (tv.exists_ _ _); [now left|].
    destruct (t.exists_ _ _); [now left|].
    right.
    exists (pointStorageArgs
              (prependPrefixToTuple (TupleTransaction.subspacePrefix tx)
                 tuple)).
    now destruct (db_scan _ _ e) as [[[|p items]|error] d']. }
  assert (Hset : forall tuple v,
            exists w,
              snd (TupleTransaction.set tuple v (tx, e)) = (withWrites tx w, e)).
  { intros tuple v. rewrite set_unfold, Hactive. now eexists. }
  assert (Hremove : forall tuple,
            exists w,
              snd (TupleTransaction.remove tuple (tx, e))
              = (withWrites tx w, e)).
  { intros tuple. rewrite remove_unfold, Hactive. now eexists. }
  assert (Hcommit :
            snd (TupleTransaction.commit (tx, e))
            = (TupleTransaction.mk (TupleTransaction.subspacePrefix tx)
                 (TupleTransaction.id tx) true (TupleTransaction.canceled tx)
                 (TupleTransaction.writes tx),
               snd (db_commit (TupleTransaction.writes tx)
                      (Some (TupleTransaction.id tx)) e))).
  { rewrite commit_unfold by exact Hactive. cbv zeta.
    now destruct (db_commit _ _ e) as [r d']. }
  assert (Hcancel :
            snd (TupleTransaction.cancel (tx, e))
            = (TupleTransaction.mk (TupleTransaction.subspacePrefix tx)
                 (TupleTransaction.id tx) (TupleTransaction.committed tx) true
                 (TupleTransaction.writes tx),
               snd (db_cancel (TupleTransaction.id tx) e))).
  { rewrite cancel_unfold by exact Hactive. cbv zeta.
    now destruct (db_cancel _ e) as [r d']. }
  unfold s'. destruct object as [|view], call; simpl;
    try rewrite returning_state.
  - destruct (Hscan args) as [H|H]; auto.
  - destruct (Hget tuple) as [H|H]; auto.
  - destruct (Hexists tuple) as [H|H]; auto.
  - left. apply Hset.
  - left. apply Hremove.
  - left. rewrite write_unfold by exact Hactive. now eexists.
  - right. right. left. exact Hcommit.
  - right. right. right. exact Hcancel.
  - left. unfold TupleTransaction.subspace.
    rewrite guarded_active by exact Hactive. exact Hsame.
  - unfold TupleTransactionSubspace.scan. cbv zeta.
    match goal with
    | |- context [snd (bind ?m ?k (tx, e))] =>
        replace (snd (bind m k (tx, e))) with (snd (m (tx, e)))
          by (unfold bind, ret; now destruct (m (tx, e)) as [[x|error] s1])
    end.
    simpl. destruct (Hscan (asScanArgs
              (normalizeSubspaceScanArgs
                 (TupleTransactionSubspace.subspacePrefix view) args)))
      as [H|H]; auto.
  - destruct (Hget (prependPrefixToTuple
                      (TupleTransactionSubspace.subspacePrefix view) tuple))
      as [H|H]; auto.
  - destruct (Hexists (prependPrefixToTuple
                         (TupleTransactionSubspace.subspacePrefix view) tuple))
      as [H|H]; auto.
  - left. apply Hset.
  - left. apply Hremove.
  - left. rewrite view_write_active by exact Hactive. now eexists.
  - right. right. left. exact Hcommit.
  - right. right. right. exact Hcancel.
  - left. exact Hsame.
Qed.
End FootprintFacts.

Section RecordedCalls.
Context {DB : Type} {api : TupleDatabaseApi DB}.

Lemma closing_free (log : list EngineCall) (w : Writes.t)
    (txId : option TxId) :
  filter isClosing log = [] -> ~ In (EngineCommit w txId) log.
Proof.
  intros Hnone Hin.
  assert (H : In (EngineCommit w txId) (filter isClosing log))
    by (apply filter_In; now split).
  now rewrite Hnone in H.
Qed.

Lemma recordOk_invoke (id : TxId) (object : TxObject) (call : TxCall)
    (s : TupleTransaction.t * Recorded DB) :
  recordOk id s ->
  recordOk id (snd (invoke (api := recording api) object call s)).
Proof.
  intros Hok. destruct (isActive (fst s)) eqn:Hactive;
    [|now rewrite (invoke_closed (api := recording api))].
  destruct s as [tx [log d]]. simpl in Hactive.
  destruct Hok as (Hid & Hcalls & Hclosing & Hcommit).
  simpl in Hid, Hcalls, Hclosing, Hcommit. rewrite Hactive in Hclosing.
  destruct (invoke_footprint (api := recording api) object call tx (log, d)
              Hactive) as [(w & ->)|[(args & ->)|[->| ->]]];
    unfold recordOk; simpl.
  - change (isActive (withWrites tx w)) with (isActive tx). rewrite Hactive.
    repeat split; auto.
    intros w' txId Hin. now apply closing_free in Hin.
  - unfold recordCall. simpl.
    destruct (db_scan args (Some (TupleTransaction.id tx)) d) as [r d'].
    simpl. rewrite Hactive. repeat split; auto.
    + intros call' [<-|Hin]; [simpl; now rewrite Hid|now apply Hcalls].
    + intros w' txId [Hin|Hin]; [discriminate|].
      now apply closing_free in Hin.
  - unfold recordCall. simpl.
    destruct (db_commit (TupleTransaction.writes tx)
                (Some (TupleTransaction.id tx)) d) as [r d'].
    simpl. rewrite Hclosing. repeat split; auto.
    + intros call' [<-|Hin]; [simpl; now rewrite Hid|now apply Hcalls].
    + intros w' txId [Hin|Hin]; [now inversion Hin|].
      now apply closing_free in Hin.
  - unfold recordCall. simpl.
    destruct (db_cancel (TupleTransaction.id tx) d) as [r d'].
    simpl. rewrite Hclosing.
    replace (isActive _) with false
      by (unfold isActive; simpl; now rewrite andb_false_r).
    repeat split; auto.
    + intros call' [<-|Hin]; [simpl; now rewrite Hid|now apply Hcalls].
    + intros w' txId [Hin|Hin]; [discriminate|].
      now apply closing_free in Hin.
Qed.

Lemma recordOk_runCalls (id : TxId) (calls : list (TxObject * TxCall))
    (s : TupleTransaction.t * Recorded DB) :
  recordOk id s -> recordOk id (runCalls (api := recording api) calls s).
Proof.
  revert s. induction calls as [|c calls IH]; intros s Hs; [exact Hs|].
  unfold runCalls in *. simpl. apply IH. now apply recordOk_invoke.
Qed.

(** X24. The calls a transaction makes to its engine, read off an engine
    that records them (and is otherwise the engine itself: the run is
    the same with and without the recorder).  After any calls on a new
    transaction and its views: every call the engine got carries the id
    of the transaction; the engine got a [commit] or a [cancel] if and
    only if the transaction is over, and then exactly one of them, once;
    and a [commit] it got carries the writes the transaction holds. *)
Theorem transaction_calls_engine_under_its_id (subspacePrefix : Tuple)
    (id : TxId) (db : DB) (calls : list (TxObject * TxCall)) :
  let s :=
    runCalls (api := recording api) calls
      (TupleTransaction.new subspacePrefix id, ([], db)) in
  let tx := fst s in
  let log := fst (snd s) in
  forget s = runCalls calls (TupleTransaction.new subspacePrefix id, db)
  /\ (forall call, In call log -> callTxId call = Some id)
  /\ (if isActive tx then filter isClosing log = []
      else List.length (filter isClosing log) = 1)
  /\ (forall w txId,
        In (EngineCommit w txId) log -> w = TupleTransaction.writes tx).
Proof.
  intros s tx log. split; [apply transparent_runCalls|].
  assert (H : recordOk id s).
  { unfold s. apply recordOk_runCalls.
    unfold recordOk. simpl. repeat split; intros; contradiction. }
  destruct H as (_ & H2 & H3 & H4). repeat split; assumption.
Qed.
End RecordedCalls.

(** ** The order of writes *)

Section SortedExtensionality.
Variable A : Type.
Variable keyOf : A -> Tuple.

Local Abbreviation cmp := (byKey keyOf).

Lemma sortedBy_head_below (x : A) (data : list A) (y : A) :
  sortedBy keyOf (x :: data) -> In y data ->
  compareTuple (keyOf x) (keyOf y) = Lt.
Proof.
  intros Hs Hy. inversion Hs as [|? ? _ Hall]; subst.
  rewrite Forall_forall in Hall. now apply Hall.
Qed.

Lemma sortedBy_head_fresh (x : A) (data : list A) :
  sortedBy keyOf (x :: data) -> ~ In x data.
Proof.
  intros Hs Hx. pose proof (@sortedBy_head_below _ _ _ Hs Hx) as H.
  now rewrite compareTuple_refl in H.
Qed.

(** Two sorted arrays with the same items are the same array. *)
Lemma sortedBy_ext (l1 l2 : list A) :
  sortedBy keyOf l1 -> sortedBy keyOf l2 ->
  (forall y, In y l1 <-> In y l2) -> l1 = l2.
Proof.
  revert l2. induction l1 as [|x l1 IH]; intros [|y l2] H1 H2 Hin.
  - reflexivity.
  - destruct (proj2 (Hin y)). now left.
  - destruct (proj1 (Hin x)). now left.
  - assert (Hxy : x = y).
    { destruct (proj1 (Hin x) (or_introl eq_refl)) as [Hy|Hx]; [now symmetry|].
      destruct (proj2 (Hin y) (or_introl eq_refl)) as [Hx'|Hy]; [assumption|].
      pose proof (@sortedBy_head_below _ _ _ H2 Hx) as Hlt1.
      pose proof (@sortedBy_head_below _ _ _ H1 Hy) as Hlt2.
      pose proof (compareTuple_trans _ _ _ Hlt1 Hlt2) as Hlt.
      now rewrite compareTuple_refl in Hlt. }
    subst y. f_equal. apply IH.
    + now inversion H1.
    + now inversion H2.
    + intros z. split; intros Hz.
      * destruct (proj1 (Hin z) (or_intror Hz)) as [->|Hz']; [|assumption].
        now apply sortedBy_head_fresh in H1.
      * destruct (proj2 (Hin z) (or_intror Hz)) as [->|Hz']; [|assumption].
        now apply sortedBy_head_fresh in H2.
Qed.

(** The items of a sorted array after [set] and after [remove]. *)
Lemma sortedSet_In_iff (data : list A) (item y : A) :
  sortedBy keyOf data ->
  In y (sortedSet cmp data (keyOf item) item)
  <-> y = item \/ (In y data /\ keyOf y <> keyOf item).
Proof.
  intros Hs. split.
  - induction data as [|x data IH].
    + intros [<-|[]]. now left.
    + assert (Htail : sortedBy keyOf data) by now inversion Hs.
      assert (Hne : forall z, cmp z (keyOf item) <> Eq ->
                keyOf z <> keyOf item).
      { intros z Hz E. apply Hz. unfold byKey. rewrite E.
        apply compareTuple_refl. }
      rewrite sortedSet_cons. destruct (cmp x (keyOf item)) eqn:E.
      * intros [<-|Hy]; [now left|right]. split; [now right|].
        apply Hne. erewrite sortedBy_above; [discriminate|exact Hs| |exact Hy].
        congruence.
      * intros [<-|Hy].
        -- right. split; [now left|]. apply Hne. congruence.
        -- destruct (IH Htail Hy) as [->|[Hin Hk]]; [now left|right].
           split; [now right|exact Hk].
      * intros [<-|[<-|Hy]]; [now left| |].
        -- right. split; [now left|]. apply Hne. congruence.
        -- right. split; [now right|].
           apply Hne. erewrite sortedBy_above;
             [discriminate|exact Hs| |exact Hy].
           congruence.
  - intros [->|[Hin Hk]]; [apply sortedSet_In_item|].
    now apply sortedSet_In_other.
Qed.

Lemma sortedRemove_In_iff (data : list A) (k : Tuple) (y : A) :
  sortedBy keyOf data ->
  In y (sortedRemove cmp data k) <-> In y data /\ keyOf y <> k.
Proof.
  intros Hs. split.
  - intros Hy. split; [eapply sortedRemove_In_inv; eassumption|].
    eapply sortedRemove_absent; eassumption.
  - intros [Hin Hk]. now apply sortedRemove_In_other.
Qed.
End SortedExtensionality.

Section WriteOrderFacts.

(** Well-formed buffers with the same items are the same buffers. *)
Lemma writes_ext (w1 w2 : Writes.t) :
  WritesOk w1 -> WritesOk w2 ->
  (forall y, In y (Writes.set w1) <-> In y (Writes.set w2)) ->
  (forall T, In T (Writes.remove w1) <-> In T (Writes.remove w2)) ->
  w1 = w2.
Proof.
  intros (Hs1 & Hr1 & _) (Hs2 & Hr2 & _) Hset Hremove.
  destruct w1 as [s1 r1], w2 as [s2 r2]. simpl in *. f_equal.
  - now apply (@sortedBy_ext _ key).
  - now apply (@sortedBy_ext _ (fun tuple => tuple)).
Qed.

(** The items of the buffers after a [set] and after a [remove]. *)
Lemma In_bufferSet (w : Writes.t) (T : Tuple) (v : Any) :
  WritesOk w ->
  (forall y, In y (Writes.set (bufferSet w T v))
             <-> y = mkPair T v \/ (In y (Writes.set w) /\ key y <> T))
  /\ (forall T', In T' (Writes.remove (bufferSet w T v))
                 <-> In T' (Writes.remove w) /\ T' <> T).
Proof.
  intros (Hs & Hr & _). unfold bufferSet. simpl. split.
  - intros y. rewrite tv_set_byKey.
    apply (@sortedSet_In_iff _ key (Writes.set w) (mkPair T v) y Hs).
  - intros T'. rewrite t_remove_byKey.
    apply (@sortedRemove_In_iff _ (fun tuple => tuple) (Writes.remove w) T T'
             Hr).
Qed.

Lemma In_bufferRemove (w : Writes.t) (T : Tuple) :
  WritesOk w ->
  (forall y, In y (Writes.set (bufferRemove w T))
             <-> In y (Writes.set w) /\ key y <> T)
  /\ (forall T', In T' (Writes.remove (bufferRemove w T))
                 <-> T' = T \/ (In T' (Writes.remove w) /\ T' <> T)).
Proof.
  intros (Hs & Hr & _). unfold bufferRemove. simpl. split.
  - intros y. rewrite tv_remove_byKey.
    apply (@sortedRemove_In_iff _ key (Writes.set w) T y Hs).
  - intros T'. rewrite t_set_byKey.
    apply (@sortedSet_In_iff _ (fun tuple => tuple) (Writes.remove w) T T' Hr).
Qed.

Lemma WritesOk_applyWrite (P : Tuple) (w : Writes.t) (c : WriteCall) :
  WritesOk w -> WritesOk (applyWrite P w c).
Proof.
  destruct c; [apply WritesOk_bufferSet|apply WritesOk_bufferRemove].
Qed.

(** The items of the buffers after a write call, in one statement: the
    pair the call sets, if it sets one, and the tuple it removes, if it
    removes one, are in; what the buffers held of other tuples
    stays. *)
Lemma In_applyWrite (P : Tuple) (w : Writes.t) (c : WriteCall) :
  WritesOk w ->
  let T := prependPrefixToTuple P (writeTuple c) in
  (forall y, In y (Writes.set (applyWrite P w c))
             <-> (exists v, c = SetCall (writeTuple c) v /\ y = mkPair T v)
                 \/ (In y (Writes.set w) /\ key y <> T))
  /\ (forall T', In T' (Writes.remove (applyWrite P w c))
                 <-> (c = RemoveCall (writeTuple c) /\ T' = T)
                     \/ (In T' (Writes.remove w) /\ T' <> T)).
Proof.
  intros Hw T. destruct c as [tuple v|tuple]; simpl in *.
  - destruct (In_bufferSet (prependPrefixToTuple P tuple) v Hw) as [Hs Hr].
    split.
    + intros y. rewrite Hs. split.
      * intros [->|H]; [left; now exists v|now right].
      * intros [(v' & E & ->)|H]; [left; now inversion E|now right].
    + intros T'. rewrite Hr. split.
      * intros H. now right.
      * intros [[E _]|H]; [discriminate|exact H].
  - destruct (In_bufferRemove (prependPrefixToTuple P tuple) Hw) as [Hs Hr].
    split.
    + intros y. rewrite Hs. split.
      * intros H. now right.
      * intros [(v' & E & _)|H]; [discriminate|exact H].
    + intros T'. rewrite Hr. split.
      * intros [->|H]; [now left|now right].
      * intros [[_ ->]|H]; [now left|now right].
Qed.

(** Of two writes of the same tuple, the later one is what stays. *)
Lemma applyWrite_same_tuple (P : Tuple) (w : Writes.t) (c1 c2 : WriteCall) :
  WritesOk w -> writeTuple c1 = writeTuple c2 ->
  applyWrite P (applyWrite P w c1) c2 = applyWrite P w c2.
Proof.
  intros Hw Hsame.
  pose proof (WritesOk_applyWrite P c1 Hw) as Hw1.
  destruct (In_applyWrite P c1 Hw) as [Hs1 Hr1].
  destruct (In_applyWrite P c2 Hw) as [Hs2 Hr2].
  destruct (In_applyWrite P c2 Hw1) as [Hs12 Hr12].
  cbv zeta in *. rewrite Hsame in *.
  apply writes_ext; try now apply WritesOk_applyWrite.
  - intros y. rewrite Hs12, Hs2, Hs1. split.
    + intros [H|[[(v & _ & ->)|[Hin Hk]] Hne]]; [now left| |now right].
      now destruct Hne.
    + intros [H|[Hin Hk]]; [now left|]. right. split; [|exact Hk].
      right. now split.
  - intros T'. rewrite Hr12, Hr2, Hr1. split.
    + intros [H|[[[_ ->]|[Hin Hk]] Hne]]; [now left| |now right].
      now destruct Hne.
    + intros [H|[Hin Hk]]; [now left|]. right. split; [|exact Hk].
      right. now split.
Qed.

(** Writes of different tuples can be swapped. *)
Lemma applyWrite_commute (P : Tuple) (w : Writes.t) (c1 c2 : WriteCall) :
  WritesOk w -> writeTuple c1 <> writeTuple c2 ->
  applyWrite P (applyWrite P w c1) c2 = applyWrite P (applyWrite P w c2) c1.
Proof.
  intros Hw Hne.
  assert (Hfull : prependPrefixToTuple P (writeTuple c1)
                  <> prependPrefixToTuple P (writeTuple c2)).
  { intros E. now apply prepend_injective in E. }
  pose proof (WritesOk_applyWrite P c1 Hw) as Hw1.
  pose proof (WritesOk_applyWrite P c2 Hw) as Hw2.
  destruct (In_applyWrite P c1 Hw) as [Hs1 Hr1].
  destruct (In_applyWrite P c2 Hw) as [Hs2 Hr2].
  destruct (In_applyWrite P c2 Hw1) as [Hs12 Hr12].
  destruct (In_applyWrite P c1 Hw2) as [Hs21 Hr21].
  cbv zeta in *.
  set (T1 := prependPrefixToTuple P (writeTuple c1)) in *.
  set (T2 := prependPrefixToTuple P (writeTuple c2)) in *.
  apply writes_ext; try now apply WritesOk_applyWrite.
  - intros y. rewrite Hs12, Hs21, Hs1, Hs2. split.
    + intros [(v & E & ->)|[[(v & E & ->)|[Hin Hk1]] Hk2]].
      * right. split; [left; now exists v|]. simpl. congruence.
      * left. now exists v.
      * right. split; [right; now split|exact Hk1].
    + intros [(v & E & ->)|[[(v & E & ->)|[Hin Hk2]] Hk1]].
      * right. split; [left; now exists v|]. simpl. congruence.
      * left. now exists v.
      * right. split; [right; now split|exact Hk2].
  - intros T'. rewrite Hr12, Hr21, Hr1, Hr2. split.
    + intros [[E ->]|[[[E ->]|[Hin Hk1]] Hk2]].
      * right. split; [now left|congruence].
      * now left.
      * right. split; [right; now split|exact Hk1].
    + intros [[E ->]|[[[E ->]|[Hin Hk2]] Hk1]].
      * right. split; [now left|congruence].
      * now left.
      * right. split; [right; now split|exact Hk2].
Qed.

Lemma WritesOk_fold_applyWrite (P : Tuple) (calls : list WriteCall)
    (w : Writes.t) :
  WritesOk w -> WritesOk (fold_left (applyWrite P) calls w).
Proof.
  revert w. induction calls as [|c calls IH]; intros w Hw; [exact Hw|].
  simpl. now apply IH, WritesOk_applyWrite.
Qed.

(** Writes of pairwise different tuples, in any order. *)
Lemma fold_applyWrite_permutation (P : Tuple) (calls1 calls2 : list WriteCall) :
  Permutation calls1 calls2 -> NoDup (map writeTuple calls1) ->
  forall w, WritesOk w ->
    fold_left (applyWrite P) calls1 w = fold_left (applyWrite P) calls2 w.
Proof.
  induction 1 as [|x l1 l2 Hperm IH|x y l|l1 l2 l3 H12 IH12 H23 IH23];
    intros Hnodup w Hw.
  - reflexivity.
  - simpl. apply IH; [now inversion Hnodup|now apply WritesOk_applyWrite].
  - simpl. rewrite applyWrite_commute; [reflexivity|exact Hw|].
    inversion Hnodup as [|? ? Hy _]; subst. intros E. apply Hy. now left.
  - rewrite IH12 by assumption. apply IH23; [|exact Hw].
    eapply Permutation_NoDup; [|exact Hnodup]. now apply Permutation_map.
Qed.
End WriteOrderFacts.

Section TransactionWriteOrder.
Context {DB : Type} {api : TupleDatabaseApi DB}.

(** A write call on an active transaction. *)
Lemma asCall_active (c : WriteCall) (tx : TupleTransaction.t) (d : DB) :
  isActive tx = true ->
  snd (invoke (fst (asCall c)) (snd (asCall c)) (tx, d))
  = (withWrites tx
       (applyWrite (TupleTransaction.subspacePrefix tx)
          (TupleTransaction.writes tx) c), d).
Proof.
  intros Hactive. destruct c as [tuple v|tuple]; simpl;
    rewrite returning_state.
  - now rewrite set_unfold, Hactive.
  - now rewrite remove_unfold, Hactive.
Qed.

Lemma runCalls_writes (calls : list WriteCall) (tx : TupleTransaction.t)
    (d : DB) :
  isActive tx = true ->
  runCalls (map asCall calls) (tx, d)
  = (withWrites tx
       (fold_left (applyWrite (TupleTransaction.subspacePrefix tx)) calls
          (TupleTransaction.writes tx)), d).
Proof.
  intros Hactive. revert tx Hactive.
  induction calls as [|c calls IH]; intros tx Hactive.
  - simpl. now rewrite withWrites_same.
  - unfold runCalls in *. simpl.
    rewrite asCall_active by exact Hactive.
    rewrite IH by exact Hactive. reflexivity.
Qed.

(** X25. The buffers keep the last write of each tuple: in any state the
    API can bring a transaction to, two [set] or [remove] calls of the
    same tuple, one after the other, leave the transaction as the second
    call alone does ([set] after [set], [set] after [remove], [remove]
    after [set], [remove] after [remove]); the engine is not
    involved. *)
Theorem last_write_of_a_tuple_stays (subspacePrefix : Tuple) (id : TxId)
    (db : DB) (before : list (TxObject * TxCall)) (c1 c2 : WriteCall) :
  let s := stateAfter subspacePrefix id db before in
  writeTuple c1 = writeTuple c2 ->
  runCalls (map asCall [c1; c2]) s = runCalls (map asCall [c2]) s.
Proof.
  intros s Hsame.
  pose proof (stateAfter_writesOk subspacePrefix id db before) as Hok.
  fold s in Hok. destruct s as [tx d]. simpl in Hok.
  destruct (isActive tx) eqn:Hactive.
  - rewrite !runCalls_writes by exact Hactive. simpl.
    now rewrite applyWrite_same_tuple.
  - unfold runCalls. simpl.
    now rewrite !(@invoke_closed _ _ _ _ (tx, d) Hactive).
Qed.

(** X26. Writes of different tuples commute: in any state the API can
    bring a transaction to, a sequence of [set] and [remove] calls of
    pairwise different tuples leaves the transaction in the same state in
    whatever order the calls are made, so that what is committed does not
    depend on the order in which different tuples were written. *)
Theorem writes_of_different_tuples_commute (subspacePrefix : Tuple)
    (id : TxId) (db : DB) (before : list (TxObject * TxCall))
    (calls1 calls2 : list WriteCall) :
  let s := stateAfter subspacePrefix id db before in
  Permutation calls1 calls2 -> NoDup (map writeTuple calls1) ->
  runCalls (map asCall calls1) s = runCalls (map asCall calls2) s.
Proof.
  intros s Hperm Hnodup.
  pose proof (stateAfter_writesOk subspacePrefix id db before) as Hok.
  fold s in Hok. destruct s as [tx d]. simpl in Hok.
  destruct (isActive tx) eqn:Hactive.
  - rewrite !runCalls_writes by exact Hactive.
    now rewrite (fold_applyWrite_permutation _ Hperm Hnodup Hok).
  - assert (Hinert : forall calls,
              runCalls (map asCall calls) (tx, d) = (tx, d)).
    { induction calls as [|c calls IH]; [reflexivity|].
      unfold runCalls in *. simpl.
      now rewrite (@invoke_closed _ _ _ _ (tx, d) Hactive). }
    now rewrite !Hinert.
Qed.
End TransactionWriteOrder.

(** ** A batch written through a view *)

Section ViewWriteFacts.
Context {DB : Type} {api : TupleDatabaseApi DB}.

(** X27. On an active transaction, [write] through a view of prefix [p]
    buffers what [write] of the transaction itself buffers for the batch
    with [p] prepended to every key, and like it leaves the engine alone
    and does not throw.  The two calls differ in what they return: the
    view's [write] returns the view, the transaction's [write] the
    transaction. *)
Theorem view_write_is_prefixed_write (view : TupleTransactionSubspace.t)
    (batch : Writes.t) (tx : TupleTransaction.t) (d : DB) :
  isActive tx = true ->
  let prefixed :=
    prependPrefixToWrites (TupleTransactionSubspace.subspacePrefix view)
      batch in
  let s' :=
    (withWrites tx
       (bufferWrite (TupleTransaction.subspacePrefix tx)
          (TupleTransaction.writes tx) prefixed), d) in
  invoke (View view) (CallWrite batch) (tx, d) = (Ok (RetTx (View view)), s')
  /\ invoke Root (CallWrite prefixed) (tx, d) = (Ok (RetTx Root), s').
Proof.
  intros Hactive prefixed s'. unfold invoke, returning, bind.
  rewrite view_write_active by exact Hactive.
  now rewrite write_unfold by exact Hactive.
Qed.
End ViewWriteFacts.

(** ** Both families of transactions *)

(** *** Promises that leave the transaction alone *)

Section QuietPromises.
Context {DB : Type}.

Lemma quiet_forgetResult (A : Type)
    (p : Promise (AsyncTupleTransaction.t * DB) A) :
  quiet p -> quiet (forgetResult p).
Proof.
  induction p as [[a|error]|step next IH]; simpl; auto.
  intros [Hstep Hnext]. split; [exact Hstep|]. intros s. apply IH, Hnext.
Qed.

(** The promise of an engine call resumes in the engine. *)
Lemma quiet_zoom (A : Type) (p : Promise DB A) :
  quiet (zoom snd (fun d (s : AsyncTupleTransaction.t * DB) => (fst s, d)) p).
Proof.
  induction p as [r|step next IH]; simpl; auto.
Qed.

Lemma quiet_andThen (A B : Type)
    (p : Promise (AsyncTupleTransaction.t * DB) A)
    (k : A -> Async (AsyncTupleTransaction.t * DB) B) :
  quiet p ->
  (forall a s, fst (snd (k a s)) = fst s /\ quiet (fst (k a s))) ->
  quiet (andThen p k).
Proof.
  intros Hp Hk. induction p as [[a|error]|step next IH]; simpl; auto.
  - split; intros s; apply Hk.
  - destruct Hp as [Hstep Hnext]. split; [exact Hstep|].
    intros s. apply IH, Hnext.
Qed.

Lemma quiet_replaceNth (n : nat)
    (p : Promise (AsyncTupleTransaction.t * DB) unit)
    (pool : list (Promise (AsyncTupleTransaction.t * DB) unit)) :
  quiet p -> Forall quiet pool -> Forall quiet (replaceNth n p pool).
Proof.
  intros Hp Hpool. revert n.
  induction Hpool as [|q pool Hq Hpool IH]; intros [|n]; simpl;
    constructor; auto.
Qed.

Lemma quiet_nth (n : nat)
    (p : Promise (AsyncTupleTransaction.t * DB) unit)
    (pool : list (Promise (AsyncTupleTransaction.t * DB) unit)) :
  Forall quiet pool -> nth_error pool n = Some p -> quiet p.
Proof.
  intros Hpool Hn. rewrite Forall_forall in Hpool.
  apply Hpool. eapply nth_error_In, Hn.
Qed.
End QuietPromises.

(** *** The asynchronous methods and the buffers *)

Section AsyncWrites.
Context {DB : Type} {api : AsyncTupleDatabaseApi DB}.

Ltac async_unfold :=
  unfold AsyncTupleTransaction.scan, AsyncTupleTransaction.get,
    AsyncTupleTransaction.exists_, AsyncTupleTransaction.commit,
    AsyncTupleTransaction.cancel, AsyncTupleTransaction.checkActive,
    AsyncTupleTransaction.this, AsyncTupleTransaction.update,
    AsyncTupleTransaction.db,
    asyncBind, await, now, asyncRet, asyncThrow, bind, gets, modify, ret,
    throw.

Lemma async_scan_keeps (args : ScanArgs.t) :
  keepsWrites (AsyncTupleTransaction.scan args).
Proof.
  intros [[P i c x w] d]. async_unfold.
  simpl. destruct c; [now split|]. destruct x; [now split|]. simpl.
  destruct (adb_scan (normalizeSubspaceScanArgs P args) (Some i) d)
    as [p d'] eqn:E.
  simpl. rewrite ?E. simpl. split; [reflexivity|].
  split; [reflexivity|]. intros _.
  apply quiet_andThen; [apply quiet_zoom|]. intros pairs s. now split.
Qed.

Lemma async_get_keeps (tuple : Tuple) :
  keepsWrites (AsyncTupleTransaction.get tuple).
Proof.
  intros [[P i c x w] d]. async_unfold.
  simpl. destruct c; [now split|]. destruct x; [now split|]. simpl.
  destruct (tv.exists_ (Writes.set w) (prependPrefixToTuple P tuple));
    [now split|].
  destruct (t.exists_ (Writes.remove w) (prependPrefixToTuple P tuple));
    [now split|].
  destruct (adb_scan (pointStorageArgs (prependPrefixToTuple P tuple))
              (Some i) d) as [p d'] eqn:E.
  simpl. rewrite ?E. simpl. split; [reflexivity|].
  split; [reflexivity|]. intros _.
  apply quiet_andThen; [apply quiet_zoom|].
  intros [|pair0 [|q items]] s; now split.
Qed.

Lemma async_exists_keeps (tuple : Tuple) :
  keepsWrites (AsyncTupleTransaction.exists_ tuple).
Proof.
  intros [[P i c x w] d]. async_unfold.
  simpl. destruct c; [now split|]. destruct x; [now split|]. simpl.
  destruct (tv.exists_ (Writes.set w) (prependPrefixToTuple P tuple));
    [now split|].
  destruct (t.exists_ (Writes.remove w) (prependPrefixToTuple P tuple));
    [now split|].
  destruct (adb_scan (pointStorageArgs (prependPrefixToTuple P tuple))
              (Some i) d) as [p d'] eqn:E.
  simpl. rewrite ?E. simpl. split; [reflexivity|].
  split; [reflexivity|]. intros _.
  apply quiet_andThen; [apply quiet_zoom|].
  intros [|pair0 items] s; now split.
Qed.

Lemma async_commit_keeps : keepsWrites AsyncTupleTransaction.commit.
Proof.
  intros [[P i c x w] d]. async_unfold.
  simpl. destruct c; [now split|]. destruct x; [now split|]. simpl.
  destruct (adb_commit w (Some i) d) as [p d'] eqn:E.
  simpl. split; [reflexivity|apply quiet_zoom].
Qed.

Lemma async_cancel_keeps : keepsWrites AsyncTupleTransaction.cancel.
Proof.
  intros [[P i c x w] d]. async_unfold.
  simpl. destruct c; [now split|]. destruct x; [now split|]. simpl.
  destruct (adb_cancel i d) as [p d'] eqn:E.
  simpl. split; [reflexivity|apply quiet_zoom].
Qed.

Lemma async_view_scan_keeps (view : AsyncTupleTransactionSubspace.t)
    (args : ScanArgs.t) :
  keepsWrites (AsyncTupleTransactionSubspace.scan view args).
Proof.
  intros s. unfold AsyncTupleTransactionSubspace.scan. cbv zeta. simpl.
  set (inner := asScanArgs
                  (normalizeSubspaceScanArgs
                     (AsyncTupleTransactionSubspace.subspacePrefix view) args)).
  destruct (async_scan_keeps inner s) as [Hw Hq].
  unfold asyncBind, await.
  destruct (AsyncTupleTransaction.scan inner s) as [p s'] eqn:E.
  simpl in *. split; [exact Hw|]. split; [reflexivity|]. intros _.
  apply quiet_andThen; [exact Hq|]. intros pairs s2. now split.
Qed.

Lemma asyncWritesOk_set (tuple : Tuple) (v : Any) :
  preserves asyncWritesOk (AsyncTupleTransaction.set (DB := DB) tuple v).
Proof.
  intros [[P i c x w] d] Hs. unfold asyncWritesOk in *.
  unfold AsyncTupleTransaction.set, AsyncTupleTransaction.checkActive,
    AsyncTupleTransaction.this, AsyncTupleTransaction.update,
    bind, gets, modify, ret, throw.
  simpl in *. destruct c; [exact Hs|]. destruct x; [exact Hs|]. simpl.
  now apply WritesOk_set.
Qed.

Lemma asyncWritesOk_remove (tuple : Tuple) :
  preserves asyncWritesOk (AsyncTupleTransaction.remove (DB := DB) tuple).
Proof.
  intros [[P i c x w] d] Hs. unfold asyncWritesOk in *.
  unfold AsyncTupleTransaction.remove, AsyncTupleTransaction.checkActive,
    AsyncTupleTransaction.this, AsyncTupleTransaction.update,
    bind, gets, modify, ret, throw.
  simpl in *. destruct c; [exact Hs|]. destruct x; [exact Hs|]. simpl.
  now apply WritesOk_remove.
Qed.

Lemma asyncWritesOk_checkActive :
  preserves asyncWritesOk (AsyncTupleTransaction.checkActive (DB := DB)).
Proof.
  intros [[P i c x w] d] Hs.
  unfold AsyncTupleTransaction.checkActive, AsyncTupleTransaction.this,
    bind, gets, ret, throw.
  simpl. now destruct c, x.
Qed.

Lemma asyncWritesOk_write (w : Writes.t) :
  preserves asyncWritesOk (AsyncTupleTransaction.write (DB := DB) w).
Proof.
  unfold AsyncTupleTransaction.write.
  apply preserves_bind; [apply asyncWritesOk_checkActive|intros _].
  apply preserves_bind; [|intros _];
    apply preserves_forEach; intro;
    [apply asyncWritesOk_remove|apply asyncWritesOk_set].
Qed.

Lemma asyncWritesOk_subspace (prefix : Tuple) :
  preserves asyncWritesOk (AsyncTupleTransaction.subspace (DB := DB) prefix).
Proof.
  unfold AsyncTupleTransaction.subspace.
  apply preserves_bind; [apply asyncWritesOk_checkActive|intros _].
  apply preserves_ret.
Qed.

Lemma asyncWritesOk_view_write (view : AsyncTupleTransactionSubspace.t)
    (w : Writes.t) :
  preserves asyncWritesOk (AsyncTupleTransactionSubspace.write view w).
Proof.
  unfold AsyncTupleTransactionSubspace.write.
  apply preserves_bind; [|intros _];
    apply preserves_forEach; intro;
    [apply asyncWritesOk_remove|apply asyncWritesOk_set].
Qed.

(** A call keeps the buffers well formed when it returns, and leaves a
    promise that does not touch the transaction. *)
Lemma calling_keeps (A : Type)
    (m : Async (@AsyncTupleTransaction.State DB) A)
    (s : @AsyncTupleTransaction.State DB) :
  keepsWrites m -> asyncWritesOk s ->
  asyncWritesOk (snd (calling m s)) /\ quiet (fst (calling m s)).
Proof.
  intros Hm Hs. destruct (Hm s) as [Hw Hq]. unfold calling, asyncWritesOk in *.
  destruct (m s) as [p s']. simpl in *. split; [now rewrite Hw|].
  now apply quiet_forgetResult.
Qed.

Lemma calling_now (A : Type) (m : M (@AsyncTupleTransaction.State DB) A)
    (s : @AsyncTupleTransaction.State DB) :
  preserves asyncWritesOk m -> asyncWritesOk s ->
  asyncWritesOk (snd (calling (now m) s))
  /\ quiet (fst (calling (now m) s)).
Proof.
  intros Hm Hs. specialize (Hm s Hs). unfold calling, now.
  destruct (m s) as [[a|error] s']; simpl in *; now split.
Qed.

Lemma asyncWritesOk_asyncInvoke (object : AsyncTxObject) (call : TxCall)
    (s : @AsyncTupleTransaction.State DB) :
  asyncWritesOk s ->
  asyncWritesOk (snd (asyncInvoke object call s))
  /\ quiet (fst (asyncInvoke object call s)).
Proof.
  intros Hs. destruct object as [|view], call; unfold asyncInvoke;
    unfold AsyncTupleTransactionSubspace.get,
      AsyncTupleTransactionSubspace.exists_,
      AsyncTupleTransactionSubspace.set, AsyncTupleTransactionSubspace.remove,
      AsyncTupleTransactionSubspace.commit,
      AsyncTupleTransactionSubspace.cancel;
    cbv zeta; simpl;
    first
      [ apply calling_keeps;
        [ first [ apply async_scan_keeps | apply async_get_keeps
                | apply async_exists_keeps | apply async_commit_keeps
                | apply async_cancel_keeps | apply async_view_scan_keeps ]
        | exact Hs ]
      | apply calling_now;
        [ first [ apply asyncWritesOk_set | apply asyncWritesOk_remove
                | apply asyncWritesOk_write | apply asyncWritesOk_subspace
                | apply asyncWritesOk_view_write ]
        | exact Hs ]
      | now split ].
Qed.

Lemma asyncWritesOk_asyncStep (event : AsyncEvent) (r : Running DB) :
  asyncWritesOk (current r) /\ Forall quiet (promises r) ->
  asyncWritesOk (current (asyncStep event r))
  /\ Forall quiet (promises (asyncStep event r)).
Proof.
  intros [Hs Hpool]. destruct event as [object call|n]; simpl.
  - destruct (asyncWritesOk_asyncInvoke object call Hs) as [Hs' Hq].
    destruct (asyncInvoke object call (current r)) as [p s']. simpl in *.
    split; [exact Hs'|]. apply Forall_app. split; [exact Hpool|].
    now constructor.
  - destruct (nth_error (promises r) n) as [[result|step next]|] eqn:E;
      try now split.
    destruct (quiet_nth n Hpool E) as [Hstep Hnext]. simpl. split.
    + unfold asyncWritesOk in *. now rewrite Hstep.
    + apply quiet_replaceNth; [apply Hnext|exact Hpool].
Qed.

Lemma asyncWritesOk_asyncRun (events : list AsyncEvent) (r : Running DB) :
  asyncWritesOk (current r) /\ Forall quiet (promises r) ->
  asyncWritesOk (current (asyncRun events r))
  /\ Forall quiet (promises (asyncRun events r)).
Proof.
  revert r. induction events as [|event events IH]; intros r Hr; simpl.
  - exact Hr.
  - apply IH. now apply asyncWritesOk_asyncStep.
Qed.
End AsyncWrites.

(** *** The claims that speak of every transaction *)

(** C4. Take a transaction of either family in any state its API can
    bring it to, and any sequence of [set] and [remove] calls on it:
    afterwards no tuple [T] is in both [writes.set] and [writes.remove].
    For a [TupleTransaction] the state is that of a new transaction after
    any calls [before] on it and its views.  For an
    [AsyncTupleTransaction] it is that of a new transaction after any
    events [before]: calls on it and its views, and resumptions of the
    promises these calls have left, in any order, whatever the engine. *)
Theorem set_remove_keep_writes_disjoint :
  (forall (DB : Type) (api : TupleDatabaseApi DB) (subspacePrefix : Tuple)
          (id : TxId) (db : DB) (before : list (TxObject * TxCall))
          (calls : list WriteCall),
     let s := runCalls before (TupleTransaction.new subspacePrefix id, db) in
     let tx' := fst (runCalls (map asCall calls) s) in
     forall T,
       ~ (In T (map key (Writes.set (TupleTransaction.writes tx')))
          /\ In T (Writes.remove (TupleTransaction.writes tx'))))
  /\ (forall (DB : Type) (api : AsyncTupleDatabaseApi DB)
             (subspacePrefix : Tuple) (id : TxId) (db : DB)
             (before : list AsyncEvent) (calls : list WriteCall),
        let r :=
          asyncRun before
            (started (AsyncTupleTransaction.new subspacePrefix id, db)) in
        let tx' := fst (current (asyncRun (map asAsyncCall calls) r)) in
        forall T,
          ~ (In T (map key (Writes.set (AsyncTupleTransaction.writes tx')))
             /\ In T (Writes.remove (AsyncTupleTransaction.writes tx')))).
Proof.
  split.
  - intros DB api subspacePrefix id db before calls s tx'.
    assert (H : onTransaction
                  (fun tx => WritesOk (TupleTransaction.writes tx))
                  (runCalls (map asCall calls) s)).
    { apply writesOk_runCalls. unfold s. apply writesOk_runCalls.
      apply WritesOk_new. }
    destruct H as (_ & _ & Hdis). exact Hdis.
  - intros DB api subspacePrefix id db before calls r tx'.
    assert (H : asyncWritesOk (current (asyncRun (map asAsyncCall calls) r))
                /\ Forall quiet
                     (promises (asyncRun (map asAsyncCall calls) r))).
    { apply asyncWritesOk_asyncRun. unfold r. apply asyncWritesOk_asyncRun.
      split; [|constructor]. unfold asyncWritesOk. simpl.
      repeat split; simpl; try constructor. intros T [[] _]. }
    destruct H as ((_ & _ & Hdis) & _). exact Hdis.
Qed.

(** C10. [commit] sets [committed] before it hands the batch to the
    engine, in both families.  The synchronous call returns or throws
    what the engine's [commit] does, and either way the transaction is
    committed, so every later call on it, [commit] and [cancel] included,
    throws "Transaction already committed" and changes nothing.  The
    asynchronous call has marked the transaction committed and called
    the engine's [commit] when it returns; the promise it returns settles
    to what the engine's promise settles to, a rejection included, and
    leaves the transaction as it is; from the return of the call on,
    whatever the engine has become, every [async] method returns a
    promise rejected with "Transaction already committed" and the other
    methods throw it, and nothing changes. *)
Theorem commit_closes_before_engine_commit :
  (forall (DB : Type) (api : TupleDatabaseApi DB) (tx : TupleTransaction.t)
          (d : DB),
     isActive tx = true ->
     let out := TupleTransaction.commit (tx, d) in
     let submitted :=
       db_commit (TupleTransaction.writes tx) (Some (TupleTransaction.id tx))
         d in
     let tx' := fst (snd out) in
     let rejected (A : Type) (m : M (@TupleTransaction.State DB) A) :=
       m (snd out)
       = (Throws (Error "Transaction already committed"), snd out) in
     fst out = fst submitted
     /\ snd (snd out) = snd submitted
     /\ TupleTransaction.committed tx' = true
     /\ TupleTransaction.writes tx' = TupleTransaction.writes tx
     /\ rejected _ TupleTransaction.commit
     /\ rejected _ TupleTransaction.cancel
     /\ (forall args, rejected _ (TupleTransaction.scan args))
     /\ (forall tuple, rejected _ (TupleTransaction.get tuple))
     /\ (forall tuple, rejected _ (TupleTransaction.exists_ tuple))
     /\ (forall tuple v, rejected _ (TupleTransaction.set tuple v))
     /\ (forall tuple, rejected _ (TupleTransaction.remove tuple))
     /\ (forall writes, rejected _ (TupleTransaction.write writes))
     /\ (forall prefix, rejected _ (TupleTransaction.subspace prefix)))
  /\ (forall (DB : Type) (api : AsyncTupleDatabaseApi DB)
             (tx : AsyncTupleTransaction.t) (d : DB),
        isActive (syncTransaction tx) = true ->
        let out := AsyncTupleTransaction.commit (tx, d) in
        let submitted :=
          adb_commit (AsyncTupleTransaction.writes tx)
            (Some (AsyncTupleTransaction.id tx)) d in
        let tx' := fst (snd out) in
        let error := Error "Transaction already committed" in
        let rejected (A : Type)
            (m : Async (@AsyncTupleTransaction.State DB) A) :=
          forall d2 : DB, m (tx', d2) = (Settled (Throws error), (tx', d2)) in
        let thrown (A : Type) (m : M (@AsyncTupleTransaction.State DB) A) :=
          forall d2 : DB, m (tx', d2) = (Throws error, (tx', d2)) in
        tx' = AsyncTupleTransaction.mk (AsyncTupleTransaction.subspacePrefix tx)
                (AsyncTupleTransaction.id tx) true false
                (AsyncTupleTransaction.writes tx)
        /\ snd (snd out) = snd submitted
        /\ fst out = zoom snd (fun d s => (fst s, d)) (fst submitted)
        /\ (forall s2 : @AsyncTupleTransaction.State DB,
              settle (fst out) s2
              = match settle (fst submitted) (snd s2) with
                | (r, d') => (r, (fst s2, d'))
                end)
        /\ rejected _ AsyncTupleTransaction.commit
        /\ rejected _ AsyncTupleTransaction.cancel
        /\ (forall args, rejected _ (AsyncTupleTransaction.scan args))
        /\ (forall tuple, rejected _ (AsyncTupleTransaction.get tuple))
        /\ (forall tuple, rejected _ (AsyncTupleTransaction.exists_ tuple))
        /\ (forall tuple v, thrown _ (AsyncTupleTransaction.set tuple v))
        /\ (forall tuple, thrown _ (AsyncTupleTransaction.remove tuple))
        /\ (forall writes, thrown _ (AsyncTupleTransaction.write writes))
        /\ (forall prefix, thrown _ (AsyncTupleTransaction.subspace prefix))).
Proof.
  split.
  - intros DB api tx d H out submitted tx' rejected.
    unfold rejected, tx', out, submitted. rewrite commit_unfold by exact H.
    destruct (db_commit _ _ d) as [r d']; cbv zeta; simpl.
    repeat split; intros; now apply guarded_closed.
  - intros DB api tx d Hactive.
    destruct (async_flags tx Hactive) as [Hc Hx].
    destruct tx as [P i c x w]. simpl in Hc, Hx. subst c x.
    unfold AsyncTupleTransaction.commit, AsyncTupleTransaction.cancel,
      AsyncTupleTransaction.scan, AsyncTupleTransaction.get,
      AsyncTupleTransaction.exists_, AsyncTupleTransaction.write,
      AsyncTupleTransaction.subspace,
      AsyncTupleTransaction.set, AsyncTupleTransaction.remove,
      AsyncTupleTransaction.checkActive, AsyncTupleTransaction.this,
      AsyncTupleTransaction.update, AsyncTupleTransaction.db,
      asyncBind, now, bind, gets, modify, ret, throw. simpl.
    destruct (adb_commit w (Some i) d) as [p d']. simpl.
    repeat split. intros [tx2 d2]. apply settle_zoom_db.
Qed.

(** C5. A client made by [subspace(P)] carries the prefix of its parent
    followed by [P], and so does a transaction it opens, whatever has
    been called on it since.  On such a transaction, while it is active,
    [set(t, v)] returns, leaves the engine alone, and buffers the pair of
    key [parent prefix ++ P ++ t] and value [v]: afterwards [writes.set]
    holds that pair and, of the pairs it held, those of another key, and
    [writes.remove] has lost that key; [commit] then hands the engine
    these buffers.  On a transaction that has just been opened the batch
    is that one pair.  On an empty in-memory engine,
    [db.subspace(["game","g1"]).transact().set(["total"], 3).commit()]
    leaves the storage with the pair of key [["game","g1","total"]] and
    value 3.  With the clients held in a store, [subspace] called on a
    client adds a new client to the store and changes none that was
    there, the parent included. *)
Theorem subspace_set_commits_prefixed_key :
  (forall (DB : Type) (api : TupleDatabaseApi DB)
          (parent : TupleDatabaseClient.t) (P tuple : Tuple) (v : Any)
          (txId : option TxId) (randomId : TxId) (d : DB)
          (before : list (TxObject * TxCall)),
     let client := TupleDatabaseClient.subspace parent P in
     let s :=
       runCalls before
         (TupleDatabaseClient.transact client txId randomId, d) in
     let tx := fst s in
     let fullTuple := TupleDatabaseClient.subspacePrefix parent ++ P ++ tuple in
     let out := TupleTransaction.set tuple v s in
     let w := TupleTransaction.writes (fst (snd out)) in
     TupleDatabaseClient.subspacePrefix client
     = TupleDatabaseClient.subspacePrefix parent ++ P
     /\ TupleTransaction.subspacePrefix tx
        = TupleDatabaseClient.subspacePrefix parent ++ P
     /\ (before = [] -> w = Writes.mk [mkPair fullTuple v] [])
     /\ (isActive tx = true ->
         fst out = Ok tt
         /\ snd (snd out) = snd s
         /\ (forall pair0,
               In pair0 (Writes.set w)
               <-> pair0 = mkPair fullTuple v
                   \/ (In pair0 (Writes.set (TupleTransaction.writes tx))
                       /\ key pair0 <> fullTuple))
         /\ (forall T,
               In T (Writes.remove w)
               <-> In T (Writes.remove (TupleTransaction.writes tx))
                   /\ T <> fullTuple)
         /\ (TupleTransaction.set tuple v ;; TupleTransaction.commit) s
            = match db_commit w (Some (TupleTransaction.id tx)) (snd s) with
              | (r, d') =>
                  (r, (TupleTransaction.mk (TupleTransaction.subspacePrefix tx)
                         (TupleTransaction.id tx) true false w, d'))
              end))
  /\ (let db := TupleDatabaseClient.mk [] in
      let tx :=
        TupleDatabaseClient.transact
          (TupleDatabaseClient.subspace db [VString "game"; VString "g1"])
          None "tx" in
      let out :=
        (TupleTransaction.set [VString "total"] (defined (VNumber 3)) ;;
         TupleTransaction.commit) (tx, TupleDatabase.empty) in
      fst out = Ok tt
      /\ TupleDatabase.storage (snd (snd out))
         = [mkPair [VString "game"; VString "g1"; VString "total"]
              (defined (VNumber 3))])
  /\ (forall (store : ClientStore.t) (this : nat)
             (parent : TupleDatabaseClient.t) (P : Tuple),
        nth_error store this = Some parent ->
        let out := ClientStore.subspace this P store in
        fst out = Ok (List.length store)
        /\ nth_error (snd out) (List.length store)
           = Some (TupleDatabaseClient.subspace parent P)
        /\ List.length store <> this
        /\ (forall ref, ref < List.length store ->
              nth_error (snd out) ref = nth_error store ref)
        /\ nth_error (snd out) this = Some parent).
Proof.
  split; [|split; [repeat split|]].
  - intros DB api parent P tuple v txId randomId d before client s tx
      fullTuple out w.
    assert (Hprefix : TupleTransaction.subspacePrefix tx
                      = TupleDatabaseClient.subspacePrefix parent ++ P).
    { unfold tx, s, TupleDatabaseClient.transact.
      apply (runCalls_in_subspace
               (TupleDatabaseClient.subspacePrefix client) _ d before). }
    assert (Hok : WritesOk (TupleTransaction.writes tx)).
    { unfold tx, s, TupleDatabaseClient.transact.
      apply (@writesOk_runCalls _ _ before). apply WritesOk_new. }
    assert (Hfull : prependPrefixToTuple (TupleTransaction.subspacePrefix tx)
                      tuple = fullTuple).
    { unfold prependPrefixToTuple, fullTuple. rewrite Hprefix.
      now rewrite <- app_assoc. }
    split; [reflexivity|]. split; [exact Hprefix|]. split.
    + intros ->. unfold w, out, s, runCalls. cbn [fold_left].
      rewrite set_unfold. simpl.
      unfold prependPrefixToTuple, fullTuple. now rewrite <- app_assoc.
    + intros Hactive. unfold w, out.
      destruct s as [tx0 d0] eqn:Es. simpl in tx. subst tx.
      rewrite set_unfold, Hactive. cbv zeta. rewrite Hfull. simpl.
      destruct Hok as (Hset & Hrem & _).
      split; [reflexivity|]. split; [reflexivity|]. split; [|split].
      * intros pair0. rewrite tv_set_byKey.
        apply (@sortedSet_In_iff _ key _ (mkPair fullTuple v) pair0 Hset).
      * intros T. rewrite t_remove_byKey.
        apply (@sortedRemove_In_iff _ (fun tuple0 => tuple0) _ fullTuple T
                 Hrem).
      * unfold bind at 1. rewrite set_unfold, Hactive. cbv zeta.
        rewrite Hfull. rewrite commit_unfold.
        -- simpl. unfold isActive in Hactive.
           destruct (TupleTransaction.canceled tx0);
             [now rewrite andb_false_r in Hactive|reflexivity].
        -- exact Hactive.
  - intros store this parent P Hparent out. unfold out.
    assert (Hlt : this < List.length store).
    { apply nth_error_Some. now rewrite Hparent. }
    unfold ClientStore.subspace, ClientStore.field, ClientStore.construct,
      bind.
    rewrite Hparent. simpl.
    split; [reflexivity|]. split.
    + rewrite nth_error_app2 by lia. now rewrite Nat.sub_diag.
    + split; [lia|]. split.
      * intros ref Href. now apply nth_error_app1.
      * rewrite nth_error_app1 by exact Hlt. exact Hparent.
Qed.

(** ** The further theorems at concrete inputs *)

Lemma reads_see_buffered_writes_witness :
  let s :=
    stateAfter [] "tx1" TupleDatabase.empty
      [(Root, CallRemove [VString "a"])] in
  let s1 := snd (TupleTransaction.set [VString "a"] (defined (VNumber 1)) s) in
  isActive (fst s) = true
  /\ TupleTransaction.get [VString "a"] s1 = (Ok (defined (VNumber 1)), s1).
Proof.
  cbv zeta. split; [reflexivity|].
  destruct (@reads_see_buffered_writes _ _ [] "tx1" TupleDatabase.empty
              [(Root, CallRemove [VString "a"])] [VString "a"] (defined (VNumber 1))
              eq_refl) as (H & _).
  exact H.
Defined.

Lemma writes_leave_other_tuples_witness :
  let s :=
    stateAfter [] "tx1" oneRowEngine
      [(Root, CallSet [VString "b"] (defined (VNumber 2)))] in
  [VString "b"] <> [VString "a"]
  /\ fst (TupleTransaction.get [VString "b"]
            (snd (TupleTransaction.remove [VString "a"] s)))
     = fst (TupleTransaction.get [VString "b"] s).
Proof.
  cbv zeta.
  assert (Hne : [VString "b"] <> [VString "a"]) by discriminate.
  split; [exact Hne|].
  destruct (@writes_leave_other_tuples _ _ [] "tx1" oneRowEngine
              [(Root, CallSet [VString "b"] (defined (VNumber 2)))]
              [VString "a"] [VString "b"] (defined (VNumber 0)) Hne)
    as (_ & H & _).
  exact H.
Defined.

Lemma write_removes_then_sets_witness :
  let s := stateAfter [] "tx1" oneRowEngine [] in
  let s' := snd (TupleTransaction.write removeAndSet s) in
  isActive (fst s) = true
  /\ TupleTransaction.get [VString "a"] s' = (Ok (defined (VNumber 1)), s').
Proof.
  cbv zeta. split; [reflexivity|].
  destruct (@write_removes_then_sets _ _ [] "tx1" oneRowEngine []
              removeAndSet eq_refl) as (_ & _ & H & _).
  apply (H [VString "a"] (defined (VNumber 1)) [] []); [reflexivity|].
  intros [].
Defined.

Lemma closed_transaction_is_inert_witness :
  isActive committedTx = false
  /\ runCalls
       [(Root, CallSet [VString "a"] (defined (VNumber 1)));
        (View gameView, CallWrite removeAndSet);
        (Root, CallCancel)]
       (committedTx, oneRowEngine)
     = (committedTx, oneRowEngine).
Proof.
  split; [reflexivity|].
  apply (@closed_transaction_is_inert _ _
           [(Root, CallSet [VString "a"] (defined (VNumber 1)));
            (View gameView, CallWrite removeAndSet);
            (Root, CallCancel)]
           (committedTx, oneRowEngine)).
  reflexivity.
Defined.

Lemma view_calls_on_closed_transaction_witness :
  isActive committedTx = false
  /\ TupleTransactionSubspace.write gameView (Writes.mk [] [])
       (committedTx, TupleDatabase.empty)
     = (Ok tt, (committedTx, TupleDatabase.empty))
  /\ TupleTransactionSubspace.write gameView removeAndSet
       (committedTx, TupleDatabase.empty)
     = (Throws (Error "Transaction already committed"),
        (committedTx, TupleDatabase.empty)).
Proof.
  split; [reflexivity|].
  pose proof (@view_calls_on_closed_transaction _ _ gameView committedTx
                TupleDatabase.empty eq_refl) as H.
  cbv zeta in H.
  destruct H as (_ & _ & _ & _ & _ & _ & _ & Hwrite & _).
  split; [exact (Hwrite (Writes.mk [] []))|exact (Hwrite removeAndSet)].
Defined.

Lemma writes_stay_in_subspace_witness :
  let client := TupleDatabaseClient.mk [VString "app"] in
  let tx := TupleDatabaseClient.transact client None "tx1" in
  let w :=
    TupleTransaction.writes
      (fst (runCalls [(View gameView, CallSet [VString "total"] (defined (VNumber 3)))]
              (tx, TupleDatabase.empty))) in
  In [VString "app"; VString "game"; VString "total"] (map key (Writes.set w))
  /\ exists tuple,
       [VString "app"; VString "game"; VString "total"]
       = [VString "app"] ++ tuple.
Proof.
  cbv zeta.
  assert (Hin : In [VString "app"; VString "game"; VString "total"]
                  (map key
                     (Writes.set
                        (TupleTransaction.writes
                           (fst (runCalls
                                   [(View gameView,
                                     CallSet [VString "total"] (defined (VNumber 3)))]
                                   (TupleDatabaseClient.transact
                                      (TupleDatabaseClient.mk [VString "app"])
                                      None "tx1",
                                    TupleDatabase.empty)))))))
    by (left; reflexivity).
  split; [exact Hin|].
  apply (@writes_stay_in_subspace _ _
           (TupleDatabaseClient.mk [VString "app"]) None "tx1"
           TupleDatabase.empty
           [(View gameView, CallSet [VString "total"] (defined (VNumber 3)))]
           [VString "app"; VString "game"; VString "total"]).
  left. exact Hin.
Defined.

Lemma cancel_closes_before_engine_cancel_witness :
  let out := TupleTransaction.cancel (totalTx, contendedEngine) in
  isActive totalTx = true
  /\ TupleTransaction.canceled (fst (snd out)) = true
  /\ TupleTransaction.writes (fst (snd out)) = TupleTransaction.writes totalTx
  /\ TupleTransaction.commit (snd out)
     = (Throws (Error "Transaction already canceled"), snd out).
Proof.
  cbv zeta. split; [reflexivity|].
  pose proof (@cancel_closes_before_engine_cancel _ _ totalTx contendedEngine
                eq_refl) as H.
  cbv zeta in H. destruct H as (_ & _ & Hx & _ & Hw & Hcommit & _).
  split; [exact Hx|]. split; [exact Hw|exact Hcommit].
Defined.

Lemma commit_submits_well_formed_batch_witness :
  let s :=
    stateAfter [] "tx1" TupleDatabase.empty
      [(Root, CallSet [VString "b"] (defined (VNumber 2)));
       (Root, CallSet [VString "a"] (defined (VNumber 1)));
       (Root, CallRemove [VString "b"])] in
  isActive (fst s) = true
  /\ sortedBy key (Writes.set (TupleTransaction.writes (fst s)))
  /\ TupleDatabase.storage (snd (snd (TupleTransaction.commit s)))
     = [mkPair [VString "a"] (defined (VNumber 1))].
Proof.
  cbv zeta. split; [reflexivity|].
  destruct (@commit_submits_well_formed_batch _ _ [] "tx1" TupleDatabase.empty
              [(Root, CallSet [VString "b"] (defined (VNumber 2)));
               (Root, CallSet [VString "a"] (defined (VNumber 1)));
               (Root, CallRemove [VString "b"])] eq_refl)
    as (_ & Hengine & Hsorted & _).
  split; [exact Hsorted|]. rewrite Hengine. reflexivity.
Defined.

Lemma nested_view_reads_own_write_witness :
  let s := stateAfter [VString "app"] "tx1" TupleDatabase.empty [] in
  let view := TupleTransactionSubspace.mk [VString "game"; VString "g1"] in
  let s1 :=
    snd (TupleTransactionSubspace.set view [VString "total"] (defined (VNumber 3)) s) in
  isActive (fst s) = true
  /\ In (mkPair [VString "app"; VString "game"; VString "g1"; VString "total"]
           (defined (VNumber 3)))
        (Writes.set (TupleTransaction.writes (fst s1)))
  /\ TupleTransaction.get [VString "game"; VString "g1"; VString "total"] s1
     = (Ok (defined (VNumber 3)), s1).
Proof.
  cbv zeta. split; [reflexivity|].
  destruct (@nested_view_reads_own_write _ _ [VString "app"] "tx1"
              TupleDatabase.empty [] [VString "game"] [VString "g1"]
              [VString "total"] (defined (VNumber 3)) eq_refl)
    as (_ & Hin & _ & _ & _ & Hget & _).
  split; [exact Hin|exact Hget].
Defined.

Lemma returned_attempt_commits_transaction_witness :
  let run :=
    runUserFn (setScore Root ("chet", 5%Z) tt)
      (TupleDatabaseClient.transact exampleClient None (exampleIds 0),
       TupleDatabase.empty) in
  run = ((tt, Ok tt), snd run)
  /\ isActive (fst (snd run)) = true
  /\ fst (fst (transactionalQuery exampleIds defaultRetries setScore
                 (IsDb exampleClient) ("chet", 5%Z) exampleWorld))
     = Ok tt
  /\ TupleDatabase.storage
       (engine (snd (transactionalQuery exampleIds defaultRetries setScore
                       (IsDb exampleClient) ("chet", 5%Z) exampleWorld)))
     = [mkPair [VString "score"; VString "chet"] (defined (VNumber 5));
        mkPair [VString "total"] (defined (VNumber 5))].
Proof.
  cbv zeta.
  set (run := runUserFn (setScore Root ("chet", 5%Z) tt)
                (TupleDatabaseClient.transact exampleClient None
                   (exampleIds 0), TupleDatabase.empty)).
  assert (Hrun : run = ((tt, Ok tt), (fst (snd run), snd (snd run))))
    by reflexivity.
  assert (Hactive : isActive (fst (snd run)) = true) by reflexivity.
  split; [reflexivity|]. split; [exact Hactive|].
  destruct (@returned_attempt_commits_transaction _ _ _ _ _ exampleIds
              setScore exampleClient ("chet", 5%Z) exampleWorld tt tt
              (fst (snd run)) (snd (snd run)) Hrun) as (Hcommitted & _).
  destruct (Hcommitted Hactive) as (_ & Hquery).
  rewrite (Hquery eq_refl defaultRetries). split; reflexivity.
Defined.

Lemma no_retries_single_attempt_witness :
  (0 <= 0)%Z
  /\ invocations exampleIds 0 alwaysConflicts exampleClient tt exampleWorld = 1.
Proof.
  assert (H0 : (0 <= 0)%Z) by lia.
  split; [exact H0|].
  destruct (@no_retries_single_attempt _ _ _ _ _ exampleIds 0%Z
              alwaysConflicts exampleClient tt exampleWorld H0) as (_ & H).
  exact H.
Defined.

Lemma async_commit_closes_at_call_witness :
  let out :=
    AsyncTupleTransaction.commit (api := asyncOfSync TupleDatabase.api)
      (asyncTotalTx, TupleDatabase.empty) in
  isActive (syncTransaction asyncTotalTx) = true
  /\ AsyncTupleTransaction.committed (fst (snd out)) = true
  /\ AsyncTupleTransaction.set [VString "a"] (defined (VNumber 1)) (snd out)
     = (Throws (Error "Transaction already committed"), snd out).
Proof.
  cbv zeta. split; [reflexivity|].
  pose proof (@async_commit_closes_at_call _
                (asyncOfSync TupleDatabase.api) asyncTotalTx
                TupleDatabase.empty eq_refl) as H.
  cbv zeta in H. destruct H as (Hc & _ & _ & _ & Hset & _).
  split; [exact Hc|exact (Hset [VString "a"] (defined (VNumber 1)))].
Defined.

Lemma async_closed_transaction_rejects_at_call_witness :
  isActive (syncTransaction asyncCanceledTx) = false
  /\ AsyncTupleTransaction.get (api := asyncOfSync TupleDatabase.api)
       [VString "a"] (asyncCanceledTx, oneRowEngine)
     = (Settled (Throws (Error "Transaction already canceled")),
        (asyncCanceledTx, oneRowEngine)).
Proof.
  split; [reflexivity|].
  pose proof (@async_closed_transaction_rejects_at_call _
                (asyncOfSync TupleDatabase.api) asyncCanceledTx oneRowEngine
                eq_refl) as H.
  cbv zeta in H. destruct H as (_ & Hget & _).
  exact (Hget [VString "a"]).
Defined.

Lemma async_scan_reads_buffers_when_resumed_witness :
  let s := (AsyncTupleTransaction.new [] "tx1", oneRowEngine) in
  let out :=
    AsyncTupleTransaction.scan (api := asyncOfSync TupleDatabase.api)
      ScanArgs.empty s in
  let s2 := snd (AsyncTupleTransaction.set [VString "b"] (defined (VNumber 2)) (snd out)) in
  isActive (syncTransaction (fst s)) = true
  /\ settle (fst out) s2
     = (Ok [mkPair [VString "a"] (defined (VNumber 1)); mkPair [VString "b"] (defined (VNumber 2))],
        s2).
Proof.
  cbv zeta. split; [reflexivity|].
  destruct (@async_scan_reads_buffers_when_resumed _ TupleDatabase.api
              ScanArgs.empty (AsyncTupleTransaction.new [] "tx1") oneRowEngine
              eq_refl) as (_ & H).
  rewrite H. reflexivity.
Defined.

Lemma async_get_decides_at_call_witness :
  isActive (syncTransaction asyncTotalTx) = true
  /\ AsyncTupleTransaction.get (api := asyncOfSync TupleDatabase.api)
       [VString "total"] (asyncTotalTx, TupleDatabase.empty)
     = (Settled (Ok (defined (VNumber 3))), (asyncTotalTx, TupleDatabase.empty)).
Proof.
  split; [reflexivity|].
  exact (@async_get_decides_at_call _ (asyncOfSync TupleDatabase.api)
           [VString "total"] asyncTotalTx TupleDatabase.empty eq_refl).
Defined.

Lemma scan_returns_engine_or_buffered_pairs_witness :
  let s :=
    stateAfter [] "tx1" oneRowEngine
      [(Root, CallSet [VString "b"] (defined (VNumber 2)))] in
  isActive (fst s) = true
  /\ fst (snd (TupleTransaction.scan ScanArgs.empty s)) = fst s
  /\ fst (TupleTransaction.scan ScanArgs.empty s)
     = Ok [mkPair [VString "a"] (defined (VNumber 1)); mkPair [VString "b"] (defined (VNumber 2))].
Proof.
  cbv zeta. split; [reflexivity|].
  destruct (@scan_returns_engine_or_buffered_pairs _ _ [] "tx1" oneRowEngine
              [(Root, CallSet [VString "b"] (defined (VNumber 2)))] ScanArgs.empty
              eq_refl) as (H & _).
  split; [now rewrite H|reflexivity].
Defined.

Lemma last_write_of_a_tuple_stays_witness :
  let s :=
    stateAfter [] "tx1" TupleDatabase.empty
      [(Root, CallSet [VString "b"] (defined (VNumber 2)))] in
  let c1 := SetCall [VString "a"] (defined (VNumber 1)) in
  let c2 := RemoveCall [VString "a"] in
  writeTuple c1 = writeTuple c2
  /\ runCalls (map asCall [c1; c2]) s = runCalls (map asCall [c2]) s
  /\ TupleTransaction.writes (fst (runCalls (map asCall [c1; c2]) s))
     = Writes.mk [mkPair [VString "b"] (defined (VNumber 2))] [[VString "a"]].
Proof.
  cbv zeta.
  assert (Hsame : writeTuple (SetCall [VString "a"] (defined (VNumber 1)))
                  = writeTuple (RemoveCall [VString "a"])) by reflexivity.
  split; [exact Hsame|]. split; [|reflexivity].
  exact (@last_write_of_a_tuple_stays _ _ [] "tx1" TupleDatabase.empty
           [(Root, CallSet [VString "b"] (defined (VNumber 2)))]
           (SetCall [VString "a"] (defined (VNumber 1))) (RemoveCall [VString "a"])
           Hsame).
Defined.

Lemma writes_of_different_tuples_commute_witness :
  let s := stateAfter [] "tx1" TupleDatabase.empty [] in
  let c1 := SetCall [VString "b"] (defined (VNumber 2)) in
  let c2 := RemoveCall [VString "a"] in
  Permutation [c1; c2] [c2; c1]
  /\ NoDup (map writeTuple [c1; c2])
  /\ runCalls (map asCall [c1; c2]) s = runCalls (map asCall [c2; c1]) s.
Proof.
  cbv zeta.
  assert (Hperm : Permutation
                    [SetCall [VString "b"] (defined (VNumber 2));
                     RemoveCall [VString "a"]]
                    [RemoveCall [VString "a"];
                     SetCall [VString "b"] (defined (VNumber 2))])
    by apply perm_swap.
  assert (Hnodup : NoDup (map writeTuple
                            [SetCall [VString "b"] (defined (VNumber 2));
                             RemoveCall [VString "a"]])).
  { simpl. constructor; [|constructor; [intros []|constructor]].
    intros [E|[]]. discriminate. }
  split; [exact Hperm|]. split; [exact Hnodup|].
  exact (@writes_of_different_tuples_commute _ _ [] "tx1" TupleDatabase.empty
           [] _ _ Hperm Hnodup).
Defined.

Lemma view_write_is_prefixed_write_witness :
  let s' :=
    (withWrites totalTx
       (Writes.mk
          [mkPair [VString "game"; VString "a"] (defined (VNumber 1));
           mkPair [VString "total"] (defined (VNumber 3))]
          []), TupleDatabase.empty) in
  isActive totalTx = true
  /\ invoke (View gameView) (CallWrite removeAndSet)
       (totalTx, TupleDatabase.empty)
     = (Ok (RetTx (View gameView)), s')
  /\ invoke Root
       (CallWrite
          (Writes.mk
             [mkPair [VString "game"; VString "a"] (defined (VNumber 1))]
             [[VString "game"; VString "a"]]))
       (totalTx, TupleDatabase.empty)
     = (Ok (RetTx Root), s').
Proof.
  cbv zeta. split; [reflexivity|].
  exact (@view_write_is_prefixed_write _ _ gameView removeAndSet totalTx
           TupleDatabase.empty eq_refl).
Defined.

(** ** Both families: the scenarios *)

Lemma commit_closes_before_engine_commit_witness :
  let out := TupleTransaction.commit (totalTx, contendedEngine) in
  let asyncOut :=
    AsyncTupleTransaction.commit (api := asyncOfSync TupleDatabase.api)
      (asyncTotalTx, contendedEngine) in
  isActive totalTx = true
  /\ fst out = Throws (ReadWriteConflictError "tx1")
  /\ TupleTransaction.committed (fst (snd out)) = true
  /\ TupleTransaction.cancel (snd out)
     = (Throws (Error "Transaction already committed"), snd out)
  /\ isActive (syncTransaction asyncTotalTx) = true
  /\ fst asyncOut = Settled (Throws (ReadWriteConflictError "tx1"))
  /\ AsyncTupleTransaction.committed (fst (snd asyncOut)) = true
  /\ AsyncTupleTransaction.cancel (api := asyncOfSync TupleDatabase.api)
       (snd asyncOut)
     = (Settled (Throws (Error "Transaction already committed")),
        snd asyncOut).
Proof.
  cbv zeta. split; [reflexivity|].
  destruct commit_closes_before_engine_commit as [Hsync Hasync].
  pose proof (Hsync _ _ totalTx contendedEngine eq_refl) as H.
  cbv zeta in H. destruct H as (Hr & _ & Hc & _ & _ & Hcancel & _).
  split; [rewrite Hr; reflexivity|]. split; [exact Hc|].
  split; [exact Hcancel|]. split; [reflexivity|].
  pose proof (Hasync _ (asyncOfSync TupleDatabase.api) asyncTotalTx
                contendedEngine eq_refl) as H.
  cbv zeta in H. destruct H as (Htx & Hd & Hp & _ & _ & Hcancel' & _).
  split; [rewrite Hp; reflexivity|]. split; [now rewrite Htx|].
  rewrite (surjective_pairing
             (snd (AsyncTupleTransaction.commit
                     (api := asyncOfSync TupleDatabase.api)
                     (asyncTotalTx, contendedEngine)))).
  apply Hcancel'.
Defined.

Lemma subspace_set_commits_prefixed_key_witness :
  let parent := TupleDatabaseClient.mk [VString "app"] in
  let s :=
    runCalls [(Root, CallRemove [VString "total"])]
      (TupleDatabaseClient.transact
         (TupleDatabaseClient.subspace parent [VString "game"]) None "tx",
       TupleDatabase.empty) in
  let fullTuple := [VString "app"; VString "game"; VString "total"] in
  let w :=
    TupleTransaction.writes
      (fst (snd (TupleTransaction.set [VString "total"] (defined (VNumber 3))
                   s))) in
  isActive (fst s) = true
  /\ In fullTuple (Writes.remove (TupleTransaction.writes (fst s)))
  /\ In (mkPair fullTuple (defined (VNumber 3))) (Writes.set w)
  /\ ~ In fullTuple (Writes.remove w).
Proof.
  cbv zeta. split; [reflexivity|]. split; [now left|].
  destruct subspace_set_commits_prefixed_key as [Hgeneral _].
  pose proof (Hgeneral _ TupleDatabase.api
                (TupleDatabaseClient.mk [VString "app"]) [VString "game"]
                [VString "total"] (defined (VNumber 3)) None "tx"
                TupleDatabase.empty [(Root, CallRemove [VString "total"])])
    as H.
  cbv zeta in H. destruct H as (_ & _ & _ & H).
  destruct (H eq_refl) as (_ & _ & Hset & Hremove & _). split.
  - apply Hset. now left.
  - intros Hin. apply Hremove in Hin. destruct Hin as [_ Hne]. now apply Hne.
Defined.

Lemma set_remove_keep_writes_disjoint_witness :
  let r :=
    asyncRun (api := asyncOfSync TupleDatabase.api)
      [Calls AsyncRoot (CallScan ScanArgs.empty);
       Calls AsyncRoot (CallRemove [VString "a"]);
       Resumes 0]
      (started (AsyncTupleTransaction.new [] "tx1", oneRowEngine)) in
  let tx' :=
    fst (current
           (asyncRun (api := asyncOfSync TupleDatabase.api)
              (map asAsyncCall [SetCall [VString "a"] (defined (VNumber 2))])
              r)) in
  AsyncTupleTransaction.writes (fst (current r))
  = Writes.mk [] [[VString "a"]]
  /\ AsyncTupleTransaction.writes tx'
     = Writes.mk [mkPair [VString "a"] (defined (VNumber 2))] []
  /\ ~ (In [VString "a"]
          (map key (Writes.set (AsyncTupleTransaction.writes tx')))
        /\ In [VString "a"]
             (Writes.remove (AsyncTupleTransaction.writes tx'))).
Proof.
  cbv zeta. split; [reflexivity|]. split; [reflexivity|].
  destruct set_remove_keep_writes_disjoint as [_ Hasync].
  exact (Hasync _ (asyncOfSync TupleDatabase.api) [] "tx1" oneRowEngine
           [Calls AsyncRoot (CallScan ScanArgs.empty);
            Calls AsyncRoot (CallRemove [VString "a"]);
            Resumes 0]
           [SetCall [VString "a"] (defined (VNumber 2))] [VString "a"]).
Defined.
